(** * The features engine of LMS: a similarity index over a media catalog

    A shallow embedding of [Recommendation::FeaturesEngine]
    (FeaturesEngine.cpp): construction of the training samples, sizing and
    weighting of the self-organising map, construction of the
    position/entity index, the cache life cycle, cooperative cancellation
    and the similarity queries.

    Conventions of the embedding:
    - a [double] is an IEEE 754 binary64 value and a [float] a binary32
      value, with the operations of the specification of floating-point
      arithmetic of the Standard Library ([SpecFloat]): rounding to
      nearest, ties to even;
    - [std::size_t] is [nat], database ids and grid coordinates are [Z];
    - [std::unordered_map] and [std::unordered_set] are [gmap] and [gset];
      a range-for over one of them visits [map_to_list] / [elements];
    - behaviour the C++ standard leaves undefined (an element access past
      the end of a vector or outside the grid of a matrix, dereferencing an
      empty [unique_ptr], converting a floating-point value to an integer
      type that cannot hold it) and a failing [assert] are explicit
      [Failed] outcomes. *)

From Stdlib Require Import ZArith QArith Qabs Qround Lia SpecFloat.
From stdpp Require Import base numbers option list list_numbers strings gmap.

Open Scope Z_scope.
Open Scope nat_scope.

(** ** Outcomes of fallible code *)

Inductive Fault : Type :=
| OutOfRange        (* unchecked element access past the end of a vector
                       or outside the grid of a matrix *)
| AssertionFailed   (* an [assert] whose condition is false *)
| NullDereference   (* [*p] on an empty [std::unique_ptr] *)
| Unrepresentable.  (* a floating-point value converted to an integer type
                       that cannot hold its integral part *)

Inductive Outcome (A : Type) : Type :=
| Done (a : A)
| Failed (f : Fault).
Arguments Done {A} a.
Arguments Failed {A} f.

#[global] Instance Outcome_ret : MRet Outcome := fun A a => Done a.
#[global] Instance Outcome_bind : MBind Outcome := fun A B k m =>
  match m with
  | Done a => k a
  | Failed f => Failed f
  end.

(* A loop whose body can fail: the body is run on the elements in order,
   and the loop ends at the first failure *)
Fixpoint foldM {A B : Type} (f : B -> A -> Outcome B) (b : B) (l : list A)
  : Outcome B :=
  match l with
  | [] => Done b
  | x :: rest => b' ← f b x; foldM f b' rest
  end.

(** ** Floating-point numbers *)

Abbreviation double := spec_float (only parsing).
Abbreviation float := spec_float (only parsing).

#[global] Instance spec_float_eq_dec : EqDecision spec_float.
Proof. solve_decision. Defined.

(* The real number that a finite floating-point value denotes *)
Definition valueOf (x : spec_float) : Q :=
  match x with
  | S754_finite s m e =>
      ((if s then -1 else 1) * inject_Z (Zpos m) * Qpower 2 e)%Q
  | _ => 0%Q
  end.

(* The sum, as a real number, of the values of a vector *)
Definition sumOf (l : list spec_float) : Q :=
  foldr (fun x sum => (valueOf x + sum)%Q) 0%Q l.

(* The integral part of a value (the fractional part is discarded), when
   the value is finite *)
Definition truncate (x : spec_float) : option Z :=
  match x with
  | S754_zero _ => Some 0%Z
  | S754_finite s m e =>
      let magnitude :=
        if (0 <=? e)%Z then (Zpos m * 2 ^ e)%Z else (Zpos m / 2 ^ (- e))%Z in
      Some (if s then (- magnitude)%Z else magnitude)
  | _ => None
  end.

(* binary64 *)
Module Double.

Definition prec : Z := 53.
Definition emax : Z := 1024.

Definition ofZ (z : Z) : spec_float := binary_normalize prec emax z 0 false.
(* the conversion of a std::size_t *)
Definition ofNat (n : nat) : spec_float := ofZ (Z.of_nat n).
Definition zero : spec_float := S754_zero false.
Definition one : spec_float := ofZ 1.
Definition div : spec_float -> spec_float -> spec_float := SFdiv prec emax.
Definition mul : spec_float -> spec_float -> spec_float := SFmul prec emax.

End Double.

(* binary32 *)
Module Float.

Definition prec : Z := 24.
Definition emax : Z := 128.

Definition ofZ (z : Z) : spec_float := binary_normalize prec emax z 0 false.
(* the conversion of a std::size_t *)
Definition ofNat (n : nat) : spec_float := ofZ (Z.of_nat n).
Definition div : spec_float -> spec_float -> spec_float := SFdiv prec emax.
Definition sqrt : spec_float -> spec_float := SFsqrt prec emax.

End Float.

(** ** Identifiers and feature tables *)

Abbreviation TrackId := Z (only parsing).
Abbreviation ReleaseId := Z (only parsing).
Abbreviation ArtistId := Z (only parsing).
Abbreviation FeatureName := string (only parsing).
(* Database::TrackArtistLinkType, by the ordinal of the enumerator *)
Abbreviation TrackArtistLinkType := nat (only parsing).

Record FeatureDef : Type := { nbDimensions : nat }.
(* FeatureSettings {weight}: the weight is a double *)
Record FeatureSettings : Type := { weight : double }.

Abbreviation FeatureValues := (list double) (only parsing).
Abbreviation FeatureValuesMap := (gmap string (list double)) (only parsing).
Abbreviation FeatureSettingsMap := (gmap string FeatureSettings) (only parsing).

(** ** SOM::InputVector *)

Module SOM.

Abbreviation Coordinate := Z (only parsing).
Abbreviation Position := (Z * Z)%type (only parsing).
Abbreviation InputVector := (list double) (only parsing).

(* InputVector {nbDimensions}: nbDimensions zero-initialised values *)
Definition newInputVector (nbDimensions : nat) : list double :=
  replicate nbDimensions Double.zero.

(* v[i] = x, the element access being unchecked *)
Definition store (v : list double) (i : nat) (x : double) : Outcome (list double) :=
  if decide (i < length v) then Done (<[i := x]> v) else Failed OutOfRange.

End SOM.

(** ** Vector construction (static helpers of FeaturesEngine.cpp) *)

Section Features.

(* getFeatureDef is declared outside FeaturesEngine.cpp: the table of
   feature definitions is a parameter. *)
Variable getFeatureDef : string -> FeatureDef.

Definition dimsOf (featureName : string) : nat :=
  nbDimensions (getFeatureDef featureName).

(* An entry of a FeatureValuesMap whose stored value count differs from the
   declared dimension of its feature *)
Definition mismatch (entry : string * list double) : Prop :=
  length entry.2 <> dimsOf entry.1.

(* for (double val : values) ( *res)[i++] = val; *)
Fixpoint writeValues (values : list double) (res : list double) (i : nat)
  : Outcome (list double * nat) :=
  match values with
  | [] => Done (res, i)
  | val :: rest => res' ← SOM.store res i val; writeValues rest res' (S i)
  end.

(* The range-for of convertFeatureValuesMapToInputVector; [Done None] is
   the reset optional. *)
Fixpoint convertLoop (entries : list (string * list double)) (res : list double) (i : nat)
  : Outcome (option (list double)) :=
  match entries with
  | [] => Done (Some res)
  | (featureName, values) :: rest =>
      if decide (length values ≠ nbDimensions (getFeatureDef featureName))
      then Done None
      else '(res', i') ← writeValues values res i; convertLoop rest res' i'
  end.

Definition convertFeatureValuesMapToInputVector
    (featureValuesMap : gmap string (list double)) (nbDims : nat)
  : Outcome (option (list double)) :=
  convertLoop (map_to_list featureValuesMap) (SOM.newInputVector nbDims) 0.

(* 1. / featureNbDimensions * featureSettings.weight: the quotient of the
   doubles 1 and featureNbDimensions, rounded, times the weight, rounded *)
Definition weightOfDimension (featureNbDimensions : nat) (weight : double) : double :=
  Double.mul (Double.div Double.one (Double.ofNat featureNbDimensions)) weight.

(* for (i = 0; i < featureNbDimensions; ++i) weights[index++] = ...; *)
Fixpoint fillWeights (count : nat) (value : double) (weights : list double) (index : nat)
  : Outcome (list double * nat) :=
  match count with
  | 0 => Done (weights, index)
  | S count' =>
      weights' ← SOM.store weights index value;
      fillWeights count' value weights' (S index)
  end.

Fixpoint weightsLoop (entries : list (string * FeatureSettings))
    (weights : list double) (index : nat) : Outcome (list double * nat) :=
  match entries with
  | [] => Done (weights, index)
  | (featureName, featureSettings) :: rest =>
      let featureNbDimensions := nbDimensions (getFeatureDef featureName) in
      '(weights', index') ←
        fillWeights featureNbDimensions
          (weightOfDimension featureNbDimensions (weight featureSettings))
          weights index;
      weightsLoop rest weights' index'
  end.

Definition getInputVectorWeights
    (featureSettingsMap : gmap string FeatureSettings) (nbDims : nat)
  : Outcome (list double) :=
  '(weights, index) ←
    weightsLoop (map_to_list featureSettingsMap) (SOM.newInputVector nbDims) 0;
  if decide (index = nbDims) then Done weights else Failed AssertionFailed.

(* The weights of the dimensions of one feature, as the inner loop of
   getInputVectorWeights writes them *)
Definition weightBlock (entry : string * FeatureSettings) : list double :=
  replicate (dimsOf entry.1)
    (weightOfDimension (dimsOf entry.1) (weight entry.2)).

(* loadFromTraining, lines 136-141: the set of feature names and the
   accumulated dimension count *)
Definition featureNamesOf (featureSettingsMap : gmap string FeatureSettings)
  : gset string :=
  list_to_set (map fst (map_to_list featureSettingsMap)).

Definition totalDimensions (featureNames : gset string) : nat :=
  foldl (fun sum featureName => sum + nbDimensions (getFeatureDef featureName))
    0 (elements featureNames).

End Features.

(** ** The self-organising map and the position matrices *)

Module Network.

(** Modelled from the spec: SOM::Network is declared outside
    FeaturesEngine.cpp. The record follows the data model of the spec,
    [Network: { width, height, dimensions, refVectors, dataWeights }]. *)
Record t : Type := Build {
  width : Z;
  height : Z;
  dimensions : nat;
  refVectors : gmap (Z * Z) (list double);
  dataWeights : list double;
}.

Definition setDataWeights (weights : list double) (n : t) : t :=
  {| width := width n; height := height n; dimensions := dimensions n;
     refVectors := refVectors n; dataWeights := weights |}.

Definition setRefVectors (refs : gmap (Z * Z) (list double)) (n : t) : t :=
  {| width := width n; height := height n; dimensions := dimensions n;
     refVectors := refs; dataWeights := dataWeights n |}.

End Network.

Module Matrix.

(** Modelled from the spec: SOM::Matrix is declared outside
    FeaturesEngine.cpp. It is the PositionMatrix of the spec, a mapping from
    Position to the entity ids of that cell, built with a width and a
    height; a cell never written holds the empty vector. A Position of the
    spec is a pair (x, y) with 0 <= x < width and 0 <= y < height: the
    element access [matrix[position]] is unchecked, and an access at any
    other position is outside the matrix. *)
Record t : Type := Build {
  width : Z;
  height : Z;
  cells : gmap (Z * Z) (list Z);
}.

Definition new (w h : Z) : t := {| width := w; height := h; cells := ∅ |}.

(* The positions of a grid of the given width and height *)
Definition inGrid (w h : Z) (position : Z * Z) : Prop :=
  (0 <= position.1 < w)%Z /\ (0 <= position.2 < h)%Z.

#[global] Instance inGrid_dec w h position : Decision (inGrid w h position).
Proof. unfold inGrid. apply _. Defined.

Definition within (m : t) (position : Z * Z) : Prop :=
  inGrid (width m) (height m) position.

#[global] Instance within_dec m position : Decision (within m position).
Proof. unfold within. apply _. Defined.

(* matrix[position], read *)
Definition get (m : t) (position : Z * Z) : Outcome (list Z) :=
  if decide (within m position)
  then Done (default [] (cells m !! position))
  else Failed OutOfRange.

(* matrix[position] = ids *)
Definition set (m : t) (position : Z * Z) (ids : list Z) : Outcome t :=
  if decide (within m position)
  then Done {| width := width m; height := height m;
               cells := <[position := ids]> (cells m) |}
  else Failed OutOfRange.

End Matrix.

(** Modelled from the spec: Utils::push_back_if_not_present is declared
    outside FeaturesEngine.cpp; insertion into an index is idempotent,
    adding a value already present is a no-op. *)
Definition push_back_if_not_present {A : Type} `{EqDecision A}
    (container : list A) (value : A) : list A :=
  if decide (value ∈ container) then container else container ++ [value].

(** ** The catalog (Database::Session, as the engine sees it) *)

Record TrackArtistLink : Type := {
  getArtist : Z;            (* artistLink->getArtist()->getId() *)
  getType : nat;            (* artistLink->getType() *)
}.

Record Track : Type := {
  getRelease : option Z;    (* the id of track->getRelease(), if any *)
  getArtistLinks : list TrackArtistLink;
  (* track->getTrackFeatures()->getFeatureValuesMap(featureNames) *)
  getFeatureValuesMap : gset string -> gmap string (list double);
}.

Record Db : Type := {
  tracks : gmap Z Track;            (* Track::getById *)
  releases : gset Z;
  artists : gset Z;
  getAllIdsWithFeatures : list Z;   (* Track::getAllIdsWithFeatures *)
  trackLists : gmap Z (list Z);     (* TrackList::getById, then getTrackIds *)
}.

Definition Track_exists (db : Db) (trackId : Z) : bool :=
  bool_decide (is_Some (tracks db !! trackId)).
Definition Release_exists (db : Db) (releaseId : Z) : bool :=
  bool_decide (releaseId ∈ releases db).
Definition Artist_exists (db : Db) (artistId : Z) : bool :=
  bool_decide (artistId ∈ artists db).

(** ** The engine *)

(** Modelled from the spec: TrainSettings is declared in FeaturesEngine.hpp,
    outside FeaturesEngine.cpp:
    [TrainSettings: { featureSettingsMap, iterationCount: integer > 0,
    sampleCountPerNeuron: float > 0 }]; sampleCountPerNeuron is a
    single-precision float. *)
Record TrainSettings : Type := {
  iterationCount : nat;
  sampleCountPerNeuron : float;
  featureSettingsMap : gmap string FeatureSettings;
}.

(* FeaturesEngineCache {network, trackPositions} *)
Record FeaturesEngineCache : Type := {
  _cacheNetwork : Network.t;
  _cacheTrackPositions : gmap Z (list (Z * Z));
}.

Record FeaturesEngine : Type := {
  _loadCancelled : bool;
  _network : option Network.t;      (* std::unique_ptr<SOM::Network> *)
  _networkRefVectorsDistanceMedian : double;
  _trackPositions : gmap Z (list (Z * Z));
  _releasePositions : gmap Z (list (Z * Z));
  _artistPositions : gmap Z (list (Z * Z));
  _trackMatrix : Matrix.t;
  _releaseMatrix : Matrix.t;
  _artistMatrix : gmap nat Matrix.t;
}.

(* A freshly constructed engine *)
Definition newEngine : FeaturesEngine :=
  {| _loadCancelled := false; _network := None;
     _networkRefVectorsDistanceMedian := Double.zero;
     _trackPositions := ∅; _releasePositions := ∅; _artistPositions := ∅;
     _trackMatrix := Matrix.new 0 0; _releaseMatrix := Matrix.new 0 0;
     _artistMatrix := ∅ |}.

Definition set_loadCancelled (v : bool) (e : FeaturesEngine) : FeaturesEngine :=
  {| _loadCancelled := v; _network := _network e;
     _networkRefVectorsDistanceMedian := _networkRefVectorsDistanceMedian e;
     _trackPositions := _trackPositions e; _releasePositions := _releasePositions e;
     _artistPositions := _artistPositions e; _trackMatrix := _trackMatrix e;
     _releaseMatrix := _releaseMatrix e; _artistMatrix := _artistMatrix e |}.

Definition set_network (v : option Network.t) (e : FeaturesEngine) : FeaturesEngine :=
  {| _loadCancelled := _loadCancelled e; _network := v;
     _networkRefVectorsDistanceMedian := _networkRefVectorsDistanceMedian e;
     _trackPositions := _trackPositions e; _releasePositions := _releasePositions e;
     _artistPositions := _artistPositions e; _trackMatrix := _trackMatrix e;
     _releaseMatrix := _releaseMatrix e; _artistMatrix := _artistMatrix e |}.

Definition set_networkRefVectorsDistanceMedian (v : double) (e : FeaturesEngine)
  : FeaturesEngine :=
  {| _loadCancelled := _loadCancelled e; _network := _network e;
     _networkRefVectorsDistanceMedian := v;
     _trackPositions := _trackPositions e; _releasePositions := _releasePositions e;
     _artistPositions := _artistPositions e; _trackMatrix := _trackMatrix e;
     _releaseMatrix := _releaseMatrix e; _artistMatrix := _artistMatrix e |}.

Definition set_trackPositions (v : gmap Z (list (Z * Z))) (e : FeaturesEngine)
  : FeaturesEngine :=
  {| _loadCancelled := _loadCancelled e; _network := _network e;
     _networkRefVectorsDistanceMedian := _networkRefVectorsDistanceMedian e;
     _trackPositions := v; _releasePositions := _releasePositions e;
     _artistPositions := _artistPositions e; _trackMatrix := _trackMatrix e;
     _releaseMatrix := _releaseMatrix e; _artistMatrix := _artistMatrix e |}.

Definition set_releasePositions (v : gmap Z (list (Z * Z))) (e : FeaturesEngine)
  : FeaturesEngine :=
  {| _loadCancelled := _loadCancelled e; _network := _network e;
     _networkRefVectorsDistanceMedian := _networkRefVectorsDistanceMedian e;
     _trackPositions := _trackPositions e; _releasePositions := v;
     _artistPositions := _artistPositions e; _trackMatrix := _trackMatrix e;
     _releaseMatrix := _releaseMatrix e; _artistMatrix := _artistMatrix e |}.

Definition set_artistPositions (v : gmap Z (list (Z * Z))) (e : FeaturesEngine)
  : FeaturesEngine :=
  {| _loadCancelled := _loadCancelled e; _network := _network e;
     _networkRefVectorsDistanceMedian := _networkRefVectorsDistanceMedian e;
     _trackPositions := _trackPositions e; _releasePositions := _releasePositions e;
     _artistPositions := v; _trackMatrix := _trackMatrix e;
     _releaseMatrix := _releaseMatrix e; _artistMatrix := _artistMatrix e |}.

Definition set_trackMatrix (v : Matrix.t) (e : FeaturesEngine) : FeaturesEngine :=
  {| _loadCancelled := _loadCancelled e; _network := _network e;
     _networkRefVectorsDistanceMedian := _networkRefVectorsDistanceMedian e;
     _trackPositions := _trackPositions e; _releasePositions := _releasePositions e;
     _artistPositions := _artistPositions e; _trackMatrix := v;
     _releaseMatrix := _releaseMatrix e; _artistMatrix := _artistMatrix e |}.

Definition set_releaseMatrix (v : Matrix.t) (e : FeaturesEngine) : FeaturesEngine :=
  {| _loadCancelled := _loadCancelled e; _network := _network e;
     _networkRefVectorsDistanceMedian := _networkRefVectorsDistanceMedian e;
     _trackPositions := _trackPositions e; _releasePositions := _releasePositions e;
     _artistPositions := _artistPositions e; _trackMatrix := _trackMatrix e;
     _releaseMatrix := v; _artistMatrix := _artistMatrix e |}.

Definition set_artistMatrix (v : gmap nat Matrix.t) (e : FeaturesEngine)
  : FeaturesEngine :=
  {| _loadCancelled := _loadCancelled e; _network := _network e;
     _networkRefVectorsDistanceMedian := _networkRefVectorsDistanceMedian e;
     _trackPositions := _trackPositions e; _releasePositions := _releasePositions e;
     _artistPositions := _artistPositions e; _trackMatrix := _trackMatrix e;
     _releaseMatrix := _releaseMatrix e; _artistMatrix := v |}.

(* The members that the index construction never writes *)
Definition sameControl (e e' : FeaturesEngine) : Prop :=
  _loadCancelled e' = _loadCancelled e
  /\ _network e' = _network e
  /\ _networkRefVectorsDistanceMedian e' = _networkRefVectorsDistanceMedian e.

(** The engine together with what [load] reads and writes around it: the
    cache file, the log of cache writes, and a count of the reads of
    [_loadCancelled] made so far (a request to cancel comes from another
    thread; it is placed in time by the number of reads that precede it). *)
Record Sys : Type := {
  engine : FeaturesEngine;
  cacheFile : option FeaturesEngineCache;    (* what FeaturesEngineCache::read finds *)
  cacheWrites : list FeaturesEngineCache;    (* every FeaturesEngineCache::write, in order *)
  clock : nat;
}.

Definition onEngine (f : FeaturesEngine -> FeaturesEngine) (s : Sys) : Sys :=
  {| engine := f (engine s); cacheFile := cacheFile s;
     cacheWrites := cacheWrites s; clock := clock s |}.

(* Nothing happened between [s] and [s'] but reads of _loadCancelled *)
Definition polledOnly (s s' : Sys) : Prop :=
  cacheFile s' = cacheFile s /\ cacheWrites s' = cacheWrites s
  /\ engine s' = set_loadCancelled (_loadCancelled (engine s')) (engine s).

(* The state that a run leaves when it returns; [otherwise] when it does
   not return *)
Definition stateOr (otherwise : Sys) (o : Outcome Sys) : Sys :=
  match o with
  | Done s => s
  | Failed _ => otherwise
  end.

(* The value computed, apart from the state it leaves *)
Definition resultOf {A : Type} (o : Outcome (A * Sys)) : Outcome A :=
  '(a, _) ← o; Done a.

(* FeaturesEngineCache::invalidate *)
Definition invalidate (s : Sys) : Sys :=
  {| engine := engine s; cacheFile := None;
     cacheWrites := cacheWrites s; clock := clock s |}.

(* FeaturesEngineCache::write *)
Definition write (cache : FeaturesEngineCache) (s : Sys) : Sys :=
  {| engine := engine s; cacheFile := Some cache;
     cacheWrites := cacheWrites s ++ [cache]; clock := clock s |}.

(* FeaturesEngine::toCache *)
Definition toCache (e : FeaturesEngine) : Outcome FeaturesEngineCache :=
  match _network e with
  | Some network =>
      Done {| _cacheNetwork := network; _cacheTrackPositions := _trackPositions e |}
  | None => Failed NullDereference
  end.

(* FeaturesEngine::requestCancelLoad *)
Definition requestCancelLoad (e : FeaturesEngine) : FeaturesEngine :=
  set_loadCancelled true e.

(* FeaturesEngine::getDefaultTrainFeatureSettings *)
Definition getDefaultTrainFeatureSettings : gmap string FeatureSettings :=
  list_to_map
    [ ("lowlevel.spectral_energyband_high.mean"%string, {| weight := Double.one |});
      ("lowlevel.spectral_rolloff.median"%string, {| weight := Double.one |});
      ("lowlevel.spectral_contrast_valleys.var"%string, {| weight := Double.one |});
      ("lowlevel.erbbands.mean"%string, {| weight := Double.one |});
      ("lowlevel.gfcc.mean"%string, {| weight := Double.one |}) ].

(** Modelled from the spec: SOM::Coordinate is declared outside
    FeaturesEngine.cpp. The spec has a coordinate be a non-negative
    integer; the embedding takes the type to be unsigned, of 32 bits. *)
(* static_cast<SOM::Coordinate>(x): the integral part of x, undefined when
   SOM::Coordinate cannot hold it *)
Definition toCoordinate (x : float) : Outcome Z :=
  match truncate x with
  | Some z => if decide (0 <= z < 2 ^ 32)%Z then Done z else Failed Unrepresentable
  | None => Failed Unrepresentable
  end.

(* loadFromTraining, lines 200-205: samples.size() is converted to float and
   divided by sampleCountPerNeuron, std::sqrt is taken in single precision
   and its result is converted to SOM::Coordinate *)
Definition gridSize (sampleCount : nat) (sampleCountPerNeuron : float) : Outcome Z :=
  size ←
    toCoordinate
      (Float.sqrt (Float.div (Float.ofNat sampleCount) sampleCountPerNeuron));
  Done (if (size <? 2)%Z then 2%Z else size).

(* The grid sizing policy in the words of the spec, over the real numbers:
   size = max(2, floor(sqrt(sampleCount / sampleCountPerNeuron))). The
   integral part of the square root of x is the integer square root of the
   integral part of x. *)
Definition gridSizeFromSpec (sampleCount : nat) (sampleCountPerNeuron : Q) : Z :=
  Z.max 2 (Z.sqrt (Qfloor (inject_Z (Z.of_nat sampleCount) / sampleCountPerNeuron))).
(** ** Loading: training, cache adoption, index construction *)

Section Loading.

Variable getFeatureDef : string -> FeatureDef.

(* The catalog behind _db.getTLSSession() *)
Variable db : Db.

(* requestCancelLoad() is called from another thread: [cancelAt = Some c]
   places the call just before the read of [_loadCancelled] numbered [c]
   (by [clock]); [None] means no call is made while [load] runs. *)
Variable cancelAt : option nat.

(* _featuresFetchFunc, empty unless a fetch function was installed *)
Variable _featuresFetchFunc :
  option (Z -> gset string -> option (gmap string (list double))).

(** Modelled from the spec: the operations of SOM::Network and
    SOM::DataNormalizer are declared outside FeaturesEngine.cpp. Random
    initialisation, the update of one training iteration, the nearest
    neuron, the median distance and the normalisation are parameters;
    [train] follows the spec: it checks the cancellation predicate at the
    start of every iteration, stops at once when it holds, and changes
    nothing but the reference vectors. *)
Variable initialRefVectors : Z -> Z -> nat -> gmap (Z * Z) (list double).
Variable trainIteration :
  nat -> Network.t -> list (list double) -> gmap (Z * Z) (list double).
Variable getClosestRefVectorPosition : Network.t -> list double -> Z * Z.
Variable computeRefVectorsDistanceMedian : Network.t -> double.
(* dataNormalizer.normalizeData(sample), after
   computeNormalizationFactors(samples) *)
Variable normalizeData : list (list double) -> list double -> list double.

(* The defaults of TrainSettings, declared in FeaturesEngine.hpp *)
Variable defaultIterationCount : nat.
Variable defaultSampleCountPerNeuron : float.

Definition cancelRequested (t : nat) : bool :=
  match cancelAt with
  | Some c => bool_decide (c ≤ t)
  | None => false
  end.

(* One read of _loadCancelled *)
Definition readLoadCancelled (s : Sys) : bool * Sys :=
  let flag := _loadCancelled (engine s) || cancelRequested (clock s) in
  (flag,
   {| engine := set_loadCancelled flag (engine s); cacheFile := cacheFile s;
      cacheWrites := cacheWrites s; clock := S (clock s) |}).

Definition getTrackFeatureValuesFromDb (trackId : Z) (featureNames : gset string)
  : option (gmap string (list double)) :=
  match tracks db !! trackId with
  | None => None
  | Some track =>
      let res := getFeatureValuesMap track featureNames in
      if decide (res = ∅) then None else Some res
  end.

(* loadFromTraining, lines 168-173 *)
Definition fetchFeatureValues (trackId : Z) (featureNames : gset string)
  : option (gmap string (list double)) :=
  match _featuresFetchFunc with
  | Some func => func trackId featureNames
  | None => getTrackFeatureValuesFromDb trackId featureNames
  end.

(* loadFromTraining, lines 163-184. [None] in the result: the function
   returned from inside the loop. *)
Fixpoint extractSamples (featureNames : gset string) (nbDims : nat)
    (trackIds : list Z) (samples : list (list double)) (samplesTrackIds : list Z)
    (s : Sys) : Outcome (option (list (list double) * list Z) * Sys) :=
  match trackIds with
  | [] => Done (Some (samples, samplesTrackIds), s)
  | trackId :: rest =>
      let '(cancelled, s) := readLoadCancelled s in
      if cancelled then Done (None, s)
      else
        match fetchFeatureValues trackId featureNames with
        | None => extractSamples featureNames nbDims rest samples samplesTrackIds s
        | Some featureValuesMap =>
            inputVector ←
              convertFeatureValuesMapToInputVector getFeatureDef featureValuesMap nbDims;
            match inputVector with
            | None => extractSamples featureNames nbDims rest samples samplesTrackIds s
            | Some v =>
                extractSamples featureNames nbDims rest
                  (samples ++ [v]) (samplesTrackIds ++ [trackId]) s
            end
        end
  end.

(* SOM::Network network {size, size, nbDimensions} *)
Definition newNetwork (w h : Z) (nbDims : nat) : Network.t :=
  {| Network.width := w; Network.height := h; Network.dimensions := nbDims;
     Network.refVectors := initialRefVectors w h nbDims;
     Network.dataWeights := SOM.newInputVector nbDims |}.

(* network.train(samples, iterationCount, ..., [this] { return _loadCancelled; }) *)
Fixpoint train (remaining idIteration : nat) (samples : list (list double))
    (network : Network.t) (s : Sys) : Network.t * Sys :=
  match remaining with
  | 0 => (network, s)
  | S remaining' =>
      let '(cancelled, s) := readLoadCancelled s in
      if cancelled then (network, s)
      else
        train remaining' (S idIteration) samples
          (Network.setRefVectors (trainIteration idIteration network samples) network) s
  end.

(* loadFromTraining, lines 228-236, over samples[i] and samplesTrackIds[i] *)
Fixpoint classifyTracks (network : Network.t) (samples : list (Z * list double))
    (trackPositions : gmap Z (list (Z * Z))) (s : Sys)
  : option (gmap Z (list (Z * Z))) * Sys :=
  match samples with
  | [] => (Some trackPositions, s)
  | (trackId, sample) :: rest =>
      let '(cancelled, s) := readLoadCancelled s in
      if cancelled then (None, s)
      else
        let position := getClosestRefVectorPosition network sample in
        classifyTracks network rest
          (<[trackId := default [] (trackPositions !! trackId) ++ [position]]>
             trackPositions) s
  end.

(* positions[id]: operator[] of the map, then push_back_if_not_present *)
Definition addPosition (positions : gmap Z (list (Z * Z))) (id : Z)
    (position : Z * Z) : gmap Z (list (Z * Z)) :=
  <[id := push_back_if_not_present (default [] (positions !! id)) position]>
    positions.

(* push_back_if_not_present(matrix[position], id) *)
Definition addToCell (matrix : Matrix.t) (position : Z * Z) (id : Z)
  : Outcome Matrix.t :=
  ids ← Matrix.get matrix position;
  Matrix.set matrix position (push_back_if_not_present ids id).

(* load(network, trackPositions), lines 433-446 *)
Definition indexArtistLink (w h : Z) (position : Z * Z) (e : FeaturesEngine)
    (artistLink : TrackArtistLink) : Outcome FeaturesEngine :=
  let artistId := getArtist artistLink in
  let e := set_artistPositions (addPosition (_artistPositions e) artistId position) e in
  let matrix :=
    match _artistMatrix e !! getType artistLink with
    | Some matrix => matrix
    | None => Matrix.new w h     (* try_emplace *)
    end in
  matrix ← addToCell matrix position artistId;
  Done (set_artistMatrix (<[getType artistLink := matrix]> (_artistMatrix e)) e).

(* load(network, trackPositions), lines 422-447: one position of one track *)
Definition indexPosition (w h : Z) (trackId : Z) (track : Track)
    (e : FeaturesEngine) (position : Z * Z) : Outcome FeaturesEngine :=
  let e := set_trackPositions (addPosition (_trackPositions e) trackId position) e in
  trackMatrix ← addToCell (_trackMatrix e) position trackId;
  let e := set_trackMatrix trackMatrix e in
  e ←
    match getRelease track with
    | Some releaseId =>
        let e :=
          set_releasePositions (addPosition (_releasePositions e) releaseId position) e in
        releaseMatrix ← addToCell (_releaseMatrix e) position releaseId;
        Done (set_releaseMatrix releaseMatrix e)
    | None => Done e
    end;
  foldM (indexArtistLink w h position) e (getArtistLinks track).

(* What the index construction does to _trackPositions for one entry of
   the model *)
Definition trackPositionsStep (m : gmap Z (list (Z * Z)))
    (entry : Z * list (Z * Z)) : gmap Z (list (Z * Z)) :=
  match tracks db !! entry.1 with
  | None => m
  | Some _ => foldl (fun m p => addPosition m entry.1 p) m entry.2
  end.

(* load(network, trackPositions), lines 411-448. The boolean is false
   when the function returned from inside the loop. *)
Fixpoint indexTracks (w h : Z) (entries : list (Z * list (Z * Z))) (s : Sys)
  : Outcome (bool * Sys) :=
  match entries with
  | [] => Done (true, s)
  | (trackId, positions) :: rest =>
      let '(cancelled, s) := readLoadCancelled s in
      if cancelled then Done (false, s)
      else
        match tracks db !! trackId with
        | None => indexTracks w h rest s
        | Some track =>
            e ← foldM (indexPosition w h trackId track) (engine s) positions;
            indexTracks w h rest (onEngine (fun _ => e) s)
        end
  end.

(* FeaturesEngine::load(const SOM::Network&, const TrackPositions&) *)
Definition loadModel (network : Network.t) (trackPositions : gmap Z (list (Z * Z)))
    (s : Sys) : Outcome Sys :=
  let s :=
    onEngine (set_networkRefVectorsDistanceMedian
                (computeRefVectorsDistanceMedian network)) s in
  let w := Network.width network in
  let h := Network.height network in
  let s := onEngine (set_releaseMatrix (Matrix.new w h)) s in
  let s := onEngine (set_trackMatrix (Matrix.new w h)) s in
  indexed ← indexTracks w h (map_to_list trackPositions) s;
  match indexed with
  | (true, s) => Done (onEngine (set_network (Some network)) s)
  | (false, s) => Done s      (* returned from inside the loop *)
  end.

(* FeaturesEngine::loadFromCache *)
Definition loadFromCache (cache : FeaturesEngineCache) (s : Sys) : Outcome Sys :=
  loadModel (_cacheNetwork cache) (_cacheTrackPositions cache) s.

(* loadFromTraining, lines 200-211: the network handed to train *)
Definition buildNetwork (trainSettings : TrainSettings) (nbDims sampleCount : nat)
  : Outcome Network.t :=
  size ← gridSize sampleCount (sampleCountPerNeuron trainSettings);
  let network := newNetwork size size nbDims in
  weights ← getInputVectorWeights getFeatureDef
              (featureSettingsMap trainSettings) nbDims;
  Done (Network.setDataWeights weights network).

(* loadFromTraining up to the call of load(network, trackPositions):
   [None] when the function returned before it. *)
Definition prepareModel (trainSettings : TrainSettings) (s : Sys)
  : Outcome (option (Network.t * gmap Z (list (Z * Z))) * Sys) :=
  let featureNames := featureNamesOf (featureSettingsMap trainSettings) in
  let nbDims := totalDimensions getFeatureDef featureNames in
  let trackIds := getAllIdsWithFeatures db in
  '(extracted, s) ← extractSamples featureNames nbDims trackIds [] [] s;
  match extracted with
  | None => Done (None, s)
  | Some (samples, samplesTrackIds) =>
      match samples with
      | [] => Done (None, s)           (* "Nothing to classify!" *)
      | _ :: _ =>
          let samples := map (normalizeData samples) samples in
          network ← buildNetwork trainSettings nbDims (length samples);
          let '(network, s) :=
            train (iterationCount trainSettings) 0 samples network s in
          let '(classified, s) :=
            classifyTracks network (zip samplesTrackIds samples) ∅ s in
          match classified with
          | None => Done (None, s)
          | Some trackPositions => Done (Some (network, trackPositions), s)
          end
      end
  end.

(* FeaturesEngine::loadFromTraining *)
Definition loadFromTraining (trainSettings : TrainSettings) (s : Sys)
  : Outcome Sys :=
  '(model, s) ← prepareModel trainSettings s;
  match model with
  | None => Done s
  | Some (network, trackPositions) => loadModel network trackPositions s
  end.

(* TrainSettings trainSettings;
   trainSettings.featureSettingsMap = getDefaultTrainFeatureSettings(); *)
Definition defaultTrainSettings : TrainSettings :=
  {| iterationCount := defaultIterationCount;
     sampleCountPerNeuron := defaultSampleCountPerNeuron;
     featureSettingsMap := getDefaultTrainFeatureSettings |}.

(* FeaturesEngine::load(bool forceReload, const ProgressCallback&), from
   the construction of the train settings on *)
Definition trainAndCache (s : Sys) : Outcome Sys :=
  s ← loadFromTraining defaultTrainSettings s;
  let '(cancelled, s) := readLoadCancelled s in
  if cancelled then Done s
  else cache ← toCache (engine s); Done (write cache s).

(* FeaturesEngine::load(bool forceReload, const ProgressCallback&) *)
Definition load (forceReload : bool) (s : Sys) : Outcome Sys :=
  if forceReload then trainAndCache (invalidate s)
  else
    match cacheFile s with
    | Some cache => loadFromCache cache s
    | None => trainAndCache s
    end.

End Loading.

(* The engines that the member functions produce from a freshly constructed
   one: they write the flag or run load(network, trackPositions) to its
   return *)
Inductive reachable : FeaturesEngine -> Prop :=
| reachable_new : reachable newEngine
| reachable_flag (v : bool) (e : FeaturesEngine) :
    reachable e -> reachable (set_loadCancelled v e)
| reachable_loadModel (db : Db) (cancelAt : option nat)
    (computeRefVectorsDistanceMedian : Network.t -> double)
    (network : Network.t) (trackPositions : gmap Z (list (Z * Z))) (s s' : Sys) :
    reachable (engine s) ->
    loadModel db cancelAt computeRefVectorsDistanceMedian network trackPositions s
      = Done s' ->
    reachable (engine s').

(* Every entity of a positions map has a non-empty list of distinct
   positions *)
Definition distinctPositions (m : gmap Z (list (Z * Z))) : Prop :=
  forall id ps, m !! id = Some ps -> ps <> [] /\ NoDup ps.

(** ** Similarity queries *)

Section Queries.

Variable db : Db.

(* getSimilarObjects is a member template defined in FeaturesEngine.hpp,
   outside FeaturesEngine.cpp: the queries take it as a parameter. *)
Variable getSimilarObjects :
  FeaturesEngine -> list Z -> Matrix.t -> gmap Z (list (Z * Z)) -> nat -> list Z.

(* Random::pickRandom(res): the position picked by the draw numbered
   [draw] in a container of the given size; the generator is a parameter. *)
Variable pickRandom : nat -> nat -> nat.

Definition getSimilarTracks (e : FeaturesEngine) (tracksIds : list Z)
    (maxCount : nat) : list Z :=
  let similarTrackIds :=
    getSimilarObjects e tracksIds (_trackMatrix e) (_trackPositions e) maxCount in
  (* erase(remove_if(..., !Track::exists)) *)
  filter (fun trackId => Track_exists db trackId = true) similarTrackIds.

Definition getSimilarTracksFromTrackList (e : FeaturesEngine)
    (trackListId : Z) (maxCount : nat) : list Z :=
  let trackIds :=
    match trackLists db !! trackListId with
    | Some ids => ids
    | None => []
    end in
  getSimilarTracks e trackIds maxCount.

Definition getSimilarReleases (e : FeaturesEngine) (releaseId : Z)
    (maxCount : nat) : list Z :=
  let similarReleaseIds :=
    getSimilarObjects e [releaseId] (_releaseMatrix e) (_releasePositions e) maxCount in
  match similarReleaseIds with
  | [] => similarReleaseIds
  | _ :: _ =>
      filter (fun releaseId => Release_exists db releaseId = true) similarReleaseIds
  end.

(* while (res.size() > maxCount) res.erase(Random::pickRandom(res)); the
   loop removes one element per turn, so [length res] turns are enough. *)
Fixpoint evictRandom (fuel draw maxCount : nat) (res : list Z) : list Z :=
  match fuel with
  | 0 => res
  | S fuel' =>
      if decide (maxCount < length res)
      then evictRandom fuel' (S draw) maxCount
             (delete (pickRandom draw (length res) mod length res) res)
      else res
  end.

(* The lambda getSimilarArtistIdsForLinkType *)
Definition getSimilarArtistIdsForLinkType (e : FeaturesEngine) (artistId : Z)
    (maxCount : nat) (linkType : nat) : list Z :=
  match _artistMatrix e !! linkType with
  | None => []
  | Some matrix => getSimilarObjects e [artistId] matrix (_artistPositions e) maxCount
  end.

(* The unordered_set filled by the loop over the link types *)
Definition similarArtistIdsUnion (e : FeaturesEngine) (artistId : Z)
    (linkTypes : list nat) (maxCount : nat) : gset Z :=
  foldl (fun similarArtistIds linkType =>
           similarArtistIds ∪
           list_to_set (getSimilarArtistIdsForLinkType e artistId maxCount linkType))
    ∅ linkTypes.

Definition getSimilarArtists (e : FeaturesEngine) (artistId : Z)
    (linkTypes : list nat) (maxCount : nat) (draw : nat) : list Z :=
  let res := elements (similarArtistIdsUnion e artistId linkTypes maxCount) in
  let res := filter (fun artistId => Artist_exists db artistId = true) res in
  evictRandom (length res) draw maxCount res.

End Queries.

(* The ids that a matrix lists at a position; none at a position outside it *)
Definition cellOf (matrix : Matrix.t) (position : Z * Z) : list Z :=
  match Matrix.get matrix position with
  | Done ids => ids
  | Failed _ => []
  end.

(** Modelled from the spec: getSimilarObjects is a member template defined
    in FeaturesEngine.hpp, outside FeaturesEngine.cpp. The spec has it
    resolve the grid positions of the query entities, collect the entities
    of the inverse matrix cells at these positions, leave out the query
    entities themselves, and cap the result at maxCount. *)
Definition getSimilarObjectsFromSpec (e : FeaturesEngine) (ids : list Z)
    (objectsMatrix : Matrix.t) (objectPositions : gmap Z (list (Z * Z)))
    (maxCount : nat) : list Z :=
  let searchedPositions :=
    remove_dups (concat (map (fun id => default [] (objectPositions !! id)) ids)) in
  let candidates :=
    remove_dups (concat (map (cellOf objectsMatrix) searchedPositions)) in
  take maxCount (filter (fun id => id ∉ ids) candidates).

(** Modelled from the spec: Random::pickRandom is declared outside
    FeaturesEngine.cpp; the spec has the eviction pick uniformly. [evictions]
    lists the result of the eviction loop for every sequence of draws, one
    entry per sequence: at each turn the draw is one of the positions of the
    container, each as likely as the others, so that the sequences of draws
    are equally likely. *)
Fixpoint evictions (fuel maxCount : nat) (res : list Z) : list (list Z) :=
  match fuel with
  | 0 => [res]
  | S fuel' =>
      if decide (maxCount < length res)
      then concat (map (fun i => evictions fuel' maxCount (delete i res))
                     (seq 0 (length res)))
      else [res]
  end.

(** ** Concrete catalogs and models *)

Module Scenario.

Definition featureDef (_ : string) : FeatureDef := {| nbDimensions := 1 |}.

Definition network : Network.t :=
  {| Network.width := 2; Network.height := 2; Network.dimensions := 5;
     Network.refVectors := ∅; Network.dataWeights := replicate 5 Double.one |}.

Definition median (_ : Network.t) : double := Double.zero.
Definition initialRefVectors (_ _ : Z) (_ : nat) : gmap (Z * Z) (list double) := ∅.
Definition trainIteration (_ : nat) (n : Network.t) (_ : list (list double))
  : gmap (Z * Z) (list double) := Network.refVectors n.
Definition closest (_ : Network.t) (_ : list double) : Z * Z := (0%Z, 0%Z).
Definition normalize (_ : list (list double)) (v : list double) : list double := v.
Definition firstOf (_ _ : nat) : nat := 0.

Definition noFeatures (_ : gset string) : gmap string (list double) := ∅.

(* One track on release 10, credited to artist 100; no track has analysis
   features *)
Definition catalog : Db :=
  {| tracks :=
       {[ 1%Z := {| getRelease := Some 10%Z;
                    getArtistLinks := [ {| getArtist := 100%Z; getType := 0 |} ];
                    getFeatureValuesMap := noFeatures |} ]};
     releases := {[ 10%Z ]};
     artists := {[ 100%Z ]};
     getAllIdsWithFeatures := [];
     trackLists := ∅ |}.

Definition modelA : FeaturesEngineCache :=
  {| _cacheNetwork := network; _cacheTrackPositions := {[ 1%Z := [(0%Z, 0%Z)] ]} |}.
Definition modelB : FeaturesEngineCache :=
  {| _cacheNetwork := network; _cacheTrackPositions := {[ 1%Z := [(1%Z, 1%Z)] ]} |}.
(* A model that places track 7, which the catalog no longer holds *)
Definition modelWithRemovedTrack : FeaturesEngineCache :=
  {| _cacheNetwork := network; _cacheTrackPositions := {[ 7%Z := [(0%Z, 0%Z)] ]} |}.

(* A model of a wider grid, and the model that toCache() captures from an
   engine that adopted it and then model B, of the narrower grid: track 1
   keeps its position in the wider grid *)
Definition wideNetwork : Network.t :=
  {| Network.width := 4; Network.height := 4; Network.dimensions := 5;
     Network.refVectors := ∅; Network.dataWeights := replicate 5 Double.one |}.
Definition modelWide : FeaturesEngineCache :=
  {| _cacheNetwork := wideNetwork;
     _cacheTrackPositions := {[ 1%Z := [(3%Z, 3%Z)] ]} |}.
Definition modelOutsideGrid : FeaturesEngineCache :=
  {| _cacheNetwork := network;
     _cacheTrackPositions := {[ 1%Z := [(3%Z, 3%Z); (1%Z, 1%Z)] ]} |}.

Definition fresh : Sys :=
  {| engine := newEngine; cacheFile := None; cacheWrites := []; clock := 0 |}.

(* The catalog at the time track 7 existed *)
Definition earlierCatalog : Db :=
  {| tracks :=
       {[ 7%Z := {| getRelease := None; getArtistLinks := [];
                    getFeatureValuesMap := noFeatures |} ]};
     releases := ∅; artists := ∅; getAllIdsWithFeatures := []; trackLists := ∅ |}.

(* The engine after adopting model A *)
Definition loadedA : Sys :=
  stateOr fresh (loadFromCache catalog None median modelA fresh).

(* The engine after adopting the wide model and then model B *)
Definition loadedWideThenB : Sys :=
  stateOr fresh
    (loadFromCache catalog None median modelB
       (stateOr fresh (loadFromCache catalog None median modelWide fresh))).

(* The same engine once requestCancelLoad() has been called, with model B
   in the cache file *)
Definition cancelledWithCacheB : Sys :=
  {| engine := requestCancelLoad (engine loadedA);
     cacheFile := Some modelB; cacheWrites := []; clock := 0 |}.

Definition run (cancelAt : option nat) : bool -> Sys -> Outcome Sys :=
  load featureDef catalog cancelAt None initialRefVectors trainIteration closest
    median normalize 10 (Float.ofZ 4).

(* The same catalog once track 1 has been analysed: each requested feature
   has one value *)
Definition oneValuePerFeature (featureNames : gset string) : gmap string (list double) :=
  gset_to_gmap [Double.zero] featureNames.

Definition analysedCatalog : Db :=
  {| tracks :=
       {[ 1%Z := {| getRelease := Some 10%Z;
                    getArtistLinks := [ {| getArtist := 100%Z; getType := 0 |} ];
                    getFeatureValuesMap := oneValuePerFeature |} ]};
     releases := {[ 10%Z ]};
     artists := {[ 100%Z ]};
     getAllIdsWithFeatures := [1%Z];
     trackLists := ∅ |}.

(* A trained map whose nearest neuron is at (1,1) for every sample *)
Definition closestIsCorner (_ : Network.t) (_ : list double) : Z * Z := (1%Z, 1%Z).

Definition freshWithCacheA : Sys :=
  {| engine := newEngine; cacheFile := Some modelA; cacheWrites := []; clock := 0 |}.

Definition runAnalysed (cancelAt : option nat) : bool -> Sys -> Outcome Sys :=
  load featureDef analysedCatalog cancelAt None initialRefVectors trainIteration
    closestIsCorner median normalize 10 (Float.ofZ 4).

Definition prepareUnanalysed : Sys ->
    Outcome (option (Network.t * gmap Z (list (Z * Z))) * Sys) :=
  prepareModel featureDef catalog None None initialRefVectors trainIteration
    closest normalize (defaultTrainSettings 10 (Float.ofZ 4)).

Definition prepareAnalysed (cancelAt : option nat) : Sys ->
    Outcome (option (Network.t * gmap Z (list (Z * Z))) * Sys) :=
  prepareModel featureDef analysedCatalog cancelAt None initialRefVectors trainIteration
    closestIsCorner normalize (defaultTrainSettings 10 (Float.ofZ 4)).

Definition credit (artistId : Z) (linkType : nat) : TrackArtistLink :=
  {| getArtist := artistId; getType := linkType |}.

Definition creditedTrack (links : list TrackArtistLink) : Track :=
  {| getRelease := None; getArtistLinks := links; getFeatureValuesMap := noFeatures |}.

(* Artist 100 is credited on track 1 under two link types; tracks 2 and 3
   carry two other artists each, one link type per track *)
Definition creditsCatalog (existingArtists : gset Z) : Db :=
  {| tracks :=
       {[ 1%Z := creditedTrack [credit 100 0; credit 100 1];
          2%Z := creditedTrack [credit 201 0; credit 202 0];
          3%Z := creditedTrack [credit 203 1; credit 204 1] ]};
     releases := ∅;
     artists := existingArtists;
     getAllIdsWithFeatures := [];
     trackLists := ∅ |}.

Definition creditsModel : FeaturesEngineCache :=
  {| _cacheNetwork := network;
     _cacheTrackPositions :=
       {[ 1%Z := [(0%Z, 0%Z)]; 2%Z := [(0%Z, 0%Z)]; 3%Z := [(0%Z, 0%Z)] ]} |}.

(* The index built while all five artists exist *)
Definition creditsEngine : FeaturesEngine :=
  engine (stateOr fresh
            (loadFromCache
               (creditsCatalog {[ 100%Z; 201%Z; 202%Z; 203%Z; 204%Z ]})
               None median creditsModel fresh)).

Definition tinyFeatureDef (_ : string) : FeatureDef := {| nbDimensions := 2 |}.
Definition tinySettings : gmap string FeatureSettings :=
  {[ "a"%string := {| weight := Double.ofZ 3 |} ]}.

(* A fetched value map with no value for a feature of dimension 1 *)
Definition shortValues : gmap string (list double) := {[ "a"%string := [] ]}.
Definition shortFetch : option (Z -> gset string -> option (gmap string (list double))) :=
  Some (fun _ _ => Some shortValues).

Definition fourPerNeuron : TrainSettings :=
  {| iterationCount := 10; sampleCountPerNeuron := Float.ofZ 4;
     featureSettingsMap := getDefaultTrainFeatureSettings |}.

End Scenario.

(** ** Definitions for the further properties *)

(* The input vector of a track, when its features are fetched and pass
   the dimension check *)
Definition sampleOf (getFeatureDef : string -> FeatureDef) (db : Db)
    (fetch : option (Z -> gset string -> option (gmap string (list double))))
    (featureNames : gset string) (nbDims : nat) (trackId : Z) : option (list double) :=
  match fetchFeatureValues db fetch trackId featureNames with
  | None => None
  | Some featureValuesMap =>
      match convertFeatureValuesMapToInputVector getFeatureDef featureValuesMap nbDims with
      | Done (Some v) => Some v
      | _ => None
      end
  end.

(* The positions of the samples of one track, in the order of the samples *)
Definition positionsOfTrack (closest : list double -> Z * Z) (samples : list (Z * list double))
    (trackId : Z) : list (Z * Z) :=
  map (fun sample => closest sample.2) (filter (fun sample => sample.1 = trackId) samples).

(* [position] is one of the positions listed for [id] *)
Definition placedAt (positions : gmap Z (list (Z * Z))) (id : Z) (position : Z * Z)
  : Prop :=
  position ∈ default [] (positions !! id).

(* [id] is listed in the cell of [matrix] at [position], a position of
   the matrix *)
Definition inCell (matrix : Matrix.t) (position : Z * Z) (id : Z) : Prop :=
  exists ids, Matrix.get matrix position = Done ids /\ id ∈ ids.

(* [id] is listed at [position] in the artist matrix of the link type *)
Definition inArtistCell (matrices : gmap nat Matrix.t) (linkType : nat)
    (position : Z * Z) (id : Z) : Prop :=
  exists matrix, matrices !! linkType = Some matrix /\ inCell matrix position id.

(* The index of [e'] lists what the index of [e] lists and, in addition,
   what the placements [placed trackId track position] bring: the track,
   its release and the artists of its links, the latter in the matrix of
   the link's type. *)
Definition indexedBy (placed : Z -> Track -> Z * Z -> Prop) (e e' : FeaturesEngine)
  : Prop :=
  (forall id p,
     placedAt (_trackPositions e') id p
     <-> placedAt (_trackPositions e) id p \/ exists track, placed id track p)
  /\ (forall id p,
        inCell (_trackMatrix e') p id
        <-> inCell (_trackMatrix e) p id \/ exists track, placed id track p)
  /\ (forall r p,
        placedAt (_releasePositions e') r p
        <-> placedAt (_releasePositions e) r p
            \/ exists id track, placed id track p /\ getRelease track = Some r)
  /\ (forall r p,
        inCell (_releaseMatrix e') p r
        <-> inCell (_releaseMatrix e) p r
            \/ exists id track, placed id track p /\ getRelease track = Some r)
  /\ (forall a p,
        placedAt (_artistPositions e') a p
        <-> placedAt (_artistPositions e) a p
            \/ exists id track link,
                 placed id track p /\ link ∈ getArtistLinks track /\ getArtist link = a)
  /\ (forall t a p,
        inArtistCell (_artistMatrix e') t p a
        <-> inArtistCell (_artistMatrix e) t p a
            \/ exists id track link,
                 placed id track p /\ link ∈ getArtistLinks track
                 /\ getArtist link = a /\ getType link = t).

(* The placements that a list of entries of a model brings: the tracks
   that Track::getById finds, at each of their positions *)
Definition placedByEntries (db : Db) (entries : list (Z * list (Z * Z)))
  : Z -> Track -> Z * Z -> Prop :=
  fun trackId track position =>
    tracks db !! trackId = Some track
    /\ exists positions, (trackId, positions) ∈ entries /\ position ∈ positions.

(* The engine as load(network, trackPositions) has it when it enters its
   loop: the median overwritten, the track and release matrices re-created *)
Definition resetForLoad (median : double) (w h : Z) (e : FeaturesEngine) : FeaturesEngine :=
  set_trackMatrix (Matrix.new w h)
    (set_releaseMatrix (Matrix.new w h)
       (set_networkRefVectorsDistanceMedian median e)).

(* The placements that a whole model brings *)
Definition placedByModel (db : Db) (trackPositions : gmap Z (list (Z * Z)))
  : Z -> Track -> Z * Z -> Prop :=
  fun trackId track position =>
    tracks db !! trackId = Some track
    /\ exists positions, trackPositions !! trackId = Some positions /\ position ∈ positions.

(* What a matrix lists, the positions map lists too *)
Definition consistentIndex (e : FeaturesEngine) : Prop :=
  (forall id p, inCell (_trackMatrix e) p id -> placedAt (_trackPositions e) id p)
  /\ (forall r p, inCell (_releaseMatrix e) p r -> placedAt (_releasePositions e) r p)
  /\ (forall t a p,
        inArtistCell (_artistMatrix e) t p a -> placedAt (_artistPositions e) a p).

Definition distinctCells (matrix : Matrix.t) : Prop :=
  forall position ids, Matrix.get matrix position = Done ids -> NoDup ids.

(* No list of the index holds an element twice *)
Definition distinctIndex (e : FeaturesEngine) : Prop :=
  distinctPositions (_trackPositions e)
  /\ distinctPositions (_releasePositions e)
  /\ distinctPositions (_artistPositions e)
  /\ distinctCells (_trackMatrix e)
  /\ distinctCells (_releaseMatrix e)
  /\ (forall t matrix, _artistMatrix e !! t = Some matrix -> distinctCells matrix).

Definition sameSize (matrix matrix' : Matrix.t) : Prop :=
  Matrix.width matrix' = Matrix.width matrix
  /\ Matrix.height matrix' = Matrix.height matrix.

Definition hasSize (w h : Z) (matrix : Matrix.t) : Prop :=
  Matrix.width matrix = w /\ Matrix.height matrix = h.

(* The matrices of [e'] have the sizes of those of [e]; an artist matrix
   that [e] does not have is [w] wide and [h] high *)
Definition sizesKept (w h : Z) (e e' : FeaturesEngine) : Prop :=
  sameSize (_trackMatrix e) (_trackMatrix e')
  /\ sameSize (_releaseMatrix e) (_releaseMatrix e')
  /\ (forall t matrix',
        _artistMatrix e' !! t = Some matrix' ->
        match _artistMatrix e !! t with
        | Some matrix => sameSize matrix matrix'
        | None => hasSize w h matrix'
        end)
  /\ (forall t, is_Some (_artistMatrix e !! t) -> is_Some (_artistMatrix e' !! t)).

(* What a turn of the loop over the artist links leaves alone *)
Definition artistsOnly (e e' : FeaturesEngine) : Prop :=
  sameControl e e'
  /\ _trackPositions e' = _trackPositions e
  /\ _releasePositions e' = _releasePositions e
  /\ _trackMatrix e' = _trackMatrix e
  /\ _releaseMatrix e' = _releaseMatrix e.

(* [matrix] has every position of a grid [w] wide and [h] high *)
Definition covers (w h : Z) (matrix : Matrix.t) : Prop :=
  (w <= Matrix.width matrix)%Z /\ (h <= Matrix.height matrix)%Z.

(* Every matrix of the engine has every position of the grid *)
Definition holdsGrid (w h : Z) (e : FeaturesEngine) : Prop :=
  covers w h (_trackMatrix e)
  /\ covers w h (_releaseMatrix e)
  /\ (forall t matrix, _artistMatrix e !! t = Some matrix -> covers w h matrix).

(* Every position of the model lies in the grid *)
Definition positionsInGrid (w h : Z) (trackPositions : gmap Z (list (Z * Z))) : Prop :=
  forall trackId positions position,
    trackPositions !! trackId = Some positions -> position ∈ positions ->
    Matrix.inGrid w h position.

(** ** Concrete inputs for the further properties *)

Module Cases.

(* The features that load() trains on *)
Definition defaultNames : gset string := featureNamesOf getDefaultTrainFeatureSettings.

(* A feature table in which every feature has five dimensions *)
Definition fiveDimensions (_ : string) : FeatureDef := {| nbDimensions := 5 |}.

(* One feature with its one declared value *)
Definition oneValue : gmap string (list double) := {[ "a"%string := [Double.zero] ]}.

(* The single-precision value nearest to one tenth, and the smallest
   positive single-precision value, 2^-149 *)
Definition tenth : float := Float.div (Float.ofZ 1) (Float.ofZ 10).
Definition tiny : float := S754_finite false 1 (-149).

(* A fetch function that finds no value for the feature of track 5 and
   one value for the feature of every other track *)
Definition mixedFetch
  : option (Z -> gset string -> option (gmap string (list double))) :=
  Some (fun trackId _ =>
          if decide (trackId = 5%Z) then Some Scenario.shortValues else Some oneValue).

(* A feature table in which "b" has one dimension and every other feature
   has two *)
Definition unevenFeatureDef (featureName : string) : FeatureDef :=
  {| nbDimensions := if decide (featureName = "b"%string) then 1 else 2 |}.

(* A fetched value map that holds, besides no value for "b", the two
   values of "a", a feature that was not requested *)
Definition unrequestedValues : gmap string (list double) :=
  {[ "a"%string := [Double.zero; Double.zero]; "b"%string := [] ]}.
Definition unrequestedFetch
  : option (Z -> gset string -> option (gmap string (list double))) :=
  Some (fun _ _ => Some unrequestedValues).

(* A sample of the five default features, and the track it belongs to *)
Definition sample : list double := replicate 5 Double.zero.
Definition samples : list (Z * list double) := [(1%Z, sample)].

(* The engine after a fresh one has adopted model A, when requestCancelLoad()
   has been called *)
Definition cancelled : Sys :=
  {| engine := requestCancelLoad (engine Scenario.loadedA);
     cacheFile := None; cacheWrites := []; clock := 0 |}.

End Cases.

(** * Proofs *)

(** ** Writing a block into a vector *)

Lemma store_in_range (v : list double) i x :
  i < length v -> SOM.store v i x = Done (<[i := x]> v).
Proof. intros H. unfold SOM.store. by rewrite decide_True. Qed.

Lemma splice_length {A} (w mid : list A) i n :
  length mid = n -> i + n <= length w ->
  length (take i w ++ mid ++ drop (i + n) w) = length w.
Proof. intros <- H. rewrite !length_app, length_take, length_drop. lia. Qed.

Lemma splice_take {A} (w mid : list A) i n :
  length mid = n -> i + n <= length w ->
  take (i + n) (take i w ++ mid ++ drop (i + n) w) = take i w ++ mid.
Proof.
  intros <- H. rewrite app_assoc. apply take_app_length'.
  rewrite length_app, length_take. lia.
Qed.

Lemma splice_drop {A} (w mid : list A) i n k :
  length mid = n -> i + n <= length w ->
  drop (i + n + k) (take i w ++ mid ++ drop (i + n) w) = drop (i + n + k) w.
Proof.
  intros <- H. rewrite app_assoc.
  rewrite drop_app_ge by (rewrite length_app, length_take; lia).
  rewrite length_app, length_take, drop_drop. f_equal. lia.
Qed.

Lemma foldl_sum {A} (f : A -> nat) (l : list A) (a : nat) :
  foldl (fun sum x => sum + f x) a l = a + sum_list_with f l.
Proof.
  revert a. induction l as [|x l IH]; intros a; simpl; [lia|].
  rewrite IH. lia.
Qed.

Lemma sum_list_with_submseteq {A} (f : A -> nat) (l k : list A) :
  l ⊆+ k -> sum_list_with f l <= sum_list_with f k.
Proof. induction 1; simpl; lia. Qed.

Lemma sumOf_replicate n (v : double) :
  (sumOf (replicate n v) == inject_Z (Z.of_nat n) * valueOf v)%Q.
Proof.
  induction n as [|n IH].
  - simpl. ring.
  - change (sumOf (replicate (S n) v)) with (valueOf v + sumOf (replicate n v))%Q.
    rewrite IH, Nat2Z.inj_succ. unfold Z.succ. rewrite inject_Z_plus. ring.
Qed.

(** ** The weights vector *)

Section WeightsFacts.

Variable getFeatureDef : string -> FeatureDef.

Lemma fillWeights_ok count : forall value (weights : list double) index,
  index + count <= length weights ->
  fillWeights count value weights index =
    Done (take index weights ++ replicate count value ++ drop (index + count) weights,
          index + count).
Proof.
  induction count as [|count IH]; intros value weights index Hlen; simpl.
  - rewrite Nat.add_0_r, take_drop. done.
  - rewrite store_in_range by lia. simpl.
    rewrite IH by (rewrite length_insert; lia).
    f_equal. f_equal; [|lia].
    rewrite take_insert_lt by lia.
    rewrite drop_insert_lt by lia.
    replace (S index + count) with (index + S count) by lia.
    assert (Hx : is_Some (weights !! index)) by (apply lookup_lt_is_Some; lia).
    destruct Hx as [x Hx].
    rewrite (take_S_r _ _ x Hx).
    rewrite insert_app_r_alt by (rewrite length_take; lia).
    rewrite length_take. replace (index - index `min` length weights) with 0 by lia.
    simpl. by rewrite <- app_assoc.
Qed.

Lemma weightsLoop_ok entries : forall (weights : list double) index,
  index + sum_list_with (fun entry => dimsOf getFeatureDef entry.1) entries
    <= length weights ->
  weightsLoop getFeatureDef entries weights index =
    Done (take index weights ++ concat (map (weightBlock getFeatureDef) entries) ++
            drop (index + sum_list_with (fun entry => dimsOf getFeatureDef entry.1) entries)
              weights,
          index + sum_list_with (fun entry => dimsOf getFeatureDef entry.1) entries).
Proof.
  induction entries as [|[featureName featureSettings] rest IH];
    intros weights index Hlen; simpl in *.
  - by rewrite Nat.add_0_r, take_drop.
  - fold (dimsOf getFeatureDef featureName).
    set (n := dimsOf getFeatureDef featureName) in *.
    set (v := weightOfDimension n (weight featureSettings)).
    rewrite fillWeights_ok by lia. simpl.
    assert (Hn : length (replicate n v) = n) by apply length_replicate.
    rewrite IH.
    + f_equal. f_equal; [|lia].
      unfold weightBlock; simpl. fold n. fold v.
      rewrite Nat.add_assoc.
      rewrite splice_take, splice_drop by (done || lia).
      by rewrite <- !app_assoc.
    + rewrite splice_length by (done || lia). lia.
Qed.

Lemma totalDimensions_featureNamesOf (m : gmap string FeatureSettings) :
  totalDimensions getFeatureDef (featureNamesOf m)
  = sum_list_with (fun entry => dimsOf getFeatureDef entry.1) (map_to_list m).
Proof.
  unfold totalDimensions, featureNamesOf. rewrite foldl_sum. simpl.
  rewrite elements_list_to_set by apply NoDup_fst_map_to_list.
  induction (map_to_list m) as [|[k x] l IH]; simpl; [done|].
  by rewrite IH.
Qed.

Lemma getInputVectorWeights_blocks (m : gmap string FeatureSettings) :
  getInputVectorWeights getFeatureDef m (totalDimensions getFeatureDef (featureNamesOf m))
  = Done (concat (map (weightBlock getFeatureDef) (map_to_list m))).
Proof.
  unfold getInputVectorWeights, SOM.newInputVector.
  rewrite totalDimensions_featureNamesOf.
  rewrite weightsLoop_ok by (rewrite length_replicate; lia).
  simpl. rewrite decide_True by done.
  rewrite drop_ge by (rewrite length_replicate; lia).
  by rewrite app_nil_r.
Qed.

Lemma length_weightBlock entry :
  length (weightBlock getFeatureDef entry) = dimsOf getFeatureDef entry.1.
Proof. apply length_replicate. Qed.

Lemma length_concat_weightBlocks entries :
  length (concat (map (weightBlock getFeatureDef) entries))
  = sum_list_with (fun entry => dimsOf getFeatureDef entry.1) entries.
Proof.
  induction entries as [|entry rest IH]; simpl; [done|].
  by rewrite length_app, length_weightBlock, IH.
Qed.

Lemma slice_concat_weightBlocks before entry after :
  take (dimsOf getFeatureDef entry.1)
    (drop (sum_list_with (fun e => dimsOf getFeatureDef e.1) before)
       (concat (map (weightBlock getFeatureDef) (before ++ entry :: after))))
  = weightBlock getFeatureDef entry.
Proof.
  rewrite map_app, concat_app. simpl.
  rewrite drop_app_length' by (by rewrite length_concat_weightBlocks).
  apply take_app_length'. by rewrite length_weightBlock.
Qed.

End WeightsFacts.

(** C10. The assertion of getInputVectorWeights always holds: when
    nbDimensions is the sum of the declared dimensions over the set of the
    feature names of the settings map, as loadFromTraining computes it, the
    loop writes exactly nbDimensions weights, every write is in range, the
    final index equals nbDimensions and the function returns the vector. *)
Theorem getInputVectorWeights_assertion_holds
    (getFeatureDef : string -> FeatureDef) (m : gmap string FeatureSettings) :
  let nbDims := totalDimensions getFeatureDef (featureNamesOf m) in
  exists weights index,
    weightsLoop getFeatureDef (map_to_list m) (SOM.newInputVector nbDims) 0
      = Done (weights, index)
    /\ index = nbDims
    /\ length weights = nbDims
    /\ getInputVectorWeights getFeatureDef m nbDims = Done weights.
Proof.
  intros nbDims.
  exists (concat (map (weightBlock getFeatureDef) (map_to_list m))), nbDims.
  assert (Hsum : nbDims
                 = sum_list_with (fun e => dimsOf getFeatureDef e.1) (map_to_list m))
    by apply totalDimensions_featureNamesOf.
  split; [|split; [done|split]].
  - unfold SOM.newInputVector.
    rewrite weightsLoop_ok by (rewrite length_replicate; lia).
    simpl. rewrite <- Hsum.
    rewrite drop_ge by (rewrite length_replicate; lia).
    by rewrite app_nil_r.
  - by rewrite length_concat_weightBlocks.
  - apply getInputVectorWeights_blocks.
Qed.

(* With the default weight 1, the product n * fl(fl(1/n) * 1) is within
   2^-53 of 1 for every dimension count up to 1024, and it is 1 when the
   dimension count is a power of two *)
Lemma default_weight_rounding n :
  0 < n <= 1024 ->
  (Qabs (inject_Z (Z.of_nat n) * valueOf (weightOfDimension n Double.one) - 1)
   <= 1 # 9007199254740992)%Q
  /\ (forall k, n = 2 ^ k ->
      (inject_Z (Z.of_nat n) * valueOf (weightOfDimension n Double.one) == 1)%Q).
Proof.
  intros Hn.
  assert (Hall :
    forallb (fun n =>
               let product :=
                 (inject_Z (Z.of_nat n) * valueOf (weightOfDimension n Double.one))%Q in
               Qle_bool (Qabs (product - 1)) (1 # 9007199254740992)
               && (if decide (n = 2 ^ Nat.log2 n) then Qeq_bool product 1 else true))
      (seq 1 1024) = true) by (vm_compute; reflexivity).
  rewrite forallb_forall in Hall.
  specialize (Hall n ltac:(apply in_seq; lia)). cbv zeta in Hall.
  apply andb_prop in Hall as [Hle Heq]. split.
  - by apply Qle_bool_iff.
  - intros k ->. rewrite Nat.log2_pow2 in Heq by lia.
    rewrite decide_True in Heq by done. by apply Qeq_bool_iff.
Qed.

(** C8 (amended). For every feature settings map, the weights vector
    handed to setDataWeights gives every dimension of a feature f of the map
    the same value, the double (1.0 / nbDimensions(f)) * f.weight, each
    operation rounded: the slice of the vector that belongs to f (it starts
    where the features visited before f end) is nbDimensions(f) copies of
    it, so that the entries of the slice sum, as real numbers, to
    nbDimensions(f) times that double. With the default weight 1 and up to
    1024 dimensions the sum is
    within 2^-53 of the weight, and it is the weight when nbDimensions(f) is
    a power of two. *)
Theorem getInputVectorWeights_per_feature
    (getFeatureDef : string -> FeatureDef) (m : gmap string FeatureSettings)
    (featureName : string) (featureSettings : FeatureSettings) :
  m !! featureName = Some featureSettings ->
  let nbDims := totalDimensions getFeatureDef (featureNamesOf m) in
  let n := nbDimensions (getFeatureDef featureName) in
  let value := weightOfDimension n (weight featureSettings) in
  exists weights,
    getInputVectorWeights getFeatureDef m nbDims = Done weights
    /\ (forall initialRefVectors trainSettings sampleCount network,
          featureSettingsMap trainSettings = m ->
          buildNetwork getFeatureDef initialRefVectors trainSettings nbDims sampleCount
            = Done network ->
          Network.dataWeights network = weights)
    /\ exists before after,
         map_to_list m = before ++ (featureName, featureSettings) :: after
         /\ let offset :=
              sum_list_with (fun e => nbDimensions (getFeatureDef e.1)) before in
            let slice := take n (drop offset weights) in
            slice = replicate n value
            /\ (sumOf slice == inject_Z (Z.of_nat n) * valueOf value)%Q
            /\ (weight featureSettings = Double.one -> 0 < n <= 1024 ->
                (Qabs (sumOf slice - 1) <= 1 # 9007199254740992)%Q
                /\ (forall k, n = 2 ^ k -> (sumOf slice == 1)%Q)).
Proof.
  intros Hm nbDims n value. eexists.
  split; [apply getInputVectorWeights_blocks|]. split.
  - intros initialRefVectors trainSettings sampleCount network Hsettings.
    unfold buildNetwork, nbDims. rewrite Hsettings, getInputVectorWeights_blocks.
    destruct (gridSize sampleCount (sampleCountPerNeuron trainSettings)) as [size|f];
      simpl; [|done].
    by intros [= <-].
  - apply elem_of_map_to_list, list_elem_of_split in Hm as (before & after & Hsplit).
    exists before, after. split; [done|]. cbv zeta. rewrite Hsplit.
    pose proof (slice_concat_weightBlocks getFeatureDef before
                  (featureName, featureSettings) after) as Hslice.
    unfold dimsOf in Hslice. simpl in Hslice. fold n in Hslice. rewrite Hslice.
    assert (Hsum : (sumOf (weightBlock getFeatureDef (featureName, featureSettings))
                    == inject_Z (Z.of_nat n) * valueOf value)%Q)
      by apply sumOf_replicate.
    split; [done|]. split; [done|].
    intros Hone Hn. destruct (default_weight_rounding n Hn) as [Hle Hexact].
    unfold value in Hsum. rewrite Hone in Hsum. split.
    + rewrite (Qabs_wd _ _ (Qplus_comp _ _ Hsum _ _ (Qeq_refl (- (1))))).
      exact Hle.
    + intros k Hk. rewrite Hsum. exact (Hexact k Hk).
Qed.

Lemma getInputVectorWeights_per_feature_witness :
  let featureName := "lowlevel.gfcc.mean"%string in
  getDefaultTrainFeatureSettings !! featureName = Some {| weight := Double.one |}
  /\ exists weights,
       getInputVectorWeights Scenario.tinyFeatureDef getDefaultTrainFeatureSettings
         (totalDimensions Scenario.tinyFeatureDef
            (featureNamesOf getDefaultTrainFeatureSettings))
       = Done weights
       /\ exists before after,
            map_to_list getDefaultTrainFeatureSettings
              = before ++ (featureName, {| weight := Double.one |}) :: after
            /\ let slice :=
                 take 2 (drop (sum_list_with
                                 (fun e => nbDimensions (Scenario.tinyFeatureDef e.1))
                                 before) weights) in
               slice = replicate 2 (weightOfDimension 2 Double.one)
               /\ (sumOf slice == 1)%Q.
Proof.
  intros featureName.
  assert (Hm : getDefaultTrainFeatureSettings !! featureName
               = Some {| weight := Double.one |}) by (vm_compute; reflexivity).
  split; [exact Hm|].
  destruct (getInputVectorWeights_per_feature Scenario.tinyFeatureDef
              getDefaultTrainFeatureSettings featureName {| weight := Double.one |} Hm)
    as (weights & Hweights & _ & before & after & Hsplit & Hslice & _ & Hdefault).
  exists weights. split; [exact Hweights|].
  exists before, after. split; [exact Hsplit|]. split; [exact Hslice|].
  destruct (Hdefault eq_refl) as [_ Hexact]; [simpl; lia|].
  apply (Hexact 1). reflexivity.
Defined.

(* The claim as stated fails: a feature of 5 dimensions and of weight 3
   gets the double 0.6000000000000001 in each of its dimensions; this is
   neither the double 3.0 / 5 nor the real number 3/5, and the five entries
   sum to more than 3. *)
Lemma weights_are_rounded :
  let value := weightOfDimension 5 (Double.ofZ 3) in
  getInputVectorWeights Cases.fiveDimensions Scenario.tinySettings
    (totalDimensions Cases.fiveDimensions (featureNamesOf Scenario.tinySettings))
  = Done (replicate 5 value)
  /\ value = S754_finite false 5404319552844596 (-53)
  /\ Double.div (Double.ofZ 3) (Double.ofNat 5)
     = S754_finite false 5404319552844595 (-53)
  /\ ~ (valueOf value == 3 # 5)%Q
  /\ ~ (sumOf (replicate 5 value) == valueOf (Double.ofZ 3))%Q
  /\ (valueOf (Double.ofZ 3) == 3)%Q.
Proof.
  split; [vm_compute; reflexivity|]. split; [vm_compute; reflexivity|].
  split; [vm_compute; reflexivity|].
  split; [|split].
  - intros H. apply Qeq_bool_iff in H. vm_compute in H. discriminate.
  - intros H. apply Qeq_bool_iff in H. vm_compute in H. discriminate.
  - apply Qeq_bool_iff. vm_compute. reflexivity.
Qed.

(** ** Vector construction *)

Section ConvertFacts.

Variable getFeatureDef : string -> FeatureDef.

Lemma writeValues_ok values : forall (res : list double) i,
  i + length values <= length res ->
  writeValues values res i =
    Done (take i res ++ values ++ drop (i + length values) res, i + length values).
Proof.
  induction values as [|val rest IH]; intros res i Hlen; simpl in *.
  - by rewrite Nat.add_0_r, take_drop.
  - rewrite store_in_range by lia. simpl.
    rewrite IH by (rewrite length_insert; lia).
    f_equal. f_equal; [|lia].
    rewrite take_insert_lt, drop_insert_lt by lia.
    replace (S i + length rest) with (i + S (length rest)) by lia.
    destruct (lookup_lt_is_Some_2 res i) as [x Hx]; [lia|].
    rewrite (take_S_r _ _ x Hx).
    rewrite insert_app_r_alt by (rewrite length_take; lia).
    rewrite length_take. replace (i - i `min` length res) with 0 by lia.
    simpl. by rewrite <- app_assoc.
Qed.

Lemma convertLoop_never_some entries : forall (res : list double) i v,
  Exists (mismatch getFeatureDef) entries ->
  convertLoop getFeatureDef entries res i <> Done (Some v).
Proof.
  induction entries as [|[featureName values] rest IH]; intros res i v Hex.
  - by apply Exists_nil in Hex.
  - simpl. destruct (decide (length values ≠ nbDimensions (getFeatureDef featureName)))
      as [Hne|Heq]; [done|].
    apply Exists_cons in Hex as [Hhead|Hrest]; [done|].
    destruct (writeValues values res i) as [[res' i']|f]; simpl; [|done].
    by apply IH.
Qed.

Lemma convertLoop_mismatch entries : forall (res : list double) i,
  Exists (mismatch getFeatureDef) entries ->
  i + sum_list_with (fun entry => dimsOf getFeatureDef entry.1) entries <= length res ->
  convertLoop getFeatureDef entries res i = Done None.
Proof.
  induction entries as [|[featureName values] rest IH]; intros res i Hex Hlen.
  - by apply Exists_nil in Hex.
  - simpl in *. destruct (decide (length values ≠ nbDimensions (getFeatureDef featureName)))
      as [Hne|Heq]; [done|].
    apply dec_stable in Heq.
    apply Exists_cons in Hex as [Hhead|Hrest]; [done|].
    unfold dimsOf in Hlen. simpl in Hlen.
    rewrite writeValues_ok by lia. simpl.
    apply IH; [done|].
    rewrite splice_length by (done || lia). unfold dimsOf. lia.
Qed.

Lemma convertLoop_returns entries : forall (res : list double) i,
  i + sum_list_with (fun entry => dimsOf getFeatureDef entry.1) entries <= length res ->
  exists r, convertLoop getFeatureDef entries res i = Done r.
Proof.
  induction entries as [|[featureName values] rest IH]; intros res i Hlen.
  - by eexists.
  - simpl in *. destruct (decide (length values ≠ nbDimensions (getFeatureDef featureName)))
      as [Hne|Heq]; [by eexists|].
    apply dec_stable in Heq.
    unfold dimsOf in Hlen. simpl in Hlen.
    rewrite writeValues_ok by lia. simpl.
    apply IH.
    rewrite splice_length by (done || lia). unfold dimsOf. lia.
Qed.

Lemma requested_dimensions_bound (m : gmap string (list double)) (featureNames : gset string) :
  dom m ⊆ featureNames ->
  sum_list_with (fun entry => dimsOf getFeatureDef entry.1) (map_to_list m)
  <= totalDimensions getFeatureDef featureNames.
Proof.
  intros Hsub. unfold totalDimensions. rewrite foldl_sum. simpl.
  transitivity (sum_list_with (dimsOf getFeatureDef) (map_to_list m).*1).
  { induction (map_to_list m) as [|[k x] l IH]; simpl; [done|].
    by apply Nat.add_le_mono_l. }
  apply sum_list_with_submseteq, NoDup_submseteq.
  - apply NoDup_fst_map_to_list.
  - intros name Hin. apply elem_of_elements, Hsub, elem_of_dom.
    apply list_elem_of_fmap in Hin as [[name' values] [-> Hin]].
    apply elem_of_map_to_list in Hin. by eexists.
Qed.

Lemma convert_mismatch_never_some (m : gmap string (list double)) featureName values :
  m !! featureName = Some values ->
  length values <> nbDimensions (getFeatureDef featureName) ->
  forall nbDims v,
    convertFeatureValuesMapToInputVector getFeatureDef m nbDims <> Done (Some v).
Proof.
  intros Hm Hne nbDims v. apply convertLoop_never_some.
  apply Exists_exists. exists (featureName, values). split; [|done].
  by apply elem_of_map_to_list.
Qed.

Lemma convert_mismatch_none (m : gmap string (list double)) featureNames featureName values :
  m !! featureName = Some values ->
  length values <> nbDimensions (getFeatureDef featureName) ->
  dom m ⊆ featureNames ->
  convertFeatureValuesMapToInputVector getFeatureDef m
    (totalDimensions getFeatureDef featureNames) = Done None.
Proof.
  intros Hm Hne Hsub. apply convertLoop_mismatch.
  - apply Exists_exists. exists (featureName, values). split; [|done].
    by apply elem_of_map_to_list.
  - unfold SOM.newInputVector. rewrite length_replicate. simpl.
    by apply requested_dimensions_bound.
Qed.

(* A map of requested features only never overruns the vector *)
Lemma convert_requested_returns (m : gmap string (list double)) featureNames :
  dom m ⊆ featureNames ->
  exists r,
    convertFeatureValuesMapToInputVector getFeatureDef m
      (totalDimensions getFeatureDef featureNames) = Done r.
Proof.
  intros Hsub. apply convertLoop_returns.
  unfold SOM.newInputVector. rewrite length_replicate. simpl.
  by apply requested_dimensions_bound.
Qed.

End ConvertFacts.

(** ** Reads of the cancellation flag *)

Lemma set_loadCancelled_same e : set_loadCancelled (_loadCancelled e) e = e.
Proof. by destruct e. Qed.

Lemma polledOnly_refl s : polledOnly s s.
Proof. unfold polledOnly. by rewrite set_loadCancelled_same. Qed.

Lemma polledOnly_trans s1 s2 s3 :
  polledOnly s1 s2 -> polledOnly s2 s3 -> polledOnly s1 s3.
Proof.
  intros (Hf1 & Hw1 & He1) (Hf2 & Hw2 & He2). unfold polledOnly.
  rewrite Hf2, Hw2. repeat split; try done.
  rewrite He2 at 1. rewrite He1. done.
Qed.

Section Polling.

Variable getFeatureDef : string -> FeatureDef.
Variable db : Db.
Variable cancelAt : option nat.
Variable fetch : option (Z -> gset string -> option (gmap string (list double))).
Variable trainIteration :
  nat -> Network.t -> list (list double) -> gmap (Z * Z) (list double).
Variable getClosestRefVectorPosition : Network.t -> list double -> Z * Z.

Lemma readLoadCancelled_polled s cancelled s' :
  readLoadCancelled cancelAt s = (cancelled, s') ->
  polledOnly s s' /\ _loadCancelled (engine s') = cancelled.
Proof. unfold readLoadCancelled. intros [= <- <-]. done. Qed.

Lemma readLoadCancelled_sticky s :
  _loadCancelled (engine s) = true ->
  readLoadCancelled cancelAt s
  = (true, {| engine := engine s; cacheFile := cacheFile s;
              cacheWrites := cacheWrites s; clock := S (clock s) |}).
Proof.
  intros Hflag. unfold readLoadCancelled. rewrite Hflag. simpl.
  do 2 f_equal. rewrite <- Hflag. apply set_loadCancelled_same.
Qed.

Lemma extractSamples_polled featureNames nbDims trackIds :
  forall samples ids s r s',
  extractSamples getFeatureDef db cancelAt fetch featureNames nbDims
    trackIds samples ids s = Done (r, s') ->
  polledOnly s s'.
Proof.
  induction trackIds as [|trackId rest IH]; intros samples ids s r s' Hrun.
  - simpl in Hrun. injection Hrun as <- <-. apply polledOnly_refl.
  - cbn [extractSamples] in Hrun.
    destruct (readLoadCancelled cancelAt s) as [cancelled s1] eqn:Hread.
    apply readLoadCancelled_polled in Hread as [Hp _].
    destruct cancelled.
    + injection Hrun as <- <-. done.
    + destruct (fetchFeatureValues db fetch trackId featureNames) as [m|].
      * destruct (convertFeatureValuesMapToInputVector getFeatureDef m nbDims)
          as [[v|]|f]; simpl in Hrun; try done;
          eapply polledOnly_trans; eauto.
      * eapply polledOnly_trans; eauto.
Qed.

Lemma extractSamples_lengths featureNames nbDims trackIds :
  forall samples ids s samples' ids' s',
  extractSamples getFeatureDef db cancelAt fetch featureNames nbDims
    trackIds samples ids s = Done (Some (samples', ids'), s') ->
  length samples = length ids -> length samples' = length ids'.
Proof.
  induction trackIds as [|trackId rest IH]; intros samples ids s samples' ids' s' Hrun Hlen.
  - simpl in Hrun. by injection Hrun as <- <- <-.
  - cbn [extractSamples] in Hrun.
    destruct (readLoadCancelled cancelAt s) as [cancelled s1].
    destruct cancelled; [done|].
    destruct (fetchFeatureValues db fetch trackId featureNames) as [m|]; [|eauto].
    destruct (convertFeatureValuesMapToInputVector getFeatureDef m nbDims)
      as [[v|]|f]; simpl in Hrun; try done; [|eauto].
    eapply IH; [exact Hrun|]. rewrite !length_app. simpl. lia.
Qed.

Lemma train_polled remaining : forall k samples network s network' s',
  train cancelAt trainIteration remaining k samples network s = (network', s') ->
  polledOnly s s'.
Proof.
  induction remaining as [|remaining IH]; intros k samples network s network' s' Hrun.
  - simpl in Hrun. injection Hrun as <- <-. apply polledOnly_refl.
  - cbn [train] in Hrun.
    destruct (readLoadCancelled cancelAt s) as [cancelled s1] eqn:Hread.
    apply readLoadCancelled_polled in Hread as [Hp _].
    destruct cancelled.
    + by injection Hrun as <- <-.
    + eapply polledOnly_trans; eauto.
Qed.

Lemma train_size remaining : forall k samples network s,
  let trained := (train cancelAt trainIteration remaining k samples network s).1 in
  Network.width trained = Network.width network
  /\ Network.height trained = Network.height network.
Proof.
  induction remaining as [|remaining IH]; intros k samples network s; [done|].
  cbn [train]. destruct (readLoadCancelled cancelAt s) as [cancelled s1].
  destruct cancelled; [done|].
  destruct (IH (S k) samples
              (Network.setRefVectors (trainIteration k network samples) network) s1)
    as [Hw Hh].
  cbv zeta. by rewrite Hw, Hh.
Qed.

Lemma classifyTracks_polled network samples : forall trackPositions s r s',
  classifyTracks cancelAt getClosestRefVectorPosition network samples trackPositions s
    = (r, s') ->
  polledOnly s s'.
Proof.
  induction samples as [|[trackId sample] rest IH]; intros trackPositions s r s' Hrun.
  - simpl in Hrun. injection Hrun as <- <-. apply polledOnly_refl.
  - cbn [classifyTracks] in Hrun.
    destruct (readLoadCancelled cancelAt s) as [cancelled s1] eqn:Hread.
    apply readLoadCancelled_polled in Hread as [Hp _].
    destruct cancelled.
    + by injection Hrun as <- <-.
    + eapply polledOnly_trans; eauto.
Qed.

(* A classification that runs to its end saw the flag clear at every turn *)
Lemma classifyTracks_completed network samples : forall trackPositions s r s',
  samples <> [] ->
  classifyTracks cancelAt getClosestRefVectorPosition network samples trackPositions s
    = (Some r, s') ->
  _loadCancelled (engine s') = false.
Proof.
  induction samples as [|[trackId sample] rest IH];
    intros trackPositions s r s' Hne Hrun; [done|].
  cbn [classifyTracks] in Hrun.
  destruct (readLoadCancelled cancelAt s) as [cancelled s1] eqn:Hread.
  apply readLoadCancelled_polled in Hread as [_ Hflag].
  destruct cancelled; [done|].
  destruct rest as [|next rest].
  - simpl in Hrun. by injection Hrun as <- <-.
  - eapply IH; [done|exact Hrun].
Qed.

End Polling.

(** ** Index construction *)

Lemma foldl_push_back_fresh {A} `{EqDecision A} (ps : list A) : forall acc,
  NoDup (acc ++ ps) -> foldl push_back_if_not_present acc ps = acc ++ ps.
Proof.
  induction ps as [|p ps IH]; intros acc Hnd; simpl.
  - by rewrite app_nil_r.
  - unfold push_back_if_not_present at 2.
    rewrite decide_False.
    + rewrite IH; rewrite <- app_assoc; done.
    + apply NoDup_app in Hnd as (_ & Hdisj & _). intros Hin.
      apply (Hdisj p Hin). by left.
Qed.

Lemma foldl_addPosition id (ps : list (Z * Z)) : forall (m : gmap Z (list (Z * Z))),
  ps <> [] ->
  foldl (fun m p => addPosition m id p) m ps
  = <[id := foldl push_back_if_not_present (default [] (m !! id)) ps]> m.
Proof.
  induction ps as [|p ps IH]; intros m Hne; [done|].
  cbn [foldl]. destruct ps as [|q ps]; [done|].
  rewrite IH by done. unfold addPosition.
  by rewrite lookup_insert_eq, insert_insert_eq.
Qed.

Lemma foldl_insert_entries (entries : list (Z * list (Z * Z))) :
  forall m0 : gmap Z (list (Z * Z)),
  NoDup entries.*1 ->
  foldl (fun m entry => <[entry.1 := entry.2]> m) m0 entries
  = list_to_map entries ∪ m0.
Proof.
  induction entries as [|[id ps] rest IH]; intros m0 Hnd; simpl.
  - by rewrite (left_id_L ∅ (∪)).
  - apply NoDup_cons in Hnd as [Hfresh Hnd]. rewrite IH by done.
    rewrite <- insert_union_l. rewrite insert_union_r; [done|].
    by apply not_elem_of_list_to_map_1.
Qed.

(* Both directions of an equivalence between disjunctions of listings *)
#[local] Ltac listing :=
  split; intros;
  repeat match goal with
         | H : _ \/ _ |- _ => destruct H
         | H : _ /\ _ |- _ => destruct H
         | H : exists _, _ |- _ => destruct H
         | H : False |- _ => destruct H
         end;
  simplify_eq; eauto 12.

Lemma bind_done {A B} (m : Outcome A) (k : A -> Outcome B) (b : B) :
  (a ← m; k a) = Done b -> exists a, m = Done a /\ k a = Done b.
Proof. destruct m as [a|f]; simpl; [by exists a|done]. Qed.

(* What holds of every turn of a loop that returns holds of the loop *)
Lemma foldM_steps {A B} (R : B -> B -> Prop) (f : B -> A -> Outcome B) (l : list A) :
  (forall b, R b b) ->
  (forall b1 b2 b3, R b1 b2 -> R b2 b3 -> R b1 b3) ->
  (forall b x b', x ∈ l -> f b x = Done b' -> R b b') ->
  forall b b', foldM f b l = Done b' -> R b b'.
Proof.
  intros Hrefl Htrans. induction l as [|x l IH]; intros Hstep b b' Hrun.
  - simpl in Hrun. injection Hrun as <-. apply Hrefl.
  - cbn [foldM] in Hrun. apply bind_done in Hrun as (b1 & H1 & Hrun).
    eapply Htrans; [eapply Hstep; [by left|exact H1]|].
    eapply IH; [|exact Hrun]. intros b0 y b0' Hy. apply Hstep. by right.
Qed.

(* A loop returns when each of its turns does *)
Lemma foldM_returns {A B} (I : B -> Prop) (f : B -> A -> Outcome B) (l : list A) :
  (forall b x, x ∈ l -> I b -> exists b', f b x = Done b' /\ I b') ->
  forall b, I b -> exists b', foldM f b l = Done b' /\ I b'.
Proof.
  induction l as [|x l IH]; intros Hstep b Hb.
  - by exists b.
  - destruct (Hstep b x) as (b1 & H1 & Hb1); [by left|done|].
    destruct (IH (fun b0 y Hy => Hstep b0 y (list_elem_of_further _ _ _ Hy)) b1 Hb1)
      as (b' & Hrun & Hb').
    exists b'. cbn [foldM]. rewrite H1. done.
Qed.

Lemma elem_of_push_back_if_not_present {A} `{EqDecision A} (l : list A) x y :
  y ∈ push_back_if_not_present l x <-> y ∈ l \/ y = x.
Proof.
  unfold push_back_if_not_present. destruct (decide (x ∈ l)) as [Hin|Hnotin].
  - split; [by left|]. by intros [?| ->].
  - rewrite elem_of_app, list_elem_of_singleton. done.
Qed.

Lemma push_back_if_not_present_NoDup {A} `{EqDecision A} (l : list A) x :
  NoDup l -> NoDup (push_back_if_not_present l x).
Proof.
  intros Hnd. unfold push_back_if_not_present.
  destruct (decide (x ∈ l)) as [Hin|Hnotin]; [done|].
  apply NoDup_app. repeat split; [done| |apply NoDup_singleton].
  intros y Hy Hx. apply list_elem_of_singleton in Hx. by subst.
Qed.

Lemma placedAt_addPosition (m : gmap Z (list (Z * Z))) id p id' p' :
  placedAt (addPosition m id p) id' p' <-> placedAt m id' p' \/ (id' = id /\ p' = p).
Proof.
  unfold placedAt, addPosition. destruct (decide (id = id')) as [<-|Hne].
  - rewrite lookup_insert_eq. simpl. rewrite elem_of_push_back_if_not_present.
    listing.
  - rewrite lookup_insert_ne by done. listing.
Qed.

(** *** Cells of a matrix *)

Lemma get_done matrix position ids :
  Matrix.get matrix position = Done ids
  <-> Matrix.within matrix position
      /\ ids = default [] (Matrix.cells matrix !! position).
Proof.
  unfold Matrix.get. destruct (decide (Matrix.within matrix position)).
  - split; [by intros [= <-]|by intros [_ ->]].
  - split; [done|]. by intros [? _].
Qed.

Lemma get_outside matrix position :
  ~ Matrix.within matrix position -> Matrix.get matrix position = Failed OutOfRange.
Proof. intros Hout. unfold Matrix.get. by rewrite decide_False. Qed.

Lemma inCell_within matrix position id :
  inCell matrix position id
  <-> Matrix.within matrix position
      /\ id ∈ default [] (Matrix.cells matrix !! position).
Proof.
  unfold inCell. split.
  - intros (ids & Hget & Hin). apply get_done in Hget as [Hw ->]. done.
  - intros [Hw Hin]. eexists. split; [|exact Hin]. by apply get_done.
Qed.

(* push_back_if_not_present(matrix[position], id) returns exactly at the
   positions of the matrix, and writes that one cell *)
Lemma addToCell_done matrix position id matrix' :
  addToCell matrix position id = Done matrix'
  <-> Matrix.within matrix position
      /\ matrix'
         = {| Matrix.width := Matrix.width matrix;
              Matrix.height := Matrix.height matrix;
              Matrix.cells :=
                <[position := push_back_if_not_present
                                (default [] (Matrix.cells matrix !! position)) id]>
                  (Matrix.cells matrix) |}.
Proof.
  unfold addToCell, Matrix.get, Matrix.set.
  destruct (decide (Matrix.within matrix position)); simpl.
  - split; [by intros [= <-]|by intros [_ ->]].
  - split; [done|]. by intros [? _].
Qed.

Lemma addToCell_outside matrix position id :
  ~ Matrix.within matrix position ->
  addToCell matrix position id = Failed OutOfRange.
Proof.
  intros Hout. unfold addToCell, Matrix.get. by rewrite decide_False.
Qed.

Lemma inCell_addToCell matrix position id matrix' position' id' :
  addToCell matrix position id = Done matrix' ->
  inCell matrix' position' id'
  <-> inCell matrix position' id' \/ (id' = id /\ position' = position).
Proof.
  intros Hadd. apply addToCell_done in Hadd as [Hw ->].
  rewrite !inCell_within. unfold Matrix.within. simpl.
  destruct (decide (position = position')) as [<-|Hne].
  - rewrite lookup_insert_eq. simpl. rewrite elem_of_push_back_if_not_present.
    listing.
  - rewrite lookup_insert_ne by done. listing.
Qed.

Lemma inCell_new w h position id : ~ inCell (Matrix.new w h) position id.
Proof.
  rewrite inCell_within. unfold Matrix.new. simpl. rewrite lookup_empty. simpl.
  intros [_ Hin]. by apply elem_of_nil in Hin.
Qed.

Lemma addToCell_distinct matrix position id matrix' :
  addToCell matrix position id = Done matrix' ->
  distinctCells matrix -> distinctCells matrix'.
Proof.
  intros Hadd Hm p ids Hget. apply addToCell_done in Hadd as [Hw ->].
  apply get_done in Hget as [Hp ->]. simpl.
  destruct (decide (position = p)) as [<-|Hne].
  - rewrite lookup_insert_eq. simpl. apply push_back_if_not_present_NoDup.
    apply (Hm position). by apply get_done.
  - rewrite lookup_insert_ne by done. apply (Hm p). by apply get_done.
Qed.

Lemma new_distinct w h : distinctCells (Matrix.new w h).
Proof.
  intros p ids Hget. apply get_done in Hget as [_ ->].
  unfold Matrix.new. simpl. rewrite lookup_empty. apply NoDup_nil_2.
Qed.

Lemma sameSize_refl matrix : sameSize matrix matrix.
Proof. done. Qed.

Lemma sameSize_trans m1 m2 m3 : sameSize m1 m2 -> sameSize m2 m3 -> sameSize m1 m3.
Proof. intros [? ?] [? ?]. unfold sameSize. split; congruence. Qed.

Lemma addToCell_sameSize matrix position id matrix' :
  addToCell matrix position id = Done matrix' -> sameSize matrix matrix'.
Proof. intros Hadd. by apply addToCell_done in Hadd as [_ ->]. Qed.

Lemma covers_within w h matrix position :
  covers w h matrix -> Matrix.inGrid w h position -> Matrix.within matrix position.
Proof.
  intros [Hw Hh] [Hx Hy]. unfold Matrix.within, Matrix.inGrid. lia.
Qed.

Lemma covers_sameSize w h matrix matrix' :
  sameSize matrix matrix' -> covers w h matrix -> covers w h matrix'.
Proof. intros [Hw Hh] [? ?]. unfold covers. by rewrite Hw, Hh. Qed.

Lemma addToCell_returns w h matrix position id :
  covers w h matrix -> Matrix.inGrid w h position ->
  exists matrix', addToCell matrix position id = Done matrix' /\ covers w h matrix'.
Proof.
  intros Hc Hp. eexists. split.
  - apply addToCell_done. split; [by eapply covers_within|done].
  - done.
Qed.

(** *** What one placement lists *)

Lemma indexedBy_refl e : indexedBy (fun _ _ _ => False) e e.
Proof. unfold indexedBy. repeat apply conj; intros; listing. Qed.

Lemma indexedBy_ext (F G : Z -> Track -> Z * Z -> Prop) e e' :
  (forall id track p, F id track p <-> G id track p) ->
  indexedBy F e e' -> indexedBy G e e'.
Proof.
  intros Hext (H1 & H2 & H3 & H4 & H5 & H6).
  unfold indexedBy. repeat apply conj; intros.
  - rewrite H1. by setoid_rewrite Hext.
  - rewrite H2. by setoid_rewrite Hext.
  - rewrite H3. by setoid_rewrite Hext.
  - rewrite H4. by setoid_rewrite Hext.
  - rewrite H5. by setoid_rewrite Hext.
  - rewrite H6. by setoid_rewrite Hext.
Qed.

Lemma indexedBy_trans (F G : Z -> Track -> Z * Z -> Prop) e1 e2 e3 :
  indexedBy F e1 e2 -> indexedBy G e2 e3 ->
  indexedBy (fun id track p => F id track p \/ G id track p) e1 e3.
Proof.
  intros (F1 & F2 & F3 & F4 & F5 & F6) (G1 & G2 & G3 & G4 & G5 & G6).
  unfold indexedBy. repeat apply conj; intros.
  - rewrite G1, F1. listing.
  - rewrite G2, F2. listing.
  - rewrite G3, F3. listing.
  - rewrite G4, F4. listing.
  - rewrite G5, F5. listing.
  - rewrite G6, F6. listing.
Qed.

(* The reads of the flag leave the index alone *)
Lemma indexedBy_flag_l (F : Z -> Track -> Z * Z -> Prop) v e e' :
  indexedBy F (set_loadCancelled v e) e' -> indexedBy F e e'.
Proof. done. Qed.

Lemma indexedBy_flag_r (F : Z -> Track -> Z * Z -> Prop) v e e' :
  indexedBy F e e' -> indexedBy F e (set_loadCancelled v e').
Proof. done. Qed.

Lemma sizesKept_refl w h e : sizesKept w h e e.
Proof.
  unfold sizesKept. repeat apply conj; try done.
  intros t matrix' ->. done.
Qed.

Lemma sizesKept_trans w h e1 e2 e3 :
  sizesKept w h e1 e2 -> sizesKept w h e2 e3 -> sizesKept w h e1 e3.
Proof.
  intros (T1 & R1 & A1 & S1) (T2 & R2 & A2 & S2). unfold sizesKept.
  split; [|split; [|split]].
  - by eapply sameSize_trans.
  - by eapply sameSize_trans.
  - intros t m3 H3. specialize (A2 t m3 H3).
    destruct (_artistMatrix e2 !! t) as [m2|] eqn:H2.
    + specialize (A1 t m2 H2). destruct (_artistMatrix e1 !! t) as [m1|].
      * by eapply sameSize_trans.
      * destruct A1 as [? ?], A2 as [? ?]. unfold hasSize. split; congruence.
    + destruct (_artistMatrix e1 !! t) as [m1|] eqn:H1; [|done].
      destruct (S1 t) as [m2 Hm2]; [by eexists|]. congruence.
  - intros t Hsome. by apply S2, S1.
Qed.

Lemma addPosition_distinct (m : gmap Z (list (Z * Z))) id p :
  distinctPositions m -> distinctPositions (addPosition m id p).
Proof.
  intros Hm id' ps. unfold addPosition.
  destruct (decide (id = id')) as [<-|Hne].
  - rewrite lookup_insert_eq. intros [= <-]. split.
    + unfold push_back_if_not_present.
      destruct (decide (p ∈ default [] (m !! id))) as [Hin|Hnotin].
      * intros Heq. rewrite Heq in Hin. by apply elem_of_nil in Hin.
      * by destruct (default [] (m !! id)).
    + apply push_back_if_not_present_NoDup.
      destruct (m !! id) as [ps0|] eqn:Hlookup; simpl; [|apply NoDup_nil_2].
      by apply (Hm id ps0).
  - rewrite lookup_insert_ne by done. apply Hm.
Qed.

Section IndexPlacement.

Variable w h : Z.

(* The engine that one artist link of one placement leaves *)
Lemma indexArtistLink_done position e link e' :
  indexArtistLink w h position e link = Done e' ->
  exists matrix',
    addToCell (match _artistMatrix e !! getType link with
               | Some matrix => matrix
               | None => Matrix.new w h
               end) position (getArtist link) = Done matrix'
    /\ e' = set_artistMatrix (<[getType link := matrix']> (_artistMatrix e))
              (set_artistPositions
                 (addPosition (_artistPositions e) (getArtist link) position) e).
Proof.
  unfold indexArtistLink. cbv zeta. intros Hrun.
  apply bind_done in Hrun as (matrix' & Hadd & Hrun). injection Hrun as <-.
  by exists matrix'.
Qed.

Lemma artistsOnly_refl e : artistsOnly e e.
Proof. done. Qed.

Lemma artistsOnly_trans e1 e2 e3 :
  artistsOnly e1 e2 -> artistsOnly e2 e3 -> artistsOnly e1 e3.
Proof.
  intros ((A1 & A2 & A3) & A4 & A5 & A6 & A7) ((B1 & B2 & B3) & B4 & B5 & B6 & B7).
  unfold artistsOnly, sameControl. repeat split; congruence.
Qed.

Lemma foldM_indexArtistLink_others position links e e' :
  foldM (indexArtistLink w h position) e links = Done e' -> artistsOnly e e'.
Proof.
  apply foldM_steps; [apply artistsOnly_refl|apply artistsOnly_trans|].
  intros e0 link e0' _ Hrun. by apply indexArtistLink_done in Hrun as (matrix' & _ & ->).
Qed.

Lemma inArtistCell_insert (matrices : gmap nat Matrix.t) t p a matrix' t' p' a' :
  addToCell (match matrices !! t with
             | Some matrix => matrix
             | None => Matrix.new w h
             end) p a = Done matrix' ->
  inArtistCell (<[t := matrix']> matrices) t' p' a'
  <-> inArtistCell matrices t' p' a' \/ (t' = t /\ a' = a /\ p' = p).
Proof.
  intros Hadd. unfold inArtistCell. destruct (decide (t = t')) as [<-|Hne].
  - rewrite lookup_insert_eq. split.
    + intros (matrix & [= <-] & Hin).
      apply (inCell_addToCell _ _ _ _ _ _ Hadd) in Hin as [Hin|[-> ->]].
      * destruct (matrices !! t) as [matrix|]; [left; by exists matrix|].
        by apply inCell_new in Hin.
      * by right.
    + intros [(matrix & Hm & Hin)|(_ & -> & ->)].
      * eexists. split; [done|]. apply (inCell_addToCell _ _ _ _ _ _ Hadd). left.
        by rewrite Hm.
      * eexists. split; [done|]. apply (inCell_addToCell _ _ _ _ _ _ Hadd). by right.
  - rewrite lookup_insert_ne by done. listing.
Qed.

Lemma foldM_indexArtistLink_artists position links : forall e e',
  foldM (indexArtistLink w h position) e links = Done e' ->
  (forall a p,
     placedAt (_artistPositions e') a p
     <-> placedAt (_artistPositions e) a p
         \/ exists link, link ∈ links /\ getArtist link = a /\ p = position)
  /\ (forall t a p,
        inArtistCell (_artistMatrix e') t p a
        <-> inArtistCell (_artistMatrix e) t p a
            \/ exists link, link ∈ links /\ getArtist link = a /\ getType link = t
                 /\ p = position).
Proof.
  induction links as [|l links IH]; intros e e' Hrun.
  - simpl in Hrun. injection Hrun as <-. split; intros; split; try (by left).
    + intros [?|(link & Hin & _)]; [done|]. by apply elem_of_nil in Hin.
    + intros [?|(link & Hin & _)]; [done|]. by apply elem_of_nil in Hin.
  - cbn [foldM] in Hrun. apply bind_done in Hrun as (e1 & Hlink & Hrun).
    destruct (IH _ _ Hrun) as [Hp Hm].
    apply indexArtistLink_done in Hlink as (matrix' & Hadd & ->).
    split; intros.
    + rewrite Hp. simpl.
      rewrite placedAt_addPosition. setoid_rewrite elem_of_cons. listing.
    + rewrite Hm. simpl.
      rewrite (inArtistCell_insert _ _ _ _ _ _ _ _ Hadd).
      setoid_rewrite elem_of_cons. listing.
Qed.

(* The engine that one placement of a track leaves *)
Lemma indexPosition_done trackId track e position e' :
  indexPosition w h trackId track e position = Done e' ->
  exists trackMatrix e1,
    addToCell (_trackMatrix e) position trackId = Done trackMatrix
    /\ match getRelease track with
       | Some releaseId =>
           exists releaseMatrix,
             addToCell (_releaseMatrix e) position releaseId = Done releaseMatrix
             /\ e1 = set_releaseMatrix releaseMatrix
                       (set_releasePositions
                          (addPosition (_releasePositions e) releaseId position)
                          (set_trackMatrix trackMatrix
                             (set_trackPositions
                                (addPosition (_trackPositions e) trackId position) e)))
       | None =>
           e1 = set_trackMatrix trackMatrix
                  (set_trackPositions
                     (addPosition (_trackPositions e) trackId position) e)
       end
    /\ foldM (indexArtistLink w h position) e1 (getArtistLinks track) = Done e'.
Proof.
  unfold indexPosition. cbv zeta. intros Hrun.
  apply bind_done in Hrun as (trackMatrix & Hadd & Hrun).
  apply bind_done in Hrun as (e1 & He1 & Hrun).
  exists trackMatrix, e1. split; [exact Hadd|]. split; [|exact Hrun].
  destruct (getRelease track) as [releaseId|].
  - apply bind_done in He1 as (releaseMatrix & Hrel & He1). injection He1 as <-.
    by exists releaseMatrix.
  - by injection He1 as <-.
Qed.

Lemma indexPosition_control trackId track e position e' :
  indexPosition w h trackId track e position = Done e' -> sameControl e e'.
Proof.
  intros Hrun. apply indexPosition_done in Hrun as (tm & e1 & _ & He1 & Hrun).
  apply foldM_indexArtistLink_others in Hrun as ((H1 & H2 & H3) & _).
  unfold sameControl. rewrite H1, H2, H3.
  destruct (getRelease track); [destruct He1 as (rm & _ & ->)|subst e1]; done.
Qed.

Lemma indexPosition_trackPositions trackId track e position e' :
  indexPosition w h trackId track e position = Done e' ->
  _trackPositions e' = addPosition (_trackPositions e) trackId position.
Proof.
  intros Hrun. apply indexPosition_done in Hrun as (tm & e1 & _ & He1 & Hrun).
  apply foldM_indexArtistLink_others in Hrun as (_ & -> & _).
  destruct (getRelease track); [destruct He1 as (rm & _ & ->)|subst e1]; done.
Qed.

Lemma indexPosition_indexedBy trackId track e position e' :
  indexPosition w h trackId track e position = Done e' ->
  indexedBy (fun id track' p => id = trackId /\ track' = track /\ p = position) e e'.
Proof.
  intros Hrun. apply indexPosition_done in Hrun as (tm & e1 & Htm & He1 & Hrun).
  pose proof (foldM_indexArtistLink_others _ _ _ _ Hrun) as (_ & Htp & Hrp & Htm' & Hrm).
  apply foldM_indexArtistLink_artists in Hrun as (Hap & Ham).
  unfold indexedBy. repeat apply conj; intros.
  - rewrite Htp.
    destruct (getRelease track); [destruct He1 as (rm & _ & ->)|subst e1]; simpl;
      rewrite placedAt_addPosition; listing.
  - rewrite Htm'.
    destruct (getRelease track); [destruct He1 as (rm & _ & ->)|subst e1]; simpl;
      rewrite (inCell_addToCell _ _ _ _ _ _ Htm); listing.
  - rewrite Hrp. destruct (getRelease track) as [releaseId|] eqn:Hrelease.
    + destruct He1 as (rm & _ & ->). simpl. rewrite placedAt_addPosition. listing.
    + subst e1. simpl. listing.
  - rewrite Hrm. destruct (getRelease track) as [releaseId|] eqn:Hrelease.
    + destruct He1 as (rm & Hadd & ->). simpl.
      rewrite (inCell_addToCell _ _ _ _ _ _ Hadd). listing.
    + subst e1. simpl. listing.
  - rewrite Hap.
    destruct (getRelease track); [destruct He1 as (rm & _ & ->)|subst e1]; simpl;
      listing.
  - rewrite Ham.
    destruct (getRelease track); [destruct He1 as (rm & _ & ->)|subst e1]; simpl;
      listing.
Qed.

Lemma foldM_indexPosition_indexedBy trackId track positions : forall e e',
  foldM (indexPosition w h trackId track) e positions = Done e' ->
  indexedBy (fun id track' p => id = trackId /\ track' = track /\ p ∈ positions) e e'.
Proof.
  induction positions as [|position rest IH]; intros e e' Hrun.
  - simpl in Hrun. injection Hrun as <-.
    eapply indexedBy_ext; [|apply indexedBy_refl].
    intros id track' p. split; [done|]. intros (_ & _ & Hin).
    by apply elem_of_nil in Hin.
  - cbn [foldM] in Hrun. apply bind_done in Hrun as (e1 & Hstep & Hrun).
    eapply indexedBy_ext;
      [|exact (indexedBy_trans _ _ _ _ _
                 (indexPosition_indexedBy trackId track e position e1 Hstep)
                 (IH e1 e' Hrun))].
    intros id track' p. cbv beta. rewrite elem_of_cons. listing.
Qed.

Lemma foldM_indexPosition_trackPositions trackId track positions : forall e e',
  foldM (indexPosition w h trackId track) e positions = Done e' ->
  _trackPositions e'
  = foldl (fun m p => addPosition m trackId p) (_trackPositions e) positions.
Proof.
  induction positions as [|p ps IH]; intros e e' Hrun.
  - simpl in Hrun. by injection Hrun as <-.
  - cbn [foldM] in Hrun. apply bind_done in Hrun as (e1 & Hstep & Hrun).
    rewrite (IH _ _ Hrun). simpl. by rewrite (indexPosition_trackPositions _ _ _ _ _ Hstep).
Qed.

Lemma indexArtistLink_distinct position e link e' :
  indexArtistLink w h position e link = Done e' ->
  distinctIndex e -> distinctIndex e'.
Proof.
  intros Hrun (D1 & D2 & D3 & D4 & D5 & D6).
  apply indexArtistLink_done in Hrun as (matrix' & Hadd & ->).
  unfold distinctIndex. simpl. repeat apply conj; try done.
  - by apply addPosition_distinct.
  - intros t matrix Hlookup. destruct (decide (getType link = t)) as [<-|Hne].
    + rewrite lookup_insert_eq in Hlookup. injection Hlookup as <-.
      eapply addToCell_distinct; [exact Hadd|].
      destruct (_artistMatrix e !! getType link) as [matrix|] eqn:Hm;
        [by eapply D6|apply new_distinct].
    + rewrite lookup_insert_ne in Hlookup by done. by eapply D6.
Qed.

Lemma indexPosition_distinct trackId track e position e' :
  indexPosition w h trackId track e position = Done e' ->
  distinctIndex e -> distinctIndex e'.
Proof.
  intros Hrun (D1 & D2 & D3 & D4 & D5 & D6).
  apply indexPosition_done in Hrun as (tm & e1 & Htm & He1 & Hrun).
  assert (Hd1 : distinctIndex e1).
  { unfold distinctIndex.
    destruct (getRelease track) as [releaseId|];
      [destruct He1 as (rm & Hrm & ->)|subst e1]; simpl;
      repeat apply conj; try done;
      try (by apply addPosition_distinct); by eapply addToCell_distinct. }
  revert Hd1.
  refine (foldM_steps (fun e e' => distinctIndex e -> distinctIndex e') _ _ _ _ _
            e1 e' Hrun).
  - done.
  - intros b1 b2 b3 H12 H23 H1. by apply H23, H12.
  - intros b link b' _. apply indexArtistLink_distinct.
Qed.

Lemma indexArtistLink_sizes position e link e' :
  indexArtistLink w h position e link = Done e' -> sizesKept w h e e'.
Proof.
  intros Hrun. apply indexArtistLink_done in Hrun as (matrix' & Hadd & ->).
  apply addToCell_sameSize in Hadd.
  unfold sizesKept. simpl. repeat apply conj; try done.
  - intros t matrix'' Hlookup. destruct (decide (getType link = t)) as [<-|Hne].
    + rewrite lookup_insert_eq in Hlookup. injection Hlookup as <-.
      by destruct (_artistMatrix e !! getType link).
    + rewrite lookup_insert_ne in Hlookup by done. by rewrite Hlookup.
  - intros t Hsome. destruct (decide (getType link = t)) as [<-|Hne].
    + rewrite lookup_insert_eq. by eexists.
    + by rewrite lookup_insert_ne.
Qed.

Lemma indexPosition_sizes trackId track e position e' :
  indexPosition w h trackId track e position = Done e' -> sizesKept w h e e'.
Proof.
  intros Hrun. apply indexPosition_done in Hrun as (tm & e1 & Htm & He1 & Hrun).
  apply addToCell_sameSize in Htm.
  assert (H1 : sizesKept w h e e1).
  { unfold sizesKept.
    destruct (getRelease track) as [releaseId|];
      [destruct He1 as (rm & Hrm & ->); apply addToCell_sameSize in Hrm|subst e1];
      simpl;
      (split; [assumption|split; [assumption || done|split; [|done]]]);
      intros t matrix' ->; done. }
  eapply sizesKept_trans; [exact H1|].
  refine (foldM_steps (sizesKept w h) _ _ (sizesKept_refl w h) (sizesKept_trans w h)
            _ e1 e' Hrun).
  intros b link b' _. apply indexArtistLink_sizes.
Qed.

(* Inside the grid, with matrices that have the grid, a placement returns *)
Lemma indexArtistLink_returns position e link :
  Matrix.inGrid w h position -> holdsGrid w h e ->
  exists e', indexArtistLink w h position e link = Done e' /\ holdsGrid w h e'.
Proof.
  intros Hp (Ht & Hr & Ha). unfold indexArtistLink. cbv zeta.
  destruct (addToCell_returns w h
              (match _artistMatrix e !! getType link with
               | Some matrix => matrix
               | None => Matrix.new w h
               end) position (getArtist link)) as (matrix' & Hadd & Hc).
  { destruct (_artistMatrix e !! getType link) as [matrix|] eqn:Hm; [by eapply Ha|].
    unfold covers, Matrix.new. simpl. lia. }
  { done. }
  simpl in Hadd |- *. rewrite Hadd. simpl. eexists. split; [done|].
  unfold holdsGrid. simpl. split; [done|split; [done|]].
  intros t matrix Hlookup. destruct (decide (getType link = t)) as [<-|Hne].
  - rewrite lookup_insert_eq in Hlookup. by injection Hlookup as <-.
  - rewrite lookup_insert_ne in Hlookup by done. by eapply Ha.
Qed.

Lemma indexPosition_returns trackId track e position :
  Matrix.inGrid w h position -> holdsGrid w h e ->
  exists e', indexPosition w h trackId track e position = Done e' /\ holdsGrid w h e'.
Proof.
  intros Hp (Ht & Hr & Ha). unfold indexPosition. cbv zeta.
  destruct (addToCell_returns w h (_trackMatrix e) position trackId Ht Hp)
    as (tm & Htm & Hctm).
  simpl. rewrite Htm. cbn [mbind Outcome_bind].
  destruct (getRelease track) as [releaseId|].
  - destruct (addToCell_returns w h (_releaseMatrix e) position releaseId Hr Hp)
      as (rm & Hrm & Hcrm).
    simpl. rewrite Hrm. cbn [mbind Outcome_bind].
    apply (foldM_returns (holdsGrid w h)).
    + intros b link _. by apply indexArtistLink_returns.
    + done.
  - cbn [mbind Outcome_bind].
    apply (foldM_returns (holdsGrid w h)).
    + intros b link _. by apply indexArtistLink_returns.
    + done.
Qed.

(* Outside the track matrix a placement does not return *)
Lemma indexPosition_outside trackId track e position :
  ~ Matrix.within (_trackMatrix e) position ->
  indexPosition w h trackId track e position = Failed OutOfRange.
Proof.
  intros Hout. unfold indexPosition. cbv zeta. simpl.
  by rewrite addToCell_outside.
Qed.

End IndexPlacement.

Section IndexConstruction.

Variable db : Db.
Variable cancelAt : option nat.
Variable w h : Z.

Lemma foldl_trackPositionsStep (entries : list (Z * list (Z * Z))) :
  forall m0 : gmap Z (list (Z * Z)),
  NoDup entries.*1 ->
  (forall id ps, (id, ps) ∈ entries ->
     is_Some (tracks db !! id) /\ ps <> [] /\ NoDup ps /\ m0 !! id = None) ->
  foldl (trackPositionsStep db) m0 entries
  = foldl (fun m entry => <[entry.1 := entry.2]> m) m0 entries.
Proof.
  induction entries as [|[id ps] rest IH]; intros m0 Hnd Hok; [done|].
  cbn [foldl]. apply NoDup_cons in Hnd as [Hfresh Hnd].
  destruct (Hok id ps) as ([track Htrack] & Hne & Hps & Hnone); [by left|].
  unfold trackPositionsStep at 2. cbn [fst snd]. rewrite Htrack.
  rewrite foldl_addPosition by done. rewrite Hnone. simpl.
  rewrite foldl_push_back_fresh by done. simpl.
  apply IH; [done|]. intros id' ps' Hin.
  destruct (Hok id' ps') as (? & ? & ? & ?); [by right|].
  repeat split; try done.
  rewrite lookup_insert_ne; [done|]. intros ->. apply Hfresh.
  apply list_elem_of_fmap. by exists (id', ps').
Qed.

(* The entries of the tracks that Track::getById does not find are skipped *)
Lemma foldl_trackPositionsStep_found (entries : list (Z * list (Z * Z))) :
  forall m0 : gmap Z (list (Z * Z)),
  foldl (trackPositionsStep db) m0 entries
  = foldl (trackPositionsStep db) m0
      (filter (fun entry => is_Some (tracks db !! entry.1)) entries).
Proof.
  induction entries as [|[id ps] rest IH]; intros m0; [done|].
  cbn [foldl]. rewrite IH.
  destruct (tracks db !! id) as [track|] eqn:Htrack.
  - rewrite filter_cons_True by (simpl; rewrite Htrack; by eexists). done.
  - rewrite filter_cons_False; [|simpl; rewrite Htrack; by intros [? ?]].
    unfold trackPositionsStep at 2. simpl. by rewrite Htrack.
Qed.

(* What an index built from a model lists for a track: the positions of
   the model when Track::getById finds the track, nothing otherwise *)
Lemma rebuild_lookup (trackPositions : gmap Z (list (Z * Z))) trackId :
  distinctPositions trackPositions ->
  foldl (trackPositionsStep db) ∅ (map_to_list trackPositions) !! trackId
  = match tracks db !! trackId with
    | Some _ => trackPositions !! trackId
    | None => None
    end.
Proof.
  intros Hok. rewrite foldl_trackPositionsStep_found.
  assert (Hnd : NoDup (filter (fun entry : Z * list (Z * Z) =>
                         is_Some (tracks db !! entry.1))
                         (map_to_list trackPositions)).*1).
  { apply NoDup_fmap_fst.
    - intros id ps1 ps2 H1 H2.
      apply list_elem_of_filter in H1 as [_ H1], H2 as [_ H2].
      apply elem_of_map_to_list in H1, H2. congruence.
    - apply NoDup_filter, NoDup_map_to_list. }
  rewrite foldl_trackPositionsStep.
  - rewrite foldl_insert_entries by done. rewrite (right_id_L ∅ (∪)).
    destruct (tracks db !! trackId) as [track|] eqn:Htrack.
    + destruct (trackPositions !! trackId) as [ps|] eqn:Hlookup.
      * apply elem_of_list_to_map_1; [done|].
        apply list_elem_of_filter. split; [simpl; rewrite Htrack; by eexists|].
        by apply elem_of_map_to_list.
      * apply not_elem_of_list_to_map_1. intros Hin.
        apply list_elem_of_fmap in Hin as ([id ps] & -> & Hin).
        apply list_elem_of_filter in Hin as [_ Hin].
        apply elem_of_map_to_list in Hin. simpl in Hlookup. congruence.
    + apply not_elem_of_list_to_map_1. intros Hin.
      apply list_elem_of_fmap in Hin as ([id ps] & -> & Hin).
      apply list_elem_of_filter in Hin as [[track Hfound] _]. simpl in *. congruence.
  - done.
  - intros id ps Hin. apply list_elem_of_filter in Hin as [Hfound Hin].
    apply elem_of_map_to_list in Hin. destruct (Hok id ps Hin) as [? ?].
    by rewrite lookup_empty.
Qed.

Lemma rebuild_trackPositions (trackPositions : gmap Z (list (Z * Z))) :
  (forall id ps, trackPositions !! id = Some ps ->
     is_Some (tracks db !! id) /\ ps <> [] /\ NoDup ps) ->
  foldl (trackPositionsStep db) ∅ (map_to_list trackPositions) = trackPositions.
Proof.
  intros Hok. apply map_eq. intros trackId. rewrite rebuild_lookup.
  - destruct (tracks db !! trackId) as [track|] eqn:Htrack; [done|].
    destruct (trackPositions !! trackId) as [ps|] eqn:Hlookup; [|done].
    destruct (Hok trackId ps Hlookup) as ([track Hfound] & _). congruence.
  - intros id ps Hlookup. destruct (Hok id ps Hlookup) as (_ & ? & ?). done.
Qed.

(* What holds of every step of the loop holds of the loop *)
Lemma indexTracks_steps (R : FeaturesEngine -> FeaturesEngine -> Prop) :
  (forall e, R e e) ->
  (forall e1 e2 e3, R e1 e2 -> R e2 e3 -> R e1 e3) ->
  (forall v e, R e (set_loadCancelled v e)) ->
  (forall trackId track e position e',
     indexPosition w h trackId track e position = Done e' -> R e e') ->
  forall entries s completed s',
  indexTracks db cancelAt w h entries s = Done (completed, s') ->
  R (engine s) (engine s').
Proof.
  intros Hrefl Htrans Hflag Hstep.
  induction entries as [|[trackId positions] rest IH]; intros s completed s' Hrun.
  - simpl in Hrun. by injection Hrun as <- <-.
  - cbn [indexTracks] in Hrun.
    destruct (readLoadCancelled cancelAt s) as [cancelled s1] eqn:Hread.
    apply readLoadCancelled_polled in Hread as [(_ & _ & He) _].
    assert (H1 : R (engine s) (engine s1)) by (rewrite He; apply Hflag).
    destruct cancelled; [by injection Hrun as <- <-|].
    destruct (tracks db !! trackId) as [track|].
    + apply bind_done in Hrun as (e1 & Hpos & Hrun).
      apply IH in Hrun. simpl in Hrun.
      eapply Htrans; [exact H1|]. eapply Htrans; [|exact Hrun].
      refine (foldM_steps R _ _ Hrefl Htrans _ _ _ Hpos).
      intros b p b' _. apply Hstep.
    + apply IH in Hrun. by eapply Htrans.
Qed.

Lemma indexTracks_cacheWrites entries : forall s completed s',
  indexTracks db cancelAt w h entries s = Done (completed, s') ->
  cacheWrites s' = cacheWrites s /\ cacheFile s' = cacheFile s.
Proof.
  induction entries as [|[trackId positions] rest IH]; intros s completed s' Hrun.
  - simpl in Hrun. by injection Hrun as <- <-.
  - cbn [indexTracks] in Hrun.
    destruct (readLoadCancelled cancelAt s) as [cancelled s1] eqn:Hread.
    apply readLoadCancelled_polled in Hread as [(Hf & Hw & _) _].
    destruct cancelled; [by injection Hrun as <- <-|].
    destruct (tracks db !! trackId) as [track|].
    + apply bind_done in Hrun as (e1 & _ & Hrun).
      apply IH in Hrun as [-> ->]. done.
    + apply IH in Hrun as [-> ->]. done.
Qed.

Lemma indexTracks_control entries : forall s completed s',
  indexTracks db cancelAt w h entries s = Done (completed, s') ->
  _network (engine s') = _network (engine s)
  /\ _networkRefVectorsDistanceMedian (engine s')
     = _networkRefVectorsDistanceMedian (engine s)
  /\ (_loadCancelled (engine s) = true -> _loadCancelled (engine s') = true)
  /\ (completed = false -> _loadCancelled (engine s') = true).
Proof.
  induction entries as [|[trackId positions] rest IH]; intros s completed s' Hrun.
  - simpl in Hrun. by injection Hrun as <- <-.
  - cbn [indexTracks] in Hrun.
    destruct (readLoadCancelled cancelAt s) as [cancelled s1] eqn:Hread.
    pose proof Hread as Hvalue. unfold readLoadCancelled in Hvalue.
    injection Hvalue as Hvalue _.
    apply readLoadCancelled_polled in Hread as [(_ & _ & He) Hflag].
    assert (Hcontrol : _network (engine s1) = _network (engine s)
              /\ _networkRefVectorsDistanceMedian (engine s1)
                 = _networkRefVectorsDistanceMedian (engine s))
      by (by rewrite He).
    destruct Hcontrol as [Hn Hm].
    destruct cancelled.
    + injection Hrun as <- <-. done.
    + assert (Hclear : _loadCancelled (engine s) = false)
        by (by destruct (_loadCancelled (engine s))).
      destruct (tracks db !! trackId) as [track|].
      * apply bind_done in Hrun as (e1 & Hpos & Hrun).
        apply IH in Hrun as (Hn' & Hm' & _ & Hc'). simpl in Hn', Hm'.
        assert (Hsame : sameControl (engine s1) e1).
        { refine (foldM_steps sameControl _ _ _ _ _ _ _ Hpos).
          - done.
          - intros b1 b2 b3 (A1 & A2 & A3) (B1 & B2 & B3). unfold sameControl.
            repeat split; congruence.
          - intros b p b' _. apply indexPosition_control. }
        destruct Hsame as (_ & Hn2 & Hm2).
        rewrite Hn', Hm', Hn2, Hm2. repeat split; try done. congruence.
      * apply IH in Hrun as (Hn' & Hm' & _ & Hc').
        rewrite Hn', Hm'. repeat split; try done. congruence.
Qed.

Lemma indexTracks_indexedBy entries : forall s completed s',
  indexTracks db cancelAt w h entries s = Done (completed, s') ->
  exists n,
    n <= length entries
    /\ (completed = true <-> n = length entries)
    /\ indexedBy (placedByEntries db (take n entries)) (engine s) (engine s').
Proof.
  induction entries as [|[trackId positions] rest IH]; intros s completed s' Hrun.
  - simpl in Hrun. injection Hrun as <- <-. exists 0. split; [done|]. split; [done|].
    eapply indexedBy_ext; [|apply indexedBy_refl].
    intros id track p. split; [done|]. intros (_ & ps & Hin & _).
    by apply elem_of_nil in Hin.
  - cbn [indexTracks] in Hrun.
    destruct (readLoadCancelled cancelAt s) as [cancelled s1] eqn:Hread.
    apply readLoadCancelled_polled in Hread as [(_ & _ & He) _].
    destruct cancelled.
    + injection Hrun as <- <-. exists 0. split; [simpl; lia|]. split; [done|].
      rewrite He. apply indexedBy_flag_r.
      eapply indexedBy_ext; [|apply indexedBy_refl].
      intros id track p. split; [done|]. intros (_ & ps & Hin & _).
      by apply elem_of_nil in Hin.
    + destruct (tracks db !! trackId) as [track|] eqn:Htrack.
      * apply bind_done in Hrun as (e1 & Hpos & Hrun).
        apply IH in Hrun as (n & Hn & Hcompleted & Hindexed). simpl in Hindexed.
        exists (S n). split; [simpl; lia|]. split; [simpl; rewrite Hcompleted; lia|].
        apply foldM_indexPosition_indexedBy in Hpos.
        rewrite He in Hpos. apply indexedBy_flag_l in Hpos.
        eapply indexedBy_ext; [|exact (indexedBy_trans _ _ _ _ _ Hpos Hindexed)].
        intros id track' p. cbv beta. unfold placedByEntries. cbn [take].
        setoid_rewrite elem_of_cons. split.
        -- intros [(-> & -> & Hp)|(Hfound & ps & Hin & Hp)].
           ++ split; [done|]. exists positions. split; [by left|done].
           ++ split; [done|]. exists ps. split; [by right|done].
        -- intros (Hfound & ps & [[= -> ->]|Hin] & Hp).
           ++ left. split; [done|]. split; [congruence|done].
           ++ right. split; [done|]. by exists ps.
      * apply IH in Hrun as (n & Hn & Hcompleted & Hindexed).
        exists (S n). split; [simpl; lia|]. split; [simpl; rewrite Hcompleted; lia|].
        rewrite He in Hindexed. eapply indexedBy_flag_l.
        eapply indexedBy_ext; [|exact Hindexed].
        intros id track' p. unfold placedByEntries. cbn [take].
        setoid_rewrite elem_of_cons. split.
        -- intros (Hfound & ps & Hin & Hp). split; [done|]. exists ps. split; [by right|done].
        -- intros (Hfound & ps & [[= -> ->]|Hin] & Hp); [congruence|].
           split; [done|]. by exists ps.
Qed.

Variable computeRefVectorsDistanceMedian : Network.t -> double.

(* load(network, trackPositions) is its loop, run on the engine with the
   median overwritten and the two matrices re-created, and the assignment
   of the network when the loop was not left early *)
Lemma loadModel_loop network trackPositions s s' :
  loadModel db cancelAt computeRefVectorsDistanceMedian network trackPositions s
    = Done s' <->
  exists completed s1,
    indexTracks db cancelAt (Network.width network) (Network.height network)
      (map_to_list trackPositions)
      (onEngine (resetForLoad (computeRefVectorsDistanceMedian network)
                   (Network.width network) (Network.height network)) s)
      = Done (completed, s1)
    /\ s' = if completed then onEngine (set_network (Some network)) s1 else s1.
Proof.
  unfold loadModel. cbv zeta.
  change (onEngine (set_trackMatrix ?m1)
            (onEngine (set_releaseMatrix ?m2)
               (onEngine (set_networkRefVectorsDistanceMedian ?median) s)))
    with (onEngine (resetForLoad median (Network.width network)
                      (Network.height network)) s).
  destruct (indexTracks _ _ _ _ _ _) as [[completed s1]|f]; simpl.
  - split.
    + intros Hrun. exists completed, s1. split; [done|].
      destruct completed; by injection Hrun as <-.
    + intros (c & s2 & Heq & ->). injection Heq as <- <-. by destruct completed.
  - split; [done|]. by intros (c & s2 & ? & _).
Qed.

End IndexConstruction.
(** ** Training and the cache *)

#[local] Arguments readLoadCancelled : simpl never.

Section LoadFacts.

Variable getFeatureDef : string -> FeatureDef.
Variable db : Db.
Variable cancelAt : option nat.
Variable fetch : option (Z -> gset string -> option (gmap string (list double))).
Variable initialRefVectors : Z -> Z -> nat -> gmap (Z * Z) (list double).
Variable trainIteration :
  nat -> Network.t -> list (list double) -> gmap (Z * Z) (list double).
Variable getClosestRefVectorPosition : Network.t -> list double -> Z * Z.
Variable computeRefVectorsDistanceMedian : Network.t -> double.
Variable normalizeData : list (list double) -> list double -> list double.
Variable defaultIterationCount : nat.
Variable defaultSampleCountPerNeuron : float.

Lemma prepareModel_stops trainSettings s model s' :
  prepareModel getFeatureDef db cancelAt fetch initialRefVectors trainIteration
    getClosestRefVectorPosition normalizeData trainSettings s = Done (model, s') ->
  polledOnly s s' /\ (_loadCancelled (engine s') = true -> model = None).
Proof.
  unfold prepareModel. intros Hrun.
  destruct (extractSamples _ _ _ _ _ _ _ _ _ s) as [[extracted s1]|f] eqn:Hextract;
    simpl in Hrun; [|done].
  pose proof (extractSamples_polled _ _ _ _ _ _ _ _ _ _ _ _ Hextract) as Hp1.
  destruct extracted as [[samples ids]|]; [|by injection Hrun as <- <-].
  apply extractSamples_lengths in Hextract; [|done].
  destruct samples as [|sample samples]; [by injection Hrun as <- <-|].
  destruct (buildNetwork _ _ _ _ _) as [network|f]; simpl in Hrun; [|done].
  destruct (train _ _ _ _ _ _ s1) as [network' s2] eqn:Htrain.
  apply train_polled in Htrain.
  destruct (classifyTracks _ _ _ _ _ s2) as [classified s3] eqn:Hclassify.
  pose proof (classifyTracks_polled _ _ _ _ _ _ _ _ Hclassify) as Hp3.
  assert (Hp : polledOnly s s3) by (do 2 (eapply polledOnly_trans; eauto)).
  destruct classified as [trackPositions|]; injection Hrun as <- <-; [|done].
  split; [done|]. intros Hflag.
  apply classifyTracks_completed in Hclassify; [congruence|].
  destruct ids as [|id ids]; [done|]. done.
Qed.

Lemma loadModel_cacheWrites network trackPositions s s' :
  loadModel db cancelAt computeRefVectorsDistanceMedian network trackPositions s
    = Done s' ->
  cacheWrites s' = cacheWrites s.
Proof.
  intros Hrun. apply loadModel_loop in Hrun as (completed & s1 & Hrun & ->).
  apply indexTracks_cacheWrites in Hrun as [Hw _].
  by destruct completed.
Qed.

(* A pass stopped before the index construction: the engine is as it was
   once the flag has been read, and nothing is written *)
Lemma trainAndCache_stopped s s1 :
  prepareModel getFeatureDef db cancelAt fetch initialRefVectors trainIteration
    getClosestRefVectorPosition normalizeData
    (defaultTrainSettings defaultIterationCount defaultSampleCountPerNeuron) s
    = Done (None, s1) ->
  _loadCancelled (engine s1) = true ->
  exists s',
    trainAndCache getFeatureDef db cancelAt fetch initialRefVectors trainIteration
      getClosestRefVectorPosition computeRefVectorsDistanceMedian normalizeData
      defaultIterationCount defaultSampleCountPerNeuron s = Done s'
    /\ engine s' = set_loadCancelled true (engine s)
    /\ cacheWrites s' = cacheWrites s /\ cacheFile s' = cacheFile s.
Proof.
  intros Hprep Hflag. unfold trainAndCache, loadFromTraining.
  rewrite Hprep. cbn [mbind Outcome_bind].
  rewrite readLoadCancelled_sticky by done.
  apply prepareModel_stops in Hprep as [(Hf & Hw & He) _].
  eexists. split; [done|]. simpl. rewrite Hflag in He. done.
Qed.

Lemma prepareModel_cancelled_at_entry trainSettings s :
  _loadCancelled (engine s) = true ->
  exists s1,
    prepareModel getFeatureDef db cancelAt fetch initialRefVectors trainIteration
      getClosestRefVectorPosition normalizeData trainSettings s = Done (None, s1)
    /\ _loadCancelled (engine s1) = true.
Proof.
  intros Hflag. unfold prepareModel.
  destruct (getAllIdsWithFeatures db) as [|trackId rest].
  - simpl. by exists s.
  - cbn [extractSamples]. rewrite readLoadCancelled_sticky by done.
    simpl. eexists. split; [done|]. done.
Qed.

Lemma trainAndCache_no_write_when_cancelled s s' :
  trainAndCache getFeatureDef db cancelAt fetch initialRefVectors trainIteration
    getClosestRefVectorPosition computeRefVectorsDistanceMedian normalizeData
    defaultIterationCount defaultSampleCountPerNeuron s = Done s' ->
  _loadCancelled (engine s') = true ->
  cacheWrites s' = cacheWrites s.
Proof.
  unfold trainAndCache, loadFromTraining. intros Hrun Hflag.
  destruct (prepareModel _ _ _ _ _ _ _ _ _ s) as [[model s1]|f] eqn:Hprep;
    simpl in Hrun; [|done].
  apply prepareModel_stops in Hprep as [(_ & Hw & _) _].
  assert (exists s2, cacheWrites s2 = cacheWrites s /\
            (let '(cancelled, s3) := readLoadCancelled cancelAt s2 in
             if cancelled then Done s3
             else cache ← toCache (engine s3); Done (write cache s3)) = Done s')
    as (s2 & Hw2 & Hrun2).
  { destruct model as [[network trackPositions]|]; simpl in Hrun.
    - apply bind_done in Hrun as (s2 & Hload & Hrun).
      exists s2. split; [|exact Hrun].
      apply loadModel_cacheWrites in Hload. congruence.
    - eexists. split; [|exact Hrun]. done. }
  clear Hrun.
  destruct (readLoadCancelled cancelAt s2) as [cancelled s3] eqn:Hread.
  apply readLoadCancelled_polled in Hread as [(_ & Hw3 & _) Hc].
  destruct cancelled.
  - injection Hrun2 as <-. congruence.
  - destruct (toCache (engine s3)) as [cache|f]; simpl in Hrun2; [|done].
    injection Hrun2 as <-. simpl in Hflag. congruence.
Qed.

End LoadFacts.

(** ** Loads that nobody cancels *)

Section NoCancellation.

Variable db : Db.
Variable computeRefVectorsDistanceMedian : Network.t -> double.

Lemma readLoadCancelled_quiet s :
  _loadCancelled (engine s) = false ->
  readLoadCancelled None s
  = (false, {| engine := engine s; cacheFile := cacheFile s;
               cacheWrites := cacheWrites s; clock := S (clock s) |}).
Proof.
  intros Hflag. unfold readLoadCancelled. rewrite Hflag. simpl.
  do 2 f_equal. rewrite <- Hflag. apply set_loadCancelled_same.
Qed.

(* Nobody cancels, every position lies in the grid and every matrix has
   the grid: the loop runs to its end *)
Lemma indexTracks_quiet w h entries : forall s,
  _loadCancelled (engine s) = false ->
  holdsGrid w h (engine s) ->
  (forall trackId positions position,
     (trackId, positions) ∈ entries -> position ∈ positions ->
     Matrix.inGrid w h position) ->
  exists s', indexTracks db None w h entries s = Done (true, s')
    /\ _loadCancelled (engine s') = false
    /\ holdsGrid w h (engine s')
    /\ _trackPositions (engine s')
       = foldl (trackPositionsStep db) (_trackPositions (engine s)) entries.
Proof.
  induction entries as [|[trackId positions] rest IH]; intros s Hflag Hgrid Hin.
  - exists s. by simpl.
  - cbn [indexTracks]. rewrite readLoadCancelled_quiet by done.
    cbn [foldl]. unfold trackPositionsStep at 2. cbn [fst snd].
    assert (Hrest : forall trackId positions position,
              (trackId, positions) ∈ rest -> position ∈ positions ->
              Matrix.inGrid w h position).
    { intros id ps p Hid Hp. eapply Hin; [by right|exact Hp]. }
    destruct (tracks db !! trackId) as [track|] eqn:Htrack.
    + destruct (foldM_returns (holdsGrid w h) (indexPosition w h trackId track)
                  positions) with (b := engine s) as (e1 & Hpos & Hgrid1).
      { intros b p Hp Hb. apply indexPosition_returns; [|done].
        eapply Hin; [by left|exact Hp]. }
      { done. }
      simpl. rewrite Hpos. cbn [mbind Outcome_bind].
      match goal with |- context [indexTracks _ _ _ _ _ ?s1] =>
        destruct (IH s1) as (s' & Hrun & Hflag' & Hgrid' & Htp) end.
      { simpl.
        assert (Hsame : sameControl (engine s) e1).
        { refine (foldM_steps sameControl _ _ _ _ _ _ _ Hpos).
          - done.
          - intros b1 b2 b3 (A1 & A2 & A3) (B1 & B2 & B3). unfold sameControl.
            repeat split; congruence.
          - intros b p b' _. apply indexPosition_control. }
        destruct Hsame as (-> & _). done. }
      { done. }
      { done. }
      exists s'. rewrite Hrun, Htp. simpl.
      by rewrite (foldM_indexPosition_trackPositions _ _ _ _ _ _ _ Hpos).
    + match goal with |- context [indexTracks _ _ _ _ _ ?s1] =>
        destruct (IH s1) as (s' & Hrun & Hflag' & Hgrid' & Htp) end; [done..|].
      exists s'. by rewrite Hrun, Htp.
Qed.

(* Nobody cancels: a loop that returns has run to its end *)
Lemma indexTracks_quiet_done w h entries : forall s completed s',
  _loadCancelled (engine s) = false ->
  indexTracks db None w h entries s = Done (completed, s') ->
  completed = true /\ _loadCancelled (engine s') = false.
Proof.
  induction entries as [|[trackId positions] rest IH]; intros s completed s' Hflag Hrun.
  - simpl in Hrun. by injection Hrun as <- <-.
  - cbn [indexTracks] in Hrun. rewrite readLoadCancelled_quiet in Hrun by done.
    destruct (tracks db !! trackId) as [track|]; [|eapply IH; [|exact Hrun]; done].
    apply bind_done in Hrun as (e1 & Hpos & Hrun).
    eapply IH; [|exact Hrun]. simpl.
    assert (Hsame : sameControl (engine s) e1).
    { refine (foldM_steps sameControl _ _ _ _ _ _ _ Hpos).
      - done.
      - intros b1 b2 b3 (A1 & A2 & A3) (B1 & B2 & B3). unfold sameControl.
        repeat split; congruence.
      - intros b p b' _. apply indexPosition_control. }
    destruct Hsame as (-> & _). done.
Qed.

Lemma loadModel_quiet network trackPositions s :
  _loadCancelled (engine s) = false ->
  positionsInGrid (Network.width network) (Network.height network) trackPositions ->
  (forall t matrix,
     _artistMatrix (engine s) !! t = Some matrix ->
     covers (Network.width network) (Network.height network) matrix) ->
  exists s',
    loadModel db None computeRefVectorsDistanceMedian network trackPositions s
      = Done s'
    /\ _network (engine s') = Some network
    /\ _loadCancelled (engine s') = false
    /\ _trackPositions (engine s')
       = foldl (trackPositionsStep db) (_trackPositions (engine s))
           (map_to_list trackPositions).
Proof.
  intros Hflag Hin Hartists.
  destruct (indexTracks_quiet (Network.width network) (Network.height network)
              (map_to_list trackPositions)
              (onEngine (resetForLoad (computeRefVectorsDistanceMedian network)
                           (Network.width network) (Network.height network)) s))
    as (s1 & Hrun & Hflag1 & _ & Htp).
  - done.
  - unfold holdsGrid, covers. simpl. split; [lia|split; [lia|done]].
  - intros trackId positions position Hentry Hp.
    apply elem_of_map_to_list in Hentry. by eapply Hin.
  - exists (onEngine (set_network (Some network)) s1). split.
    + apply loadModel_loop. by exists true, s1.
    + simpl. by rewrite Htp.
Qed.

End NoCancellation.
(** ** The engines that can be reached *)

Lemma loadModel_steps (R : FeaturesEngine -> FeaturesEngine -> Prop)
    db cancelAt median network trackPositions s s' :
  (forall e, R e e) ->
  (forall e1 e2 e3, R e1 e2 -> R e2 e3 -> R e1 e3) ->
  (forall v e, R e (set_loadCancelled v e)) ->
  (forall v e, R e (set_network v e)) ->
  (forall trackId track e position e',
     indexPosition (Network.width network) (Network.height network)
       trackId track e position = Done e' -> R e e') ->
  loadModel db cancelAt median network trackPositions s = Done s' ->
  R (resetForLoad (median network) (Network.width network) (Network.height network)
       (engine s)) (engine s').
Proof.
  intros Hrefl Htrans Hflag Hnetwork Hstep Hrun.
  apply loadModel_loop in Hrun as (completed & s1 & Hrun & ->).
  apply (indexTracks_steps db cancelAt _ _ R Hrefl Htrans Hflag Hstep) in Hrun.
  simpl in Hrun. destruct completed; [|done].
  eapply Htrans; [exact Hrun|apply Hnetwork].
Qed.

Lemma loadModel_distinctIndex db cancelAt median network trackPositions s s' :
  loadModel db cancelAt median network trackPositions s = Done s' ->
  distinctIndex (engine s) -> distinctIndex (engine s').
Proof.
  intros Hrun (D1 & D2 & D3 & D4 & D5 & D6).
  refine (loadModel_steps (fun e e' => distinctIndex e -> distinctIndex e')
            _ _ _ _ _ _ _ _ _ _ _ _ Hrun _).
  - done.
  - intros e1 e2 e3 H12 H23 H1. by apply H23, H12.
  - done.
  - done.
  - intros trackId track e position e'. apply indexPosition_distinct.
  - unfold distinctIndex. simpl. repeat apply conj; try done; apply new_distinct.
Qed.

Lemma newEngine_distinctIndex : distinctIndex newEngine.
Proof.
  assert (Hempty : distinctPositions (∅ : gmap Z (list (Z * Z)))).
  { intros id ps Hlookup. by rewrite lookup_empty in Hlookup. }
  unfold distinctIndex. repeat apply conj; try done; apply new_distinct.
Qed.

Lemma reachable_distinct e :
  reachable e -> distinctPositions (_trackPositions e).
Proof.
  intros Hreach. cut (distinctIndex e); [by intros (? & _)|].
  induction Hreach as [|v e _ IH|db cancelAt median network trackPositions s s' _ IH Hrun].
  - apply newEngine_distinctIndex.
  - done.
  - by eapply loadModel_distinctIndex.
Qed.

(* An engine that lists no position of a track has no artist matrix *)
Lemma reachable_artists_after_tracks e :
  reachable e -> _trackPositions e = ∅ -> _artistMatrix e = ∅.
Proof.
  induction 1 as [|v e _ IH|db cancelAt median network trackPositions s s' _ IH Hrun].
  - done.
  - done.
  - refine (loadModel_steps
              (fun e e' => (_trackPositions e = ∅ -> _artistMatrix e = ∅)
                           -> _trackPositions e' = ∅ -> _artistMatrix e' = ∅)
              _ _ _ _ _ _ _ _ _ _ _ _ Hrun IH).
    + done.
    + intros e1 e2 e3 H12 H23 H1. by apply H23, H12.
    + done.
    + done.
    + intros trackId track e position e' Hstep _ Hempty.
      apply indexPosition_trackPositions in Hstep. rewrite Hstep in Hempty.
      unfold addPosition in Hempty. by apply insert_non_empty in Hempty.
Qed.

(* load(bool, ...) keeps the engine among the reachable ones *)
Lemma load_reachable
    (getFeatureDef : string -> FeatureDef) (db : Db) (cancelAt : option nat)
    (fetch : option (Z -> gset string -> option (gmap string (list double))))
    (initialRefVectors : Z -> Z -> nat -> gmap (Z * Z) (list double))
    (trainIteration :
       nat -> Network.t -> list (list double) -> gmap (Z * Z) (list double))
    (getClosestRefVectorPosition : Network.t -> list double -> Z * Z)
    (computeRefVectorsDistanceMedian : Network.t -> double)
    (normalizeData : list (list double) -> list double -> list double)
    (defaultIterationCount : nat) (defaultSampleCountPerNeuron : float)
    (forceReload : bool) (s s' : Sys) :
  load getFeatureDef db cancelAt fetch initialRefVectors trainIteration
    getClosestRefVectorPosition computeRefVectorsDistanceMedian normalizeData
    defaultIterationCount defaultSampleCountPerNeuron forceReload s = Done s' ->
  reachable (engine s) -> reachable (engine s').
Proof.
  intros Hrun Hs.
  assert (Htrain : forall s0,
    engine s0 = engine s ->
    trainAndCache getFeatureDef db cancelAt fetch initialRefVectors trainIteration
      getClosestRefVectorPosition computeRefVectorsDistanceMedian normalizeData
      defaultIterationCount defaultSampleCountPerNeuron s0 = Done s' ->
    reachable (engine s')).
  { intros s0 Hs0 Hdone. unfold trainAndCache, loadFromTraining in Hdone.
    destruct (prepareModel _ _ _ _ _ _ _ _ _ s0) as [[model s1]|f] eqn:Hprep;
      simpl in Hdone; [|done].
    apply prepareModel_stops in Hprep as [(_ & _ & He1) _].
    assert (Hs1 : reachable (engine s1))
      by (rewrite He1, Hs0; by apply reachable_flag).
    assert (exists s2, reachable (engine s2) /\
              (let '(cancelled, s3) := readLoadCancelled cancelAt s2 in
               if cancelled then Done s3
               else cache ← toCache (engine s3); Done (write cache s3)) = Done s')
      as (s2 & Hs2 & Hdone2).
    { destruct model as [[network trackPositions]|]; simpl in Hdone.
      - apply bind_done in Hdone as (s2 & Hload & Hdone).
        exists s2. split; [|exact Hdone]. by eapply reachable_loadModel.
      - eexists. split; [|exact Hdone]. done. }
    clear Hdone.
    destruct (readLoadCancelled cancelAt s2) as [cancelled s3] eqn:Hread.
    apply readLoadCancelled_polled in Hread as [(_ & _ & He3) _].
    assert (Hs3 : reachable (engine s3)) by (rewrite He3; by apply reachable_flag).
    destruct cancelled; [by injection Hdone2 as <-|].
    destruct (toCache (engine s3)) as [cache|f]; simpl in Hdone2; [|done].
    by injection Hdone2 as <-. }
  unfold load in Hrun. destruct forceReload; [by apply (Htrain (invalidate s))|].
  destruct (cacheFile s) as [cache|]; [|by apply (Htrain s)].
  by eapply reachable_loadModel.
Qed.

(* The engines of the concrete scenarios are reachable *)
Lemma loadedA_reachable : reachable (engine Scenario.loadedA).
Proof.
  apply (reachable_loadModel Scenario.catalog None Scenario.median
           Scenario.network {[ 1%Z := [(0%Z, 0%Z)] ]} Scenario.fresh
           Scenario.loadedA reachable_new).
  vm_compute. reflexivity.
Qed.

(** C1 (amended). Take a model that toCache() captured from an engine
    (any engine the member functions produce from a freshly constructed
    one), all of whose positions lie in the grid of its network. Adopting
    it from the cache into such an engine that holds no track positions
    yet, with no cancellation requested, returns, and toCache() then
    returns the adopted Network and, for every track that the catalog still
    holds, the adopted positions; it returns no positions for the other
    tracks. When all tracks of the model still exist in the catalog,
    toCache() returns exactly the adopted model. *)
Theorem cache_round_trip
    (db : Db) (computeRefVectorsDistanceMedian : Network.t -> double)
    (captured : FeaturesEngine) (cache : FeaturesEngineCache) (s : Sys) :
  reachable captured ->
  toCache captured = Done cache ->
  positionsInGrid (Network.width (_cacheNetwork cache))
    (Network.height (_cacheNetwork cache)) (_cacheTrackPositions cache) ->
  reachable (engine s) ->
  _loadCancelled (engine s) = false ->
  _trackPositions (engine s) = ∅ ->
  exists s' recaptured,
    loadFromCache db None computeRefVectorsDistanceMedian cache s = Done s'
    /\ toCache (engine s') = Done recaptured
    /\ _cacheNetwork recaptured = _cacheNetwork cache
    /\ (forall trackId,
          _cacheTrackPositions recaptured !! trackId
          = match tracks db !! trackId with
            | Some _ => _cacheTrackPositions cache !! trackId
            | None => None
            end)
    /\ ((forall trackId, trackId ∈ dom (_cacheTrackPositions cache) ->
           is_Some (tracks db !! trackId)) ->
        recaptured = cache).
Proof.
  intros Hreach Hcaptured Hgrid Hs Hflag Hempty.
  assert (Hdistinct : distinctPositions (_cacheTrackPositions cache)).
  { apply reachable_distinct in Hreach. unfold toCache in Hcaptured.
    destruct (_network captured); [|done]. by injection Hcaptured as <-. }
  destruct (loadModel_quiet db computeRefVectorsDistanceMedian
              (_cacheNetwork cache) (_cacheTrackPositions cache) s Hflag Hgrid)
    as (s' & Hrun & Hnetwork & _ & Htp).
  { intros t matrix Hlookup.
    rewrite (reachable_artists_after_tracks _ Hs Hempty) in Hlookup.
    by rewrite lookup_empty in Hlookup. }
  rewrite Hempty in Htp.
  exists s', {| _cacheNetwork := _cacheNetwork cache;
                _cacheTrackPositions := _trackPositions (engine s') |}.
  split; [exact Hrun|]. split; [unfold toCache; by rewrite Hnetwork|].
  split; [done|]. split.
  - intros trackId. simpl. rewrite Htp. by apply rebuild_lookup.
  - intros Hexist. rewrite Htp, rebuild_trackPositions; [by destruct cache|].
    intros trackId positions Hlookup. split.
    + apply Hexist, elem_of_dom. by eexists.
    + by apply (Hdistinct trackId positions).
Qed.

Lemma cache_round_trip_witness :
  reachable (engine Scenario.loadedA)
  /\ toCache (engine Scenario.loadedA) = Done Scenario.modelA
  /\ positionsInGrid 2 2 (_cacheTrackPositions Scenario.modelA)
  /\ reachable (engine Scenario.fresh)
  /\ _loadCancelled (engine Scenario.fresh) = false
  /\ _trackPositions (engine Scenario.fresh) = ∅
  /\ exists s' recaptured,
       loadFromCache Scenario.catalog None Scenario.median Scenario.modelA
         Scenario.fresh = Done s'
       /\ toCache (engine s') = Done recaptured
       /\ _cacheNetwork recaptured = _cacheNetwork Scenario.modelA
       /\ (forall trackId,
             _cacheTrackPositions recaptured !! trackId
             = match tracks Scenario.catalog !! trackId with
               | Some _ => _cacheTrackPositions Scenario.modelA !! trackId
               | None => None
               end)
       /\ ((forall trackId,
              trackId ∈ dom (_cacheTrackPositions Scenario.modelA) ->
              is_Some (tracks Scenario.catalog !! trackId)) ->
           recaptured = Scenario.modelA).
Proof.
  assert (Hcaptured : toCache (engine Scenario.loadedA) = Done Scenario.modelA)
    by (vm_compute; reflexivity).
  assert (Hgrid : positionsInGrid 2 2 (_cacheTrackPositions Scenario.modelA)).
  { intros trackId positions position Hlookup Hin.
    change (_cacheTrackPositions Scenario.modelA)
      with ({[ 1%Z := [(0%Z, 0%Z)] ]} : gmap Z (list (Z * Z))) in Hlookup.
    apply lookup_singleton_Some in Hlookup as [_ <-].
    apply list_elem_of_singleton in Hin as ->. unfold Matrix.inGrid. simpl. lia. }
  split; [exact loadedA_reachable|]. split; [exact Hcaptured|].
  split; [exact Hgrid|]. split; [exact reachable_new|].
  split; [reflexivity|]. split; [reflexivity|].
  exact (cache_round_trip Scenario.catalog Scenario.median (engine Scenario.loadedA)
           Scenario.modelA Scenario.fresh loadedA_reachable Hcaptured Hgrid
           reachable_new eq_refl eq_refl).
Defined.

(* The claim as stated fails twice. A model, captured by toCache() when
   track 7 existed, places that track; the catalog no longer holds it, the
   index construction skips it, and toCache() captures an empty
   TrackPositions. And the model that toCache() captures from an engine
   that adopted a grid 4 wide and then one 2 wide keeps position (3,3) of
   track 1 under the network 2 wide: all its tracks exist, and its
   adoption accesses the track matrix outside its cells. *)
Lemma cache_round_trip_fails :
  ((exists captured,
       reachable captured
       /\ toCache captured = Done Scenario.modelWithRemovedTrack)
   /\ Scenario.catalog.(tracks) !! 7%Z = None
   /\ exists s',
        loadFromCache Scenario.catalog None Scenario.median
          Scenario.modelWithRemovedTrack Scenario.fresh = Done s'
        /\ toCache (engine s') <> Done Scenario.modelWithRemovedTrack)
  /\ ((exists captured,
         reachable captured
         /\ toCache captured = Done Scenario.modelOutsideGrid)
      /\ (forall trackId,
            trackId ∈ dom (_cacheTrackPositions Scenario.modelOutsideGrid) ->
            is_Some (tracks Scenario.catalog !! trackId))
      /\ loadFromCache Scenario.catalog None Scenario.median
           Scenario.modelOutsideGrid Scenario.fresh = Failed OutOfRange).
Proof.
  split; [split; [|split; [vm_compute; reflexivity|]]|split; [|split]].
  - exists (engine (stateOr Scenario.fresh
                      (loadFromCache Scenario.earlierCatalog None Scenario.median
                         Scenario.modelWithRemovedTrack Scenario.fresh))).
    split; [|vm_compute; reflexivity].
    apply (reachable_loadModel Scenario.earlierCatalog None Scenario.median
             Scenario.network {[ 7%Z := [(0%Z, 0%Z)] ]} Scenario.fresh _
             reachable_new).
    vm_compute. reflexivity.
  - eexists. split; [vm_compute; reflexivity|].
    intros H.
    apply (f_equal (fun o => match o with
                             | Done cache => _cacheTrackPositions cache !! 7%Z
                             | Failed _ => None
                             end)) in H.
    vm_compute in H. discriminate.
  - exists (engine Scenario.loadedWideThenB).
    split; [|vm_compute; reflexivity].
    apply (reachable_loadModel Scenario.catalog None Scenario.median
             Scenario.network {[ 1%Z := [(1%Z, 1%Z)] ]}
             (stateOr Scenario.fresh
                (loadFromCache Scenario.catalog None Scenario.median
                   Scenario.modelWide Scenario.fresh))
             Scenario.loadedWideThenB); [|vm_compute; reflexivity].
    apply (reachable_loadModel Scenario.catalog None Scenario.median
             Scenario.wideNetwork {[ 1%Z := [(3%Z, 3%Z)] ]} Scenario.fresh _
             reachable_new).
    vm_compute. reflexivity.
  - intros trackId Hin.
    change (_cacheTrackPositions Scenario.modelOutsideGrid)
      with ({[ 1%Z := [(3%Z, 3%Z); (1%Z, 1%Z)] ]} : gmap Z (list (Z * Z))) in Hin.
    rewrite dom_singleton_L in Hin. apply elem_of_singleton in Hin as ->.
    by vm_compute; eexists.
  - vm_compute. reflexivity.
Qed.
(** ** A batch of tracks *)

Lemma omap_cons {A B} (f : A -> option B) (x : A) (l : list A) :
  omap f (x :: l) = match f x with Some y => y :: omap f l | None => omap f l end.
Proof. done. Qed.

Section Batch.

Variable getFeatureDef : string -> FeatureDef.
Variable db : Db.
Variable fetch : option (Z -> gset string -> option (gmap string (list double))).
Variable featureNames : gset string.
Variable nbDims : nat.

Lemma extractSamples_quiet trackIds : forall samples ids s1 s2,
  _loadCancelled (engine s1) = false ->
  _loadCancelled (engine s2) = false ->
  resultOf (extractSamples getFeatureDef db None fetch featureNames nbDims
              trackIds samples ids s1)
  = resultOf (extractSamples getFeatureDef db None fetch featureNames nbDims
                trackIds samples ids s2).
Proof.
  induction trackIds as [|trackId rest IH]; intros samples ids s1 s2 H1 H2; [done|].
  cbn [extractSamples]. rewrite !readLoadCancelled_quiet by done.
  destruct (fetchFeatureValues db fetch trackId featureNames) as [m|]; [|by apply IH].
  destruct (convertFeatureValuesMapToInputVector getFeatureDef m nbDims)
    as [[v|]|f]; cbn [mbind Outcome_bind]; [by apply IH|by apply IH|done].
Qed.

Lemma extractSamples_skips trackId before after :
  (exists m, fetchFeatureValues db fetch trackId featureNames = Some m
     /\ convertFeatureValuesMapToInputVector getFeatureDef m nbDims = Done None) ->
  forall samples ids s,
  _loadCancelled (engine s) = false ->
  resultOf (extractSamples getFeatureDef db None fetch featureNames nbDims
              (before ++ trackId :: after) samples ids s)
  = resultOf (extractSamples getFeatureDef db None fetch featureNames nbDims
                (before ++ after) samples ids s).
Proof.
  intros (m & Hfetch & Hconv).
  induction before as [|b before IH]; intros samples ids s Hflag.
  - cbn [app extractSamples]. rewrite readLoadCancelled_quiet by done.
    rewrite Hfetch, Hconv. cbn [mbind Outcome_bind].
    by apply extractSamples_quiet.
  - cbn [app extractSamples]. rewrite !readLoadCancelled_quiet by done.
    destruct (fetchFeatureValues db fetch b featureNames) as [mb|]; [|by apply IH].
    destruct (convertFeatureValuesMapToInputVector getFeatureDef mb nbDims)
      as [[v|]|f]; cbn [mbind Outcome_bind]; [by apply IH|by apply IH|done].
Qed.

(* A loop that nobody cancels and in which no vector construction overruns
   its vector collects the sample of every track that has one, in the
   order of the batch *)
Lemma extractSamples_quiet_collects trackIds : forall samples ids s,
  _loadCancelled (engine s) = false ->
  (forall trackId m,
     trackId ∈ trackIds ->
     fetchFeatureValues db fetch trackId featureNames = Some m ->
     exists r, convertFeatureValuesMapToInputVector getFeatureDef m nbDims = Done r) ->
  resultOf (extractSamples getFeatureDef db None fetch featureNames nbDims
              trackIds samples ids s)
  = Done (Some (samples
                ++ omap (sampleOf getFeatureDef db fetch featureNames nbDims) trackIds,
                ids
                ++ filter (fun trackId =>
                             is_Some (sampleOf getFeatureDef db fetch featureNames
                                        nbDims trackId)) trackIds)).
Proof.
  induction trackIds as [|trackId rest IH]; intros samples ids s Hflag Hreturns.
  - simpl. by rewrite !app_nil_r.
  - cbn [extractSamples]. rewrite readLoadCancelled_quiet by done.
    assert (Hrest : forall trackId m,
              trackId ∈ rest ->
              fetchFeatureValues db fetch trackId featureNames = Some m ->
              exists r,
                convertFeatureValuesMapToInputVector getFeatureDef m nbDims = Done r).
    { intros id m Hin. apply Hreturns. by right. }
    rewrite omap_cons.
    destruct (fetchFeatureValues db fetch trackId featureNames) as [m|] eqn:Hfetch.
    + destruct (Hreturns trackId m) as (r & Hconv); [by left|done|].
      rewrite Hconv. cbn [mbind Outcome_bind].
      destruct r as [v|].
      * assert (Hsample : sampleOf getFeatureDef db fetch featureNames nbDims trackId
                          = Some v)
          by (unfold sampleOf; by rewrite Hfetch, Hconv).
        rewrite Hsample, filter_cons_True by (rewrite Hsample; by eexists).
        rewrite IH by done. by rewrite <- !app_assoc.
      * assert (Hsample : sampleOf getFeatureDef db fetch featureNames nbDims trackId
                          = None)
          by (unfold sampleOf; by rewrite Hfetch, Hconv).
        rewrite Hsample, filter_cons_False by (rewrite Hsample; by intros [? ?]).
        by rewrite IH.
    + assert (Hsample : sampleOf getFeatureDef db fetch featureNames nbDims trackId
                        = None)
        by (unfold sampleOf; by rewrite Hfetch).
      rewrite Hsample, filter_cons_False by (rewrite Hsample; by intros [? ?]).
      by rewrite IH.
Qed.

End Batch.

(** C9 (amended). If a feature of the value map fetched for a track has a
    stored value count different from its declared nbDimensions, the vector
    construction yields no vector, whatever the vector size; when the map
    holds requested features only, it returns the empty optional, and the
    extraction loop (not cancelled) goes on with the remaining tracks: what
    it collects is what it collects from the batch without that track, and
    when the maps of the other tracks hold requested features only, these
    are the samples and the ids of the other tracks that have a valid
    vector, in the order of the batch. *)
Theorem dimension_mismatch_drops_sample
    (getFeatureDef : string -> FeatureDef) (db : Db)
    (fetch : option (Z -> gset string -> option (gmap string (list double))))
    (featureNames : gset string) (trackId : Z)
    (featureValuesMap : gmap string (list double))
    (featureName : string) (values : list double) :
  fetchFeatureValues db fetch trackId featureNames = Some featureValuesMap ->
  featureValuesMap !! featureName = Some values ->
  length values <> nbDimensions (getFeatureDef featureName) ->
  dom featureValuesMap ⊆ featureNames ->
  let nbDims := totalDimensions getFeatureDef featureNames in
  convertFeatureValuesMapToInputVector getFeatureDef featureValuesMap nbDims = Done None
  /\ (forall n v,
        convertFeatureValuesMapToInputVector getFeatureDef featureValuesMap n
        <> Done (Some v))
  /\ forall before after samples ids s,
       _loadCancelled (engine s) = false ->
       resultOf (extractSamples getFeatureDef db None fetch featureNames nbDims
                   (before ++ trackId :: after) samples ids s)
       = resultOf (extractSamples getFeatureDef db None fetch featureNames nbDims
                     (before ++ after) samples ids s)
       /\ ((forall otherId m,
              otherId ∈ before ++ after ->
              fetchFeatureValues db fetch otherId featureNames = Some m ->
              dom m ⊆ featureNames) ->
           resultOf (extractSamples getFeatureDef db None fetch featureNames nbDims
                       (before ++ trackId :: after) samples ids s)
           = Done (Some (samples
                         ++ omap (sampleOf getFeatureDef db fetch featureNames nbDims)
                              (before ++ after),
                         ids
                         ++ filter (fun otherId =>
                                      is_Some (sampleOf getFeatureDef db fetch
                                                 featureNames nbDims otherId))
                              (before ++ after)))).
Proof.
  intros Hfetch Hm Hne Hsub nbDims.
  assert (Hnone : convertFeatureValuesMapToInputVector getFeatureDef
                    featureValuesMap nbDims = Done None)
    by (by eapply convert_mismatch_none).
  split; [done|]. split.
  - by eapply convert_mismatch_never_some.
  - intros before after samples ids s Hflag.
    assert (Hskip :
      resultOf (extractSamples getFeatureDef db None fetch featureNames nbDims
                  (before ++ trackId :: after) samples ids s)
      = resultOf (extractSamples getFeatureDef db None fetch featureNames nbDims
                    (before ++ after) samples ids s)).
    { apply extractSamples_skips; [|done]. by exists featureValuesMap. }
    split; [exact Hskip|]. intros Hothers. rewrite Hskip.
    apply extractSamples_quiet_collects; [done|].
    intros otherId m Hin Hother. apply convert_requested_returns. by eapply Hothers.
Qed.

Lemma dimension_mismatch_drops_sample_witness :
  fetchFeatureValues Scenario.catalog Cases.mixedFetch 5%Z {[ "a"%string ]}
    = Some Scenario.shortValues
  /\ Scenario.shortValues !! "a"%string = Some []
  /\ length ([] : list double) <> nbDimensions (Scenario.featureDef "a"%string)
  /\ dom Scenario.shortValues ⊆ ({[ "a"%string ]} : gset string)
  /\ convertFeatureValuesMapToInputVector Scenario.featureDef Scenario.shortValues
       (totalDimensions Scenario.featureDef {[ "a"%string ]}) = Done None
  /\ resultOf (extractSamples Scenario.featureDef Scenario.catalog None Cases.mixedFetch
                 {[ "a"%string ]} (totalDimensions Scenario.featureDef {[ "a"%string ]})
                 ([1%Z] ++ 5%Z :: [2%Z]) [] [] Scenario.fresh)
     = Done (Some ([[Double.zero]; [Double.zero]], [1%Z; 2%Z])).
Proof.
  assert (Hsub : dom Scenario.shortValues ⊆ ({[ "a"%string ]} : gset string))
    by (apply (bool_decide_unpack _); vm_compute; exact I).
  split; [reflexivity|]. split; [vm_compute; reflexivity|]. split; [simpl; lia|].
  split; [exact Hsub|].
  destruct (dimension_mismatch_drops_sample Scenario.featureDef Scenario.catalog
              Cases.mixedFetch {[ "a"%string ]} 5%Z Scenario.shortValues
              "a"%string []) as (Hnone & _ & Hbatch).
  - reflexivity.
  - vm_compute. reflexivity.
  - simpl. lia.
  - exact Hsub.
  - split; [exact Hnone|].
    destruct (Hbatch [1%Z] [2%Z] [] [] Scenario.fresh eq_refl) as [_ Hcollected].
    rewrite Hcollected; [vm_compute; reflexivity|].
    intros otherId m _ Hother. unfold fetchFeatureValues, Cases.mixedFetch in Hother.
    destruct (decide (otherId = 5%Z)); injection Hother as <-;
      apply (bool_decide_unpack _); vm_compute; exact I.
Defined.

(* The claim as stated fails: the map fetched for a track holds no value
   for the requested feature "b", of one dimension, and the two values of
   "a", a feature that was not requested. The vector has the one dimension
   of "b"; the values of "a", which the iteration meets first, are written
   past its end, and neither the construction nor the extraction loop
   returns, with one track or with tracks that follow. *)
Lemma dimension_mismatch_out_of_range :
  fetchFeatureValues Scenario.catalog Cases.unrequestedFetch 5%Z {[ "b"%string ]}
    = Some Cases.unrequestedValues
  /\ Cases.unrequestedValues !! "b"%string = Some []
  /\ length ([] : list double) <> nbDimensions (Cases.unevenFeatureDef "b"%string)
  /\ map fst (map_to_list Cases.unrequestedValues) = ["a"%string; "b"%string]
  /\ convertFeatureValuesMapToInputVector Cases.unevenFeatureDef Cases.unrequestedValues
       (totalDimensions Cases.unevenFeatureDef {[ "b"%string ]})
     = Failed OutOfRange
  /\ extractSamples Cases.unevenFeatureDef Scenario.catalog None Cases.unrequestedFetch
       {[ "b"%string ]} (totalDimensions Cases.unevenFeatureDef {[ "b"%string ]})
       [5%Z; 1%Z] [] [] Scenario.fresh
     = Failed OutOfRange.
Proof.
  split; [reflexivity|]. split; [vm_compute; reflexivity|]. split; [simpl; lia|].
  split; [vm_compute; reflexivity|]. split; vm_compute; reflexivity.
Qed.
(** ** Cancellation *)

(** C4 (amended). In a load that trains (force-reload, or no cache to
    adopt): if cancellation was requested before load() is called, or is
    seen by a read of the flag made while the samples are extracted, the
    network is trained or the tracks are classified, then the pass produces
    no model and load() returns with every member of the engine but the
    flag as it was and with no cache write. In every load, no cache write
    is made when the flag is set as load() returns. requestCancelLoad()
    changes nothing but the flag, so a model already loaded stays. (What a
    cancellation seen during the index construction leaves behind is not
    part of the statement.) *)
Theorem cancellation_before_indexing
    (getFeatureDef : string -> FeatureDef) (db : Db) (cancelAt : option nat)
    (fetch : option (Z -> gset string -> option (gmap string (list double))))
    (initialRefVectors : Z -> Z -> nat -> gmap (Z * Z) (list double))
    (trainIteration : nat -> Network.t -> list (list double) -> gmap (Z * Z) (list double))
    (getClosestRefVectorPosition : Network.t -> list double -> Z * Z)
    (computeRefVectorsDistanceMedian : Network.t -> double)
    (normalizeData : list (list double) -> list double -> list double)
    (defaultIterationCount : nat) (defaultSampleCountPerNeuron : float)
    (forceReload : bool) (s : Sys) :
  let run :=
    load getFeatureDef db cancelAt fetch initialRefVectors trainIteration
      getClosestRefVectorPosition computeRefVectorsDistanceMedian normalizeData
      defaultIterationCount defaultSampleCountPerNeuron in
  let prepare :=
    prepareModel getFeatureDef db cancelAt fetch initialRefVectors trainIteration
      getClosestRefVectorPosition normalizeData
      (defaultTrainSettings defaultIterationCount defaultSampleCountPerNeuron) in
  (forceReload = true \/ cacheFile s = None ->
     (_loadCancelled (engine s) = true ->
        exists s', run forceReload s = Done s'
          /\ engine s' = engine s /\ cacheWrites s' = cacheWrites s)
     /\ (forall model s1,
           prepare (if forceReload then invalidate s else s) = Done (model, s1) ->
           _loadCancelled (engine s1) = true ->
           model = None
           /\ exists s', run forceReload s = Done s'
                /\ engine s' = set_loadCancelled true (engine s)
                /\ cacheWrites s' = cacheWrites s))
  /\ (forall s',
        run forceReload s = Done s' -> _loadCancelled (engine s') = true ->
        cacheWrites s' = cacheWrites s)
  /\ (forall e,
        toCache (requestCancelLoad e) = toCache e
        /\ set_loadCancelled (_loadCancelled e) (requestCancelLoad e) = e).
Proof.
  intros run prepare.
  set (start := if forceReload then invalidate s else s).
  assert (Hstart : engine start = engine s /\ cacheWrites start = cacheWrites s)
    by (unfold start; by destruct forceReload).
  destruct Hstart as [Hengine Hwrites].
  split; [|split].
  - intros Hpath.
    assert (Hrun : run forceReload s =
                   trainAndCache getFeatureDef db cancelAt fetch initialRefVectors
                     trainIteration getClosestRefVectorPosition
                     computeRefVectorsDistanceMedian normalizeData
                     defaultIterationCount defaultSampleCountPerNeuron start).
    { unfold run, load, start. destruct forceReload; [done|].
      destruct Hpath as [?| ->]; done. }
    assert (Hobserved : forall model s1,
              prepare start = Done (model, s1) -> _loadCancelled (engine s1) = true ->
              model = None
              /\ exists s', run forceReload s = Done s'
                   /\ engine s' = set_loadCancelled true (engine s)
                   /\ cacheWrites s' = cacheWrites s).
    { intros model s1 Hprep Hflag.
      destruct (prepareModel_stops _ _ _ _ _ _ _ _ _ _ _ _ Hprep) as [_ Hnone].
      specialize (Hnone Hflag). subst model. split; [done|].
      destruct (trainAndCache_stopped _ _ _ _ _ _ _ computeRefVectorsDistanceMedian
                  _ _ _ _ _ Hprep Hflag) as (s' & Hdone & He & Hw & _).
      exists s'. rewrite Hrun, <- Hengine, <- Hwrites. done. }
    split; [|exact Hobserved].
    intros Hflag.
    destruct (prepareModel_cancelled_at_entry getFeatureDef db cancelAt fetch
                initialRefVectors trainIteration getClosestRefVectorPosition
                normalizeData
                (defaultTrainSettings defaultIterationCount defaultSampleCountPerNeuron)
                start)
      as (s1 & Hprep & Hflag1); [by rewrite Hengine|].
    destruct (Hobserved None s1 Hprep Hflag1) as (_ & s' & Hdone & He & Hw).
    exists s'. split; [done|]. split; [|done].
    rewrite He, <- Hflag. apply set_loadCancelled_same.
  - intros s' Hdone Hflag. unfold run, load in Hdone.
    destruct forceReload.
    + apply trainAndCache_no_write_when_cancelled in Hdone; done.
    + destruct (cacheFile s) as [cache|].
      * by apply loadModel_cacheWrites in Hdone.
      * apply trainAndCache_no_write_when_cancelled in Hdone; done.
  - intros e. split; [done|]. by destruct e.
Qed.

Lemma cancellation_before_indexing_witness :
  (* requested before load() is called *)
  ((true = true \/ cacheFile Scenario.cancelledWithCacheB = None)
   /\ _loadCancelled (engine Scenario.cancelledWithCacheB) = true
   /\ exists s', Scenario.run None true Scenario.cancelledWithCacheB = Done s'
        /\ engine s' = engine Scenario.cancelledWithCacheB
        /\ cacheWrites s' = cacheWrites Scenario.cancelledWithCacheB)
  (* requested after the first read of the flag: seen while the network
     is trained *)
  /\ exists s1,
       Scenario.prepareAnalysed (Some 1) (invalidate Scenario.loadedA) = Done (None, s1)
       /\ _loadCancelled (engine Scenario.loadedA) = false
       /\ _loadCancelled (engine s1) = true
       /\ exists s', Scenario.runAnalysed (Some 1) true Scenario.loadedA = Done s'
            /\ engine s' = set_loadCancelled true (engine Scenario.loadedA)
            /\ cacheWrites s' = cacheWrites Scenario.loadedA.
Proof.
  split.
  - split; [by left|]. split; [reflexivity|].
    destruct (cancellation_before_indexing Scenario.featureDef Scenario.catalog None None
                Scenario.initialRefVectors Scenario.trainIteration Scenario.closest
                Scenario.median Scenario.normalize 10 (Float.ofZ 4) true
                Scenario.cancelledWithCacheB) as [Htraining _].
    destruct (Htraining (or_introl eq_refl)) as [Hentry _].
    apply Hentry. reflexivity.
  - eexists.
    assert (Hprep : Scenario.prepareAnalysed (Some 1) (invalidate Scenario.loadedA)
                    = Done (None, _)) by (vm_compute; reflexivity).
    split; [exact Hprep|]. split; [reflexivity|]. split; [reflexivity|].
    destruct (cancellation_before_indexing Scenario.featureDef Scenario.analysedCatalog
                (Some 1) None Scenario.initialRefVectors Scenario.trainIteration
                Scenario.closestIsCorner Scenario.median Scenario.normalize 10
                (Float.ofZ 4) true Scenario.loadedA) as [Htraining _].
    destruct (Htraining (or_introl eq_refl)) as [_ Hobserved].
    destruct (Hobserved None _ Hprep eq_refl) as [_ Hdone]. exact Hdone.
Defined.

(* The claim as stated fails: cancellation is requested before load() is
   called, the cache holds model B, and load() adopts it: the matrices of
   the engine, built from model A, are replaced before the first read of
   the flag. *)
Lemma cancelled_cache_adoption_rebuilds_index :
  _loadCancelled (engine Scenario.cancelledWithCacheB) = true
  /\ exists s', Scenario.run None false Scenario.cancelledWithCacheB = Done s'
       /\ engine s' <> engine Scenario.cancelledWithCacheB.
Proof.
  split; [reflexivity|]. eexists. split; [vm_compute; reflexivity|].
  intros H. apply (f_equal (fun e => Matrix.get (_trackMatrix e) (0%Z, 0%Z))) in H.
  vm_compute in H. discriminate.
Qed.

(** C2 (the code at the failing input). No track of the catalog has
    features. load(false) adopts the cached model A and writes nothing;
    load(true) on the same engine then finds no sample: loadFromTraining
    returns at "Nothing to classify" with the flag clear, and load() goes on
    to toCache().write(): the cache is written with model A, which no
    training produced. On an engine that never loaded a model, the same
    call dereferences the empty network pointer in toCache(). *)
Theorem empty_corpus_writes_cache :
  getAllIdsWithFeatures Scenario.catalog = []
  /\ (exists s1 s' s2,
        Scenario.run None false Scenario.freshWithCacheA = Done s1
        /\ cacheWrites s1 = []
        /\ Scenario.prepareUnanalysed (invalidate s1) = Done (None, s')
        /\ _loadCancelled (engine s') = false
        /\ Scenario.run None true s1 = Done s2
        /\ cacheWrites s2 = [Scenario.modelA]
        /\ cacheFile s2 = Some Scenario.modelA)
  /\ Scenario.run None true Scenario.fresh = Failed NullDereference.
Proof.
  split; [reflexivity|]. split.
  - do 3 eexists.
    split; [vm_compute; reflexivity|].
    split; [vm_compute; reflexivity|].
    split; [vm_compute; reflexivity|].
    split; [vm_compute; reflexivity|].
    split; [vm_compute; reflexivity|].
    split; vm_compute; reflexivity.
  - vm_compute. reflexivity.
Qed.

(** C3 (the code at the failing input). Track 1 is on release 10 and
    credited to artist 100. load(false) adopts the cached model A, which
    places the track at (0,0); load(true) on the same engine then trains
    a model that places it at (1,1) only. After the second load the position
    lists of the track, of its release and of its artist still hold (0,0),
    and the artist matrix still lists the artist in cell (0,0), while the
    release matrix, rebuilt, has cell (0,0) empty; the stale list is even
    what toCache() writes to the cache. *)
Theorem repeated_load_keeps_stale_positions :
  exists s1 s2 trained s',
    Scenario.runAnalysed None false Scenario.freshWithCacheA = Done s1
    /\ _releasePositions (engine s1) !! 10%Z = Some [(0%Z, 0%Z)]
    /\ Scenario.prepareAnalysed None (invalidate s1) = Done (Some trained, s')
    /\ trained.2 = {[ 1%Z := [(1%Z, 1%Z)] ]}
    /\ Scenario.runAnalysed None true s1 = Done s2
    /\ _network (engine s2) = Some trained.1
    /\ _trackPositions (engine s2) !! 1%Z = Some [(0%Z, 0%Z); (1%Z, 1%Z)]
    /\ _releasePositions (engine s2) !! 10%Z = Some [(0%Z, 0%Z); (1%Z, 1%Z)]
    /\ _artistPositions (engine s2) !! 100%Z = Some [(0%Z, 0%Z); (1%Z, 1%Z)]
    /\ Matrix.get (_releaseMatrix (engine s2)) (0%Z, 0%Z) = Done []
    /\ (exists m, _artistMatrix (engine s2) !! 0 = Some m
          /\ Matrix.get m (0%Z, 0%Z) = Done [100%Z])
    /\ _cacheTrackPositions <$> cacheWrites s2
       = [ {[ 1%Z := [(0%Z, 0%Z); (1%Z, 1%Z)] ]} ].
Proof.
  do 4 eexists.
  split; [vm_compute; reflexivity|].
  split; [vm_compute; reflexivity|].
  split; [vm_compute; reflexivity|].
  split; [vm_compute; reflexivity|].
  split; [vm_compute; reflexivity|].
  split; [vm_compute; reflexivity|].
  split; [vm_compute; reflexivity|].
  split; [vm_compute; reflexivity|].
  split; [vm_compute; reflexivity|].
  split; [vm_compute; reflexivity|].
  split; [eexists; split; vm_compute; reflexivity|].
  vm_compute. reflexivity.
Qed.

(** ** Grid sizing *)

(* The integer square root of the integral part is the integral part of
   the square root *)
Lemma floor_sqrt_spec (x : Q) :
  (0 <= x)%Q ->
  let k := Z.sqrt (Qfloor x) in
  (0 <= k)%Z /\ (inject_Z (k * k) <= x)%Q /\ (x < inject_Z ((k + 1) * (k + 1)))%Q.
Proof.
  intros Hx k.
  assert (Hn : (0 <= Qfloor x)%Z).
  { rewrite <- (Qfloor_Z 0). by apply Qfloor_resp_le. }
  pose proof (Z.sqrt_spec (Qfloor x) Hn) as [Hlo Hhi].
  fold k in Hlo, Hhi. split; [apply Z.sqrt_nonneg|]. split.
  - apply Qle_trans with (inject_Z (Qfloor x)).
    + by rewrite <- Zle_Qle.
    + apply Qfloor_le.
  - apply Qlt_le_trans with (inject_Z (Qfloor x + 1)).
    + apply Qlt_floor.
    + rewrite <- Zle_Qle. unfold Z.succ in Hhi. lia.
Qed.

Lemma gridSize_at_least_two sampleCount sampleCountPerNeuron size :
  gridSize sampleCount sampleCountPerNeuron = Done size -> (2 <= size)%Z.
Proof.
  unfold gridSize. intros Hrun. apply bind_done in Hrun as (raw & _ & Hrun).
  injection Hrun as <-. destruct (Z.ltb_spec raw 2); lia.
Qed.

Lemma gridSizeFromSpec_four sampleCount :
  gridSizeFromSpec sampleCount 4 = Z.max 2 (Z.sqrt (Z.of_nat sampleCount / 4)).
Proof.
  unfold gridSizeFromSpec. do 2 f_equal.
  unfold Qfloor, Qdiv, Qmult, Qinv, inject_Z. simpl. f_equal. lia.
Qed.

(* Up to 16384 samples at 4 samples per neuron, the single-precision
   computation returns the size of the policy *)
Lemma gridSize_four_exact sampleCount :
  (0 < Z.of_nat sampleCount <= 16384)%Z ->
  gridSize sampleCount (Float.ofZ 4) = Done (gridSizeFromSpec sampleCount 4).
Proof.
  intros Hbound.
  assert (Hall :
    forallb (fun n =>
        match toCoordinate (Float.sqrt (Float.div (Float.ofZ n) (Float.ofZ 4))) with
        | Done size =>
            ((if (size <? 2)%Z then 2 else size) =? Z.max 2 (Z.sqrt (n / 4)))%Z
        | Failed _ => false
        end)
      (seqZ 1 16384) = true)
    by (vm_compute; reflexivity).
  rewrite forallb_forall in Hall.
  specialize (Hall (Z.of_nat sampleCount)).
  rewrite gridSizeFromSpec_four. unfold gridSize, Float.ofNat.
  destruct (toCoordinate _) as [size|f]; simpl.
  - f_equal. apply Z.eqb_eq, Hall. apply list_elem_of_In, elem_of_seqZ. lia.
  - exfalso. cut (false = true); [done|].
    apply Hall. apply list_elem_of_In, elem_of_seqZ. lia.
Qed.

(** C5 (amended). For every non-empty sample set for which
    loadFromTraining builds a network, the network built, and the network
    that training leaves, is a square grid whose side is at least 2 and is
    the size that the single-precision computation of line 200 returns:
    the sample count converted to float and divided by
    sampleCountPerNeuron, the square root taken in single precision, its
    integral part kept and raised to 2 when smaller. With
    sampleCountPerNeuron = 4 and up to 16384 samples, the computation
    returns, and the side is max(2, floor(sqrt(sampleCount / 4))); 400
    samples at 4 per neuron give side 10, and 1 sample gives side 2. *)
Theorem grid_sizing
    (getFeatureDef : string -> FeatureDef) (cancelAt : option nat)
    (initialRefVectors : Z -> Z -> nat -> gmap (Z * Z) (list double))
    (trainIteration :
       nat -> Network.t -> list (list double) -> gmap (Z * Z) (list double))
    (trainSettings : TrainSettings) (nbDims : nat) (samples : list (list double))
    (network : Network.t) (s : Sys) :
  samples <> [] ->
  buildNetwork getFeatureDef initialRefVectors trainSettings nbDims (length samples)
    = Done network ->
  let trained :=
    (train cancelAt trainIteration (iterationCount trainSettings) 0 samples network s).1 in
  (exists size : Z,
      gridSize (length samples) (sampleCountPerNeuron trainSettings) = Done size
      /\ (2 <= size)%Z
      /\ Network.width network = size /\ Network.height network = size
      /\ Network.width trained = size /\ Network.height trained = size)
  /\ (sampleCountPerNeuron trainSettings = Float.ofZ 4 ->
      (Z.of_nat (length samples) <= 16384)%Z ->
      Network.width trained = gridSizeFromSpec (length samples) 4
      /\ Network.height trained = gridSizeFromSpec (length samples) 4)
  /\ (forall sampleCount,
        (0 < Z.of_nat sampleCount <= 16384)%Z ->
        gridSize sampleCount (Float.ofZ 4) = Done (gridSizeFromSpec sampleCount 4))
  /\ gridSize 400 (Float.ofZ 4) = Done 10%Z
  /\ gridSize 1 (Float.ofZ 4) = Done 2%Z.
Proof.
  intros Hne Hbuild trained.
  destruct (train_size cancelAt trainIteration (iterationCount trainSettings) 0
              samples network s) as [Hw Hh].
  fold trained in Hw, Hh.
  unfold buildNetwork in Hbuild.
  apply bind_done in Hbuild as (size & Hsize & Hbuild).
  apply bind_done in Hbuild as (weights & _ & Hbuild).
  injection Hbuild as <-. simpl in Hw, Hh.
  split; [|split; [|split; [|split]]].
  - exists size. split; [done|]. split; [by eapply gridSize_at_least_two|].
    by rewrite Hw, Hh.
  - intros Hfour Hbound. rewrite Hfour in Hsize.
    rewrite gridSize_four_exact in Hsize.
    + injection Hsize as <-. by rewrite Hw, Hh.
    + destruct samples; [done|]. simpl in *. lia.
  - apply gridSize_four_exact.
  - vm_compute. reflexivity.
  - vm_compute. reflexivity.
Qed.

Lemma grid_sizing_witness :
  let samples := replicate 400 (replicate 5 Double.zero) in
  let network :=
    Network.setDataWeights (replicate 5 (weightOfDimension 1 Double.one))
      (newNetwork Scenario.initialRefVectors 10 10 5) in
  let trained :=
    (train None Scenario.trainIteration 10 0 samples network Scenario.fresh).1 in
  samples <> []
  /\ buildNetwork Scenario.featureDef Scenario.initialRefVectors Scenario.fourPerNeuron
       5 (length samples) = Done network
  /\ (exists size : Z,
        gridSize (length samples) (Float.ofZ 4) = Done size
        /\ (2 <= size)%Z
        /\ Network.width network = size /\ Network.height network = size
        /\ Network.width trained = size /\ Network.height trained = size)
  /\ Network.width trained = 10%Z.
Proof.
  intros samples network trained.
  assert (Hbuild : buildNetwork Scenario.featureDef Scenario.initialRefVectors
                     Scenario.fourPerNeuron 5 (length samples) = Done network)
    by (vm_compute; reflexivity).
  split; [discriminate|]. split; [exact Hbuild|].
  destruct (grid_sizing Scenario.featureDef None Scenario.initialRefVectors
              Scenario.trainIteration Scenario.fourPerNeuron 5 samples network
              Scenario.fresh) as (Hsize & Hexact & _).
  - discriminate.
  - exact Hbuild.
  - split; [exact Hsize|].
    destruct Hexact as [Hwidth _]; [reflexivity|by vm_compute|].
    transitivity (gridSizeFromSpec (length samples) 4); [exact Hwidth|].
    vm_compute. reflexivity.
Defined.

(* The claim as stated fails. Ten samples at the single-precision value
   nearest to one tenth, which is above one tenth: the quotient of the
   real numbers is below 100 and the policy gives side 9, the rounded
   quotient is 100 and the code builds side 10. At 4 samples per neuron,
   16793603 samples are converted to the float 16793604 and the code
   builds side 2049, the policy gives 2048. And with the smallest
   positive sampleCountPerNeuron, the quotient is beyond the range of
   single precision: it is infinite, so is its square root, and the
   conversion to SOM::Coordinate has no defined result. *)
Lemma grid_sizing_rounds :
  (gridSize 10 Cases.tenth = Done 10%Z
   /\ (0 < valueOf Cases.tenth)%Q
   /\ gridSizeFromSpec 10 (valueOf Cases.tenth) = 9%Z)
  /\ (toCoordinate (Float.sqrt (Float.div (Float.ofZ 16793603) (Float.ofZ 4)))
        = Done 2049%Z
      /\ Z.max 2 (Z.sqrt (16793603 / 4)) = 2048%Z)
  /\ ((0 < valueOf Cases.tiny)%Q
      /\ Float.div (Float.ofNat 1) Cases.tiny = S754_infinity false
      /\ gridSize 1 Cases.tiny = Failed Unrepresentable).
Proof.
  split; [|split].
  - split; [vm_compute; reflexivity|]. split; vm_compute; reflexivity.
  - split; vm_compute; reflexivity.
  - split; [vm_compute; reflexivity|]. split; vm_compute; reflexivity.
Qed.
(** ** Similarity queries *)

Section QueryFacts.

Variable db : Db.
Variable getSimilarObjects :
  FeaturesEngine -> list Z -> Matrix.t -> gmap Z (list (Z * Z)) -> nat -> list Z.
Variable pickRandom : nat -> nat -> nat.

Lemma evictRandom_sublist fuel : forall draw maxCount res,
  evictRandom pickRandom fuel draw maxCount res `sublist_of` res.
Proof.
  induction fuel as [|fuel IH]; intros draw maxCount res; simpl; [done|].
  destruct (decide (maxCount < length res)); [|done].
  etrans; [apply IH|apply sublist_delete].
Qed.

Lemma evictRandom_length fuel : forall draw maxCount res,
  length res <= maxCount + fuel ->
  length (evictRandom pickRandom fuel draw maxCount res) = length res `min` maxCount.
Proof.
  induction fuel as [|fuel IH]; intros draw maxCount res Hfuel; simpl; [lia|].
  destruct (decide (maxCount < length res)) as [Hgt|Hle]; [|lia].
  assert (Hdel : length (delete (pickRandom draw (length res) mod length res) res)
                 = length res - 1).
  { apply length_delete, lookup_lt_is_Some, Nat.mod_upper_bound. lia. }
  rewrite IH by lia. lia.
Qed.

Lemma elem_of_similarArtistIdsUnion e artistId linkTypes maxCount x :
  x ∈ similarArtistIdsUnion getSimilarObjects e artistId linkTypes maxCount
  <-> exists linkType, linkType ∈ linkTypes
        /\ x ∈ getSimilarArtistIdsForLinkType getSimilarObjects e artistId maxCount linkType.
Proof.
  unfold similarArtistIdsUnion.
  assert (Hgen : forall acc : gset Z,
    x ∈ foldl (fun similarArtistIds linkType =>
                 similarArtistIds ∪
                 list_to_set (getSimilarArtistIdsForLinkType getSimilarObjects e
                                artistId maxCount linkType)) acc linkTypes
    <-> x ∈ acc \/ exists linkType, linkType ∈ linkTypes
          /\ x ∈ getSimilarArtistIdsForLinkType getSimilarObjects e artistId
                   maxCount linkType).
  { induction linkTypes as [|lt rest IH]; intros acc; simpl.
    - split; [by left|]. intros [?|(lt & Hin & _)]; [done|]. by apply elem_of_nil in Hin.
    - rewrite IH, elem_of_union, elem_of_list_to_set. split.
      + intros [[?|?]|(lt' & Hin & Hx)]; [by left| |].
        * right. exists lt. split; [by left|done].
        * right. exists lt'. split; [by right|done].
      + intros [?|(lt' & Hin & Hx)]; [by left; left|].
        apply elem_of_cons in Hin as [->|Hin]; [by left; right|].
        right. by exists lt'. }
  rewrite Hgen. split; [|by right]. intros [Hempty|?]; [|done].
  by apply not_elem_of_empty in Hempty.
Qed.

Lemma getSimilarArtists_existing e artistId linkTypes maxCount draw :
  getSimilarArtists db getSimilarObjects pickRandom e artistId linkTypes maxCount draw
  `sublist_of`
  filter (fun artistId => Artist_exists db artistId = true)
    (elements (similarArtistIdsUnion getSimilarObjects e artistId linkTypes maxCount)).
Proof. apply evictRandom_sublist. Qed.

(* Whatever the generator picks, the loop ends on one of the outcomes
   that [evictions] lists *)
Lemma evictRandom_in_evictions fuel : forall draw maxCount res,
  evictRandom pickRandom fuel draw maxCount res ∈ evictions fuel maxCount res.
Proof.
  induction fuel as [|fuel IH]; intros draw maxCount res; simpl.
  - by left.
  - destruct (decide (maxCount < length res)) as [Hgt|Hle]; [|by left].
    apply list_elem_of_In, in_concat.
    eexists. split; [|apply list_elem_of_In, IH].
    apply in_map_iff. eexists. split; [done|].
    apply in_seq. split; [lia|]. simpl. apply Nat.mod_upper_bound. lia.
Qed.

End QueryFacts.

(** *** Uniform eviction *)

Lemma evictions_sublist fuel : forall maxCount res outcome,
  outcome ∈ evictions fuel maxCount res -> outcome `sublist_of` res.
Proof.
  induction fuel as [|fuel IH]; intros maxCount res outcome Hin; simpl in Hin.
  - by apply list_elem_of_singleton in Hin as ->.
  - destruct (decide (maxCount < length res)) as [Hgt|Hle];
      [|by apply list_elem_of_singleton in Hin as ->].
    apply list_elem_of_In, in_concat in Hin as (outcomes & Hmap & Hin).
    apply in_map_iff in Hmap as (i & <- & _).
    apply list_elem_of_In, IH in Hin. etrans; [exact Hin|apply sublist_delete].
Qed.

Lemma sublist_same_length {A} (l res : list A) :
  l `sublist_of` res -> length res <= length l -> l = res.
Proof.
  induction 1 as [|x l res Hsub IH|x l res Hsub IH]; intros Hlen; [done| |].
  - f_equal. apply IH. simpl in Hlen. lia.
  - apply sublist_length in Hsub. simpl in Hlen. lia.
Qed.

Lemma filter_ext_in {A} (P Q : A -> Prop) `{forall x, Decision (P x)}
    `{forall x, Decision (Q x)} (l : list A) :
  (forall x, x ∈ l -> P x <-> Q x) -> filter P l = filter Q l.
Proof.
  induction l as [|x l IH]; intros Hext; [done|].
  assert (Hrest : filter P l = filter Q l).
  { apply IH. intros y Hy. apply Hext. by right. }
  destruct (decide (P x)) as [Hp|Hp].
  - rewrite !filter_cons_True; [by f_equal| |done]. apply Hext; [by left|done].
  - rewrite !filter_cons_False; [done| |done]. intros Hq. apply Hp, Hext; [by left|done].
Qed.

(* The elements of a duplicate-free list that a sublist keeps are the
   sublist *)
Lemma filter_sublist (l res : list Z) :
  l `sublist_of` res -> NoDup res -> filter (fun x => x ∈ l) res = l.
Proof.
  induction 1 as [|x l res Hsub IH|x l res Hsub IH]; intros Hnd; [done| |].
  - apply NoDup_cons in Hnd as [Hx Hnd].
    rewrite filter_cons_True by (by left). f_equal.
    etrans; [|exact (IH Hnd)]. apply filter_ext_in. intros y Hy. split.
    + intros Hin. apply elem_of_cons in Hin as [->|Hin]; [done|done].
    + intros Hin. by right.
  - apply NoDup_cons in Hnd as [Hx Hnd].
    rewrite filter_cons_False; [by apply IH|].
    intros Hin. apply Hx. by eapply elem_of_sublist.
Qed.

Lemma length_filter_complement {A} (P : A -> Prop) `{forall x, Decision (P x)}
    (l : list A) :
  length (filter P l) + length (filter (fun x => ~ P x) l) = length l.
Proof.
  induction l as [|x l IH]; [done|].
  destruct (decide (P x)) as [Hp|Hp].
  - rewrite filter_cons_True, filter_cons_False by tauto. simpl. lia.
  - rewrite filter_cons_False, filter_cons_True by tauto. simpl. lia.
Qed.

(* A sublist survives the removal of an element that it does not hold *)
Lemma sublist_delete_other (l res : list Z) i x :
  l `sublist_of` res -> NoDup res -> res !! i = Some x -> x ∉ l ->
  l `sublist_of` delete i res.
Proof.
  intros Hsub Hnd Hi Hx.
  rewrite <- (filter_sublist l res Hsub Hnd).
  rewrite <- (take_drop_middle res i x Hi) at 1.
  rewrite filter_app, filter_cons_False by done.
  rewrite <- filter_app, <- delete_take_drop. apply sublist_filter.
Qed.

(* A sublist does not survive the removal of an element that it holds *)
Lemma not_sublist_delete (l res : list Z) i x :
  NoDup res -> res !! i = Some x -> x ∈ l -> ~ l `sublist_of` delete i res.
Proof.
  intros Hnd Hi Hx Hsub.
  eapply elem_of_sublist in Hx; [|exact Hsub].
  rewrite delete_take_drop in Hx.
  rewrite <- (take_drop_middle res i x Hi) in Hnd.
  apply NoDup_app in Hnd as (_ & Hleft & Hright).
  apply NoDup_cons in Hright as [Hright _].
  apply elem_of_app in Hx as [Hx|Hx]; [|done].
  apply (Hleft x Hx). by left.
Qed.

Lemma sum_list_with_cases {A} (P : A -> Prop) `{forall x, Decision (P x)}
    (f : A -> nat) (c : nat) (l : list A) :
  (forall x, x ∈ l -> P x -> f x = c) ->
  (forall x, x ∈ l -> ~ P x -> f x = 0) ->
  sum_list_with f l = c * length (filter P l).
Proof.
  induction l as [|x l IH]; intros Hyes Hno; simpl; [lia|].
  rewrite IH; [|intros y Hy; apply Hyes; by right|intros y Hy; apply Hno; by right].
  destruct (decide (P x)) as [Hp|Hp].
  - rewrite filter_cons_True by done. rewrite (Hyes x) by (by left || done).
    simpl. lia.
  - rewrite filter_cons_False by done. rewrite (Hno x) by (by left || done). lia.
Qed.

(* As many positions of [res] hold an element outside [l] as [res] has
   such elements *)
Lemma length_filter_positions (l res : list Z) : forall pre : list Z,
  length (filter (fun i => (pre ++ res) !!! i ∉ l) (seq (length pre) (length res)))
  = length (filter (fun x => x ∉ l) res).
Proof.
  induction res as [|x res IH]; intros pre; [done|].
  cbn [length seq].
  assert (Hx : (pre ++ x :: res) !!! length pre = x).
  { apply list_lookup_total_correct. by rewrite list_lookup_middle. }
  specialize (IH (pre ++ [x])). rewrite <- app_assoc in IH. simpl in IH.
  rewrite length_app in IH. simpl in IH. rewrite Nat.add_1_r in IH.
  destruct (decide (x ∈ l)) as [Hin|Hout].
  - rewrite !filter_cons_False by (rewrite ?Hx; tauto). exact IH.
  - rewrite !filter_cons_True by (rewrite ?Hx; tauto). simpl. by rewrite IH.
Qed.

Lemma filter_none {A} (P : A -> Prop) `{forall x, Decision (P x)} (l : list A) :
  (forall x, x ∈ l -> ~ P x) -> filter P l = [].
Proof.
  induction l as [|x l IH]; intros Hnone; [done|].
  rewrite filter_cons_False by (apply Hnone; by left).
  apply IH. intros y Hy. apply Hnone. by right.
Qed.

Lemma length_filter_concat {A} (P : A -> Prop) `{forall x, Decision (P x)}
    (ls : list (list A)) :
  length (filter P (concat ls)) = sum_list_with (fun l => length (filter P l)) ls.
Proof.
  induction ls as [|l ls IH]; [done|].
  simpl. by rewrite filter_app, length_app, IH.
Qed.

Lemma sum_list_with_map {A B} (f : B -> nat) (g : A -> B) (l : list A) :
  sum_list_with f (map g l) = sum_list_with (fun x => f (g x)) l.
Proof. induction l as [|x l IH]; [done|]. simpl. by rewrite IH. Qed.

(* Over all sequences of draws, every selection of maxCount elements is
   the outcome of the same number of sequences *)
Lemma evictions_uniform fuel : forall maxCount (res kept : list Z),
  NoDup res ->
  length res <= maxCount + fuel ->
  kept `sublist_of` res ->
  length kept = length res `min` maxCount ->
  length (filter (fun outcome => outcome = kept) (evictions fuel maxCount res))
  = fact (length res - maxCount).
Proof.
  induction fuel as [|fuel IH]; intros maxCount res kept Hnd Hfuel Hsub Hlen.
  - simpl. assert (kept = res) as -> by (apply sublist_same_length; [done|lia]).
    rewrite filter_cons_True by done. simpl.
    replace (length res - maxCount) with 0 by lia. done.
  - simpl. destruct (decide (maxCount < length res)) as [Hgt|Hle].
    + rewrite length_filter_concat, sum_list_with_map.
      rewrite (sum_list_with_cases (fun i => res !!! i ∉ kept) _
                 (fact (length res - 1 - maxCount))).
      * pose proof (length_filter_positions kept res []) as Hpositions.
        simpl in Hpositions. rewrite Hpositions.
        pose proof (length_filter_complement (fun x => x ∈ kept) res) as Hsplit.
        rewrite (filter_sublist kept res Hsub Hnd) in Hsplit.
        replace (length (filter (fun x => x ∉ kept) res))
          with (length res - maxCount) by lia.
        replace (length res - maxCount) with (S (length res - 1 - maxCount)) by lia.
        simpl. lia.
      * intros i Hi Hout. apply elem_of_seq in Hi.
        destruct (lookup_lt_is_Some_2 res i) as [x Hx]; [lia|].
        rewrite (list_lookup_total_correct _ _ _ Hx) in Hout.
        assert (Hdel : length (delete i res) = length res - 1)
          by (apply length_delete; by eexists).
        rewrite IH.
        -- by rewrite Hdel.
        -- exact (sublist_NoDup _ _ Hnd (sublist_delete res i)).
        -- lia.
        -- by eapply sublist_delete_other.
        -- lia.
      * intros i Hi Hin. apply elem_of_seq in Hi.
        destruct (lookup_lt_is_Some_2 res i) as [x Hx]; [lia|].
        rewrite (list_lookup_total_correct _ _ _ Hx) in Hin.
        apply dec_stable in Hin.
        rewrite filter_none; [done|]. intros outcome Houtcome ->.
        apply evictions_sublist in Houtcome.
        by eapply not_sublist_delete.
    + assert (kept = res) as -> by (apply sublist_same_length; [done|lia]).
      rewrite filter_cons_True by done. simpl.
      replace (length res - maxCount) with 0 by lia. done.
Qed.

Lemma getSimilarObjectsFromSpec_cap e ids matrix positions maxCount :
  length (getSimilarObjectsFromSpec e ids matrix positions maxCount) <= maxCount.
Proof. unfold getSimilarObjectsFromSpec. rewrite length_take. lia. Qed.

(** C6. For every similarity query (getSimilarTracks,
    getSimilarTracksFromTrackList, getSimilarReleases, getSimilarArtists),
    whatever the index holds and whatever getSimilarObjects and the random
    generator return, every entity of the returned list passes the
    existence check of the catalog at query time; the queries are total, a
    stale reference is dropped and raises no error. *)
Theorem similarity_results_exist
    (db : Db)
    (getSimilarObjects :
       FeaturesEngine -> list Z -> Matrix.t -> gmap Z (list (Z * Z)) -> nat -> list Z)
    (pickRandom : nat -> nat -> nat)
    (e : FeaturesEngine) (maxCount : nat) :
  (forall tracksIds,
     Forall (fun trackId => Track_exists db trackId = true)
       (getSimilarTracks db getSimilarObjects e tracksIds maxCount))
  /\ (forall trackListId,
        Forall (fun trackId => Track_exists db trackId = true)
          (getSimilarTracksFromTrackList db getSimilarObjects e trackListId maxCount))
  /\ (forall releaseId,
        Forall (fun id => Release_exists db id = true)
          (getSimilarReleases db getSimilarObjects e releaseId maxCount))
  /\ (forall artistId linkTypes draw,
        Forall (fun id => Artist_exists db id = true)
          (getSimilarArtists db getSimilarObjects pickRandom e artistId linkTypes
             maxCount draw)).
Proof.
  assert (Htracks : forall tracksIds,
     Forall (fun trackId => Track_exists db trackId = true)
       (getSimilarTracks db getSimilarObjects e tracksIds maxCount)).
  { intros tracksIds. apply Forall_forall. intros id Hin.
    by apply list_elem_of_filter in Hin as [? _]. }
  split; [done|]. split; [intros trackListId; apply Htracks|]. split.
  - intros releaseId. unfold getSimilarReleases.
    destruct (getSimilarObjects _ _ _ _ _) as [|r rest]; [done|].
    apply Forall_forall. intros id Hin. by apply list_elem_of_filter in Hin as [? _].
  - intros artistId linkTypes draw. apply Forall_forall. intros id Hin.
    eapply elem_of_sublist in Hin; [|apply getSimilarArtists_existing].
    by apply list_elem_of_filter in Hin as [? _].
Qed.

(** C7 (amended). getSimilarTracks and getSimilarReleases return at most
    maxCount entries. For getSimilarArtists over several link types, the
    candidates of each link type are computed independently and their
    union is taken; the artists of the union that no longer exist are
    dropped, and what remains is returned whole when it has at most
    maxCount entries and is otherwise reduced to exactly maxCount entries
    by uniform random eviction: whatever the generator picks, the result
    is one of the outcomes of the eviction loop, and over all sequences of
    draws every selection of maxCount of the remaining artists is the
    outcome of the same number of sequences. *)
Theorem similarity_results_capped
    (db : Db)
    (getSimilarObjects :
       FeaturesEngine -> list Z -> Matrix.t -> gmap Z (list (Z * Z)) -> nat -> list Z)
    (e : FeaturesEngine) (maxCount : nat) :
  (forall tracksIds,
     length (getSimilarTracks db getSimilarObjectsFromSpec e tracksIds maxCount)
     <= maxCount)
  /\ (forall releaseId,
        length (getSimilarReleases db getSimilarObjectsFromSpec e releaseId maxCount)
        <= maxCount)
  /\ forall artistId linkTypes,
       let union := similarArtistIdsUnion getSimilarObjects e artistId linkTypes maxCount in
       let existing :=
         filter (fun id => Artist_exists db id = true) (elements union) in
       (forall x, x ∈ union <->
          exists linkType, linkType ∈ linkTypes
            /\ x ∈ getSimilarArtistIdsForLinkType getSimilarObjects e artistId
                     maxCount linkType)
       /\ (forall pickRandom draw,
             let res :=
               getSimilarArtists db getSimilarObjects pickRandom e artistId linkTypes
                 maxCount draw in
             res `sublist_of` existing
             /\ length res = length existing `min` maxCount
             /\ res ∈ evictions (length existing) maxCount existing)
       /\ (forall kept,
             kept `sublist_of` existing ->
             length kept = length existing `min` maxCount ->
             length (filter (fun outcome => outcome = kept)
                       (evictions (length existing) maxCount existing))
             = fact (length existing - maxCount)).
Proof.
  split; [|split].
  - intros tracksIds. unfold getSimilarTracks.
    etrans; [apply length_filter|apply getSimilarObjectsFromSpec_cap].
  - intros releaseId. unfold getSimilarReleases.
    pose proof (getSimilarObjectsFromSpec_cap e [releaseId] (_releaseMatrix e)
                  (_releasePositions e) maxCount) as Hlen.
    destruct (getSimilarObjectsFromSpec _ _ _ _ _) as [|r rest]; [simpl; lia|].
    etrans; [apply length_filter|done].
  - intros artistId linkTypes union existing. split; [|split].
    + intros x. apply elem_of_similarArtistIdsUnion.
    + intros pickRandom draw res. split; [|split].
      * apply getSimilarArtists_existing.
      * unfold res, getSimilarArtists. fold union. fold existing.
        apply evictRandom_length. lia.
      * apply evictRandom_in_evictions.
    + intros kept Hsub Hlen. apply evictions_uniform; [|lia|done|done].
      exact (sublist_NoDup _ _ (NoDup_elements _) (sublist_filter _ _)).
Qed.

(* The claim as stated fails: the union over the two link types has four
   artists, more than maxCount = 2, but three of them no longer exist and
   the query returns one artist, not two. *)
Lemma union_over_cap_not_trimmed_to_cap :
  let union :=
    similarArtistIdsUnion getSimilarObjectsFromSpec Scenario.creditsEngine
      100 [0; 1] 2 in
  let res :=
    getSimilarArtists (Scenario.creditsCatalog {[ 100%Z; 201%Z ]})
      getSimilarObjectsFromSpec Scenario.firstOf Scenario.creditsEngine
      100 [0; 1] 2 0 in
  size union = 4
  /\ 2 < size union
  /\ res = [201%Z]
  /\ length res <> 2.
Proof.
  cbv zeta.
  assert (Hsize : size (similarArtistIdsUnion getSimilarObjectsFromSpec
                          Scenario.creditsEngine 100 [0; 1] 2) = 4)
    by (vm_compute; reflexivity).
  assert (Hres : getSimilarArtists (Scenario.creditsCatalog {[ 100%Z; 201%Z ]})
                   getSimilarObjectsFromSpec Scenario.firstOf Scenario.creditsEngine
                   100 [0; 1] 2 0 = [201%Z]) by (vm_compute; reflexivity).
  split; [exact Hsize|]. split; [rewrite Hsize; lia|].
  split; [exact Hres|]. rewrite Hres. simpl. lia.
Qed.

(** * Further properties of the code *)

(** ** The weights vector and the input vectors *)

Lemma store_done (v : list double) i x v' :
  SOM.store v i x = Done v' -> i < length v /\ v' = <[i := x]> v.
Proof.
  unfold SOM.store. destruct (decide (i < length v)); [|done].
  by intros [= <-].
Qed.

Lemma fillWeights_done count : forall value (weights : list double) index weights' index',
  fillWeights count value weights index = Done (weights', index') ->
  index' = index + count /\ length weights' = length weights
  /\ (0 < count -> index + count <= length weights).
Proof.
  induction count as [|count IH]; intros value weights index weights' index' Hrun.
  - simpl in Hrun. injection Hrun as <- <-. split; [lia|]. split; [done|lia].
  - simpl in Hrun.
    destruct (SOM.store weights index value) as [w1|f] eqn:Hstore; simpl in Hrun; [|done].
    apply store_done in Hstore as [Hlt ->].
    apply IH in Hrun as (-> & Hlen & Hbound).
    rewrite length_insert in Hlen, Hbound.
    split; [lia|]. split; [done|]. intros _.
    destruct count; [lia|]. specialize (Hbound ltac:(lia)). lia.
Qed.

Section WeightsConverse.

Variable getFeatureDef : string -> FeatureDef.

Lemma weightsLoop_done entries : forall (weights : list double) index weights' index',
  weightsLoop getFeatureDef entries weights index = Done (weights', index') ->
  index' = index + sum_list_with (fun entry => dimsOf getFeatureDef entry.1) entries
  /\ length weights' = length weights
  /\ (0 < sum_list_with (fun entry => dimsOf getFeatureDef entry.1) entries ->
      index' <= length weights).
Proof.
  induction entries as [|[featureName featureSettings] rest IH];
    intros weights index weights' index' Hrun.
  - simpl in Hrun. injection Hrun as <- <-. simpl. split; [lia|]. split; [done|lia].
  - simpl in Hrun.
    destruct (fillWeights _ _ weights index) as [[w1 i1]|f] eqn:Hfill;
      simpl in Hrun; [|done].
    apply fillWeights_done in Hfill as (-> & Hlen1 & Hbound1).
    apply IH in Hrun as (-> & Hlen & Hbound).
    unfold dimsOf in *. simpl in *.
    split; [lia|]. split; [congruence|]. intros Hpos.
    destruct (decide (0 < sum_list_with
                            (fun entry => nbDimensions (getFeatureDef entry.1)) rest))
      as [Hrest|Hrest].
    + specialize (Hbound Hrest). lia.
    + assert (sum_list_with (fun entry => nbDimensions (getFeatureDef entry.1)) rest = 0)
        as Hz by lia.
      rewrite Hz in *. specialize (Hbound1 ltac:(lia)). lia.
Qed.

End WeightsConverse.

(** X1. getInputVectorWeights returns a vector exactly when nbDimensions
    is the sum of the declared dimensions of the features of the settings
    map; the vector then has nbDimensions entries. With a larger
    nbDimensions the loop ends short of it and the assertion fails. *)
Theorem getInputVectorWeights_done_iff
    (getFeatureDef : string -> FeatureDef) (m : gmap string FeatureSettings)
    (nbDims : nat) :
  let total :=
    sum_list_with (fun entry => nbDimensions (getFeatureDef entry.1)) (map_to_list m) in
  ((exists weights, getInputVectorWeights getFeatureDef m nbDims = Done weights)
   <-> nbDims = total)
  /\ (forall weights,
        getInputVectorWeights getFeatureDef m nbDims = Done weights ->
        length weights = nbDims)
  /\ (total < nbDims ->
      getInputVectorWeights getFeatureDef m nbDims = Failed AssertionFailed).
Proof.
  intros total.
  assert (Htotal : total
                   = sum_list_with (fun entry => dimsOf getFeatureDef entry.1) (map_to_list m))
    by done.
  assert (Hdone : forall weights,
            getInputVectorWeights getFeatureDef m nbDims = Done weights ->
            nbDims = total /\ length weights = nbDims).
  { intros weights Hrun. unfold getInputVectorWeights in Hrun.
    destruct (weightsLoop _ _ _ _) as [[w i]|f] eqn:Hloop; simpl in Hrun; [|done].
    destruct (decide (i = nbDims)) as [->|]; [|done]. injection Hrun as <-.
    apply weightsLoop_done in Hloop as (Hi & Hlen & _).
    unfold SOM.newInputVector in Hlen. rewrite length_replicate in Hlen.
    split; [|done]. rewrite Htotal. lia. }
  split; [split|split].
  - intros [weights Hrun]. by apply Hdone in Hrun as [? _].
  - intros ->. eexists. rewrite Htotal, <- totalDimensions_featureNamesOf.
    apply getInputVectorWeights_blocks.
  - intros weights Hrun. by apply Hdone in Hrun as [_ ?].
  - intros Hlt. unfold getInputVectorWeights, SOM.newInputVector.
    rewrite weightsLoop_ok by (rewrite length_replicate, <- Htotal; lia).
    simpl. rewrite <- Htotal. rewrite decide_False by lia. done.
Qed.

Section ConvertSuccess.

Variable getFeatureDef : string -> FeatureDef.

Lemma writeValues_length values : forall (res : list double) i res' i',
  writeValues values res i = Done (res', i') -> length res' = length res.
Proof.
  induction values as [|val rest IH]; intros res i res' i' Hrun.
  - simpl in Hrun. by injection Hrun as <- <-.
  - simpl in Hrun.
    destruct (SOM.store res i val) as [r1|f] eqn:Hstore; simpl in Hrun; [|done].
    apply store_done in Hstore as [_ ->].
    apply IH in Hrun. by rewrite length_insert in Hrun.
Qed.

Lemma convertLoop_length entries : forall (res : list double) i v,
  convertLoop getFeatureDef entries res i = Done (Some v) -> length v = length res.
Proof.
  induction entries as [|[featureName values] rest IH]; intros res i v Hrun.
  - simpl in Hrun. by injection Hrun as <-.
  - simpl in Hrun.
    destruct (decide (length values ≠ nbDimensions (getFeatureDef featureName)));
      [done|].
    destruct (writeValues values res i) as [[res' i']|f] eqn:Hwrite;
      simpl in Hrun; [|done].
    apply writeValues_length in Hwrite. apply IH in Hrun. congruence.
Qed.

Lemma convertLoop_ok entries : forall (res : list double) i,
  Forall (fun entry => length entry.2 = dimsOf getFeatureDef entry.1) entries ->
  i + sum_list_with (fun entry => dimsOf getFeatureDef entry.1) entries <= length res ->
  convertLoop getFeatureDef entries res i =
    Done (Some (take i res ++ concat (map snd entries) ++
                drop (i + sum_list_with (fun entry => dimsOf getFeatureDef entry.1) entries)
                  res)).
Proof.
  induction entries as [|[featureName values] rest IH]; intros res i Hall Hlen.
  - simpl. by rewrite Nat.add_0_r, take_drop.
  - apply Forall_cons in Hall as [Hhead Hall]. unfold dimsOf in Hhead. simpl in *.
    rewrite decide_False by (intros Hne; by apply Hne).
    unfold dimsOf in Hlen. simpl in Hlen.
    rewrite writeValues_ok by lia. simpl.
    rewrite IH; [|done|].
    + do 2 f_equal.
      rewrite splice_take by (done || lia).
      unfold dimsOf. simpl. rewrite <- Hhead, Nat.add_assoc.
      rewrite splice_drop by (done || lia).
      by rewrite <- !app_assoc.
    + rewrite splice_length by (done || lia). unfold dimsOf. simpl. lia.
Qed.

End ConvertSuccess.

(** X3. When every feature of the value map has as many values as its
    declared nbDimensions and the map holds requested features only,
    convertFeatureValuesMapToInputVector returns a vector of nbDimensions
    entries: the values of the features, in the order the map is visited,
    followed by zeros; a requested feature that the map lacks is not
    detected, it shortens the values and lengthens the zeros. *)
Theorem convert_matching_map
    (getFeatureDef : string -> FeatureDef) (featureNames : gset string)
    (featureValuesMap : gmap string (list double)) :
  (forall featureName values,
     featureValuesMap !! featureName = Some values ->
     length values = nbDimensions (getFeatureDef featureName)) ->
  dom featureValuesMap ⊆ featureNames ->
  let nbDims := totalDimensions getFeatureDef featureNames in
  let values := concat (map snd (map_to_list featureValuesMap)) in
  length values <= nbDims
  /\ convertFeatureValuesMapToInputVector getFeatureDef featureValuesMap nbDims
     = Done (Some (values ++ replicate (nbDims - length values) Double.zero))
  /\ (dom featureValuesMap = featureNames -> length values = nbDims).
Proof.
  intros Hmatch Hsub nbDims values.
  assert (Hall : Forall (fun entry => length entry.2 = dimsOf getFeatureDef entry.1)
                   (map_to_list featureValuesMap)).
  { apply Forall_forall. intros [name vs] Hin.
    apply elem_of_map_to_list in Hin. by apply (Hmatch name vs). }
  assert (Hlen : length values
                 = sum_list_with (fun entry => dimsOf getFeatureDef entry.1)
                     (map_to_list featureValuesMap)).
  { unfold values. clear -Hall.
    induction Hall as [|entry rest Hentry _ IH]; [done|].
    simpl. by rewrite length_app, IH, Hentry. }
  pose proof (requested_dimensions_bound getFeatureDef featureValuesMap featureNames Hsub)
    as Hbound.
  split; [by rewrite Hlen|]. split.
  - unfold convertFeatureValuesMapToInputVector, SOM.newInputVector.
    rewrite convertLoop_ok by (done || (rewrite length_replicate; done)).
    simpl. by rewrite drop_replicate, <- Hlen.
  - intros Hdom. rewrite Hlen. unfold nbDims, totalDimensions.
    rewrite foldl_sum. simpl.
    assert (Hperm : elements featureNames ≡ₚ (map_to_list featureValuesMap).*1).
    { apply NoDup_Permutation.
      - apply NoDup_elements.
      - apply NoDup_fst_map_to_list.
      - intros name. rewrite elem_of_elements, <- Hdom, elem_of_dom.
        rewrite list_elem_of_fmap. split.
        + intros [vs Hvs]. exists (name, vs). split; [done|].
          by apply elem_of_map_to_list.
        + intros [[name' vs] [-> Hin]]. apply elem_of_map_to_list in Hin. by eexists. }
    rewrite Hperm. clear.
    induction (map_to_list featureValuesMap) as [|[k x] l IH]; simpl; [done|].
    by rewrite IH.
Qed.

(** ** The extraction of the samples *)

Section Extraction.

Variable getFeatureDef : string -> FeatureDef.
Variable db : Db.
Variable fetch : option (Z -> gset string -> option (gmap string (list double))).
Variable featureNames : gset string.
Variable nbDims : nat.

Lemma extractSamples_skips_unfetched trackId before after :
  fetchFeatureValues db fetch trackId featureNames = None ->
  forall samples ids s,
  _loadCancelled (engine s) = false ->
  resultOf (extractSamples getFeatureDef db None fetch featureNames nbDims
              (before ++ trackId :: after) samples ids s)
  = resultOf (extractSamples getFeatureDef db None fetch featureNames nbDims
                (before ++ after) samples ids s).
Proof.
  intros Hfetch.
  induction before as [|b before IH]; intros samples ids s Hflag.
  - cbn [app extractSamples]. rewrite readLoadCancelled_quiet by done.
    rewrite Hfetch. by apply extractSamples_quiet.
  - cbn [app extractSamples]. rewrite !readLoadCancelled_quiet by done.
    destruct (fetchFeatureValues db fetch b featureNames) as [mb|]; [|by apply IH].
    destruct (convertFeatureValuesMapToInputVector getFeatureDef mb nbDims)
      as [[v|]|f]; cbn [mbind Outcome_bind]; [by apply IH|by apply IH|done].
Qed.

Lemma extractSamples_collects cancelAt trackIds : forall samples0 ids0 s samples ids s',
  extractSamples getFeatureDef db cancelAt fetch featureNames nbDims
    trackIds samples0 ids0 s = Done (Some (samples, ids), s') ->
  samples = samples0 ++ omap (sampleOf getFeatureDef db fetch featureNames nbDims) trackIds
  /\ ids = ids0 ++ filter (fun trackId =>
                             is_Some (sampleOf getFeatureDef db fetch featureNames
                                        nbDims trackId)) trackIds.
Proof.
  induction trackIds as [|trackId rest IH]; intros samples0 ids0 s samples ids s' Hrun.
  - simpl in Hrun. injection Hrun as <- <- <-. by rewrite !app_nil_r.
  - cbn [extractSamples] in Hrun.
    destruct (readLoadCancelled cancelAt s) as [cancelled s1].
    destruct cancelled; [done|].
    cbn [omap list_omap]. rewrite filter_cons.
    destruct (fetchFeatureValues db fetch trackId featureNames) as [m|] eqn:Hfetch.
    + destruct (convertFeatureValuesMapToInputVector getFeatureDef m nbDims)
        as [[v|]|f] eqn:Hconv; cbn [mbind Outcome_bind] in Hrun; [| |done].
      * assert (Hs : sampleOf getFeatureDef db fetch featureNames nbDims trackId = Some v)
          by (unfold sampleOf; by rewrite Hfetch, Hconv).
        apply IH in Hrun as [-> ->]. rewrite Hs.
        rewrite decide_True by (by eexists). by rewrite <- !app_assoc.
      * assert (Hs : sampleOf getFeatureDef db fetch featureNames nbDims trackId = None)
          by (unfold sampleOf; by rewrite Hfetch, Hconv).
        apply IH in Hrun as [-> ->]. rewrite Hs.
        rewrite decide_False by (by intros [? ?]). done.
    + assert (Hs : sampleOf getFeatureDef db fetch featureNames nbDims trackId = None)
        by (unfold sampleOf; by rewrite Hfetch).
      apply IH in Hrun as [-> ->]. rewrite Hs.
      rewrite decide_False by (by intros [? ?]). done.
Qed.

Lemma sampleOf_length trackId v :
  sampleOf getFeatureDef db fetch featureNames nbDims trackId = Some v ->
  length v = nbDims.
Proof.
  unfold sampleOf. intros Hv.
  destruct (fetchFeatureValues db fetch trackId featureNames) as [m|]; [|done].
  destruct (convertFeatureValuesMapToInputVector getFeatureDef m nbDims)
    as [[v'|]|f] eqn:Hconv; [|done|done].
  injection Hv as <-. apply convertLoop_length in Hconv.
  unfold SOM.newInputVector in Hconv. by rewrite length_replicate in Hconv.
Qed.

End Extraction.

(** X4. A track for which no value map is fetched contributes no sample,
    and the extraction loop (not cancelled) collects what it collects for
    the batch without that track. With the database as the feature source,
    no value map is fetched exactly when the track is unknown or its value
    map for the requested features is empty. *)
Theorem track_without_features_skipped
    (getFeatureDef : string -> FeatureDef) (db : Db)
    (fetch : option (Z -> gset string -> option (gmap string (list double))))
    (featureNames : gset string) (nbDims : nat) (trackId : Z) :
  (fetchFeatureValues db fetch trackId featureNames = None ->
   forall before after samples ids s,
     _loadCancelled (engine s) = false ->
     resultOf (extractSamples getFeatureDef db None fetch featureNames nbDims
                 (before ++ trackId :: after) samples ids s)
     = resultOf (extractSamples getFeatureDef db None fetch featureNames nbDims
                   (before ++ after) samples ids s))
  /\ (fetchFeatureValues db None trackId featureNames = None
      <-> tracks db !! trackId = None
          \/ exists track, tracks db !! trackId = Some track
               /\ getFeatureValuesMap track featureNames = ∅).
Proof.
  split.
  - intros Hfetch before after samples ids s Hflag.
    by apply extractSamples_skips_unfetched.
  - unfold fetchFeatureValues, getTrackFeatureValuesFromDb.
    destruct (tracks db !! trackId) as [track|]; [|split; [by left|done]].
    destruct (decide (getFeatureValuesMap track featureNames = ∅)) as [Hempty|Hvalues].
    + split; [|done]. intros _. right. by exists track.
    + split; [done|]. intros [?|(track' & [= <-] & ?)]; done.
Qed.

(** X5. When the extraction loop runs to its end, the sample track ids are
    the tracks of the batch that have an input vector, in the order of the
    batch, the samples are their input vectors in the same order, and every
    sample has nbDimensions entries. *)
Theorem extractSamples_result
    (getFeatureDef : string -> FeatureDef) (db : Db) (cancelAt : option nat)
    (fetch : option (Z -> gset string -> option (gmap string (list double))))
    (featureNames : gset string) (nbDims : nat) (trackIds : list Z)
    (s : Sys) (samples : list (list double)) (samplesTrackIds : list Z) (s' : Sys) :
  extractSamples getFeatureDef db cancelAt fetch featureNames nbDims trackIds [] [] s
    = Done (Some (samples, samplesTrackIds), s') ->
  samples = omap (sampleOf getFeatureDef db fetch featureNames nbDims) trackIds
  /\ samplesTrackIds
     = filter (fun trackId =>
                 is_Some (sampleOf getFeatureDef db fetch featureNames nbDims trackId))
         trackIds
  /\ Forall2 (fun trackId sample =>
                sampleOf getFeatureDef db fetch featureNames nbDims trackId = Some sample)
       samplesTrackIds samples
  /\ Forall (fun sample => length sample = nbDims) samples
  /\ samplesTrackIds `sublist_of` trackIds.
Proof.
  intros Hrun. apply extractSamples_collects in Hrun as [-> ->]. simpl.
  split; [done|]. split; [done|]. split; [|split].
  - induction trackIds as [|trackId rest IH]; [constructor|].
    cbn [omap list_omap]. rewrite filter_cons.
    destruct (sampleOf getFeatureDef db fetch featureNames nbDims trackId) as [v|] eqn:Hv.
    + rewrite decide_True by (by eexists). by constructor.
    + rewrite decide_False by (by intros [? ?]). done.
  - apply Forall_forall. intros v Hin.
    apply list_elem_of_omap in Hin as (trackId & _ & Hv).
    by eapply sampleOf_length.
  - apply sublist_filter.
Qed.
Lemma convert_matching_map_witness :
  let values := concat (map snd (map_to_list Cases.oneValue)) in
  dom Cases.oneValue ⊆ ({[ "a"%string ]} : gset string)
  /\ length values <= totalDimensions Scenario.featureDef {[ "a"%string ]}
  /\ convertFeatureValuesMapToInputVector Scenario.featureDef Cases.oneValue
       (totalDimensions Scenario.featureDef {[ "a"%string ]})
     = Done (Some (values ++
                   replicate (totalDimensions Scenario.featureDef {[ "a"%string ]}
                              - length values) Double.zero)).
Proof.
  intros values.
  assert (Hsub : dom Cases.oneValue ⊆ ({[ "a"%string ]} : gset string))
    by (apply (bool_decide_unpack _); vm_compute; exact I).
  split; [exact Hsub|].
  destruct (convert_matching_map Scenario.featureDef {[ "a"%string ]} Cases.oneValue)
    as (Hlen & Hconv & _).
  - intros featureName vs Hlookup. unfold Cases.oneValue in Hlookup.
    apply lookup_singleton_Some in Hlookup as [_ <-]. reflexivity.
  - exact Hsub.
  - split; [exact Hlen|exact Hconv].
Defined.

Lemma track_without_features_skipped_witness :
  fetchFeatureValues Scenario.catalog None 5%Z Cases.defaultNames = None
  /\ resultOf (extractSamples Scenario.featureDef Scenario.catalog None None
                 Cases.defaultNames 5 ([1%Z] ++ 5%Z :: [1%Z]) [] [] Scenario.fresh)
     = resultOf (extractSamples Scenario.featureDef Scenario.catalog None None
                   Cases.defaultNames 5 ([1%Z] ++ [1%Z]) [] [] Scenario.fresh)
  /\ tracks Scenario.catalog !! 5%Z = None.
Proof.
  assert (Hfetch : fetchFeatureValues Scenario.catalog None 5%Z Cases.defaultNames = None)
    by (vm_compute; reflexivity).
  split; [exact Hfetch|].
  destruct (track_without_features_skipped Scenario.featureDef Scenario.catalog None
              Cases.defaultNames 5 5%Z) as [Hbatch _].
  split; [apply Hbatch; [exact Hfetch|reflexivity]|vm_compute; reflexivity].
Defined.

Lemma extractSamples_result_witness :
  exists s',
    extractSamples Scenario.featureDef Scenario.analysedCatalog None None
      Cases.defaultNames 5 [1%Z; 5%Z] [] [] Scenario.fresh
    = Done (Some ([Cases.sample], [1%Z]), s')
    /\ [Cases.sample]
       = omap (sampleOf Scenario.featureDef Scenario.analysedCatalog None
                 Cases.defaultNames 5) [1%Z; 5%Z]
    /\ Forall (fun sample => length sample = 5) [Cases.sample]
    /\ [1%Z] `sublist_of` [1%Z; 5%Z].
Proof.
  eexists. split; [vm_compute; reflexivity|].
  destruct (extractSamples_result Scenario.featureDef Scenario.analysedCatalog None None
              Cases.defaultNames 5 [1%Z; 5%Z] Scenario.fresh [Cases.sample] [1%Z]
              {| engine := newEngine; cacheFile := None; cacheWrites := []; clock := 2 |})
    as (Hsamples & _ & _ & Hlengths & Hsub).
  - vm_compute. reflexivity.
  - split; [exact Hsamples|]. split; [exact Hlengths|exact Hsub].
Defined.

(** ** Classification and the trained model *)

Section Classification.

Variable cancelAt : option nat.
Variable getClosestRefVectorPosition : Network.t -> list double -> Z * Z.

Lemma positionsOfTrack_cons closest trackId sample rest id :
  positionsOfTrack closest ((trackId, sample) :: rest) id
  = if decide (trackId = id)
    then closest sample :: positionsOfTrack closest rest id
    else positionsOfTrack closest rest id.
Proof.
  unfold positionsOfTrack. rewrite filter_cons. simpl.
  by destruct (decide (trackId = id)).
Qed.

Lemma classifyTracks_lookup network samples :
  forall (trackPositions0 : gmap Z (list (Z * Z))) s trackPositions s',
  classifyTracks cancelAt getClosestRefVectorPosition network samples trackPositions0 s
    = (Some trackPositions, s') ->
  forall id,
    trackPositions !! id
    = match positionsOfTrack (getClosestRefVectorPosition network) samples id with
      | [] => trackPositions0 !! id
      | positions => Some (default [] (trackPositions0 !! id) ++ positions)
      end.
Proof.
  induction samples as [|[trackId sample] rest IH];
    intros trackPositions0 s trackPositions s' Hrun id.
  - simpl in Hrun. by injection Hrun as <- <-.
  - cbn [classifyTracks] in Hrun.
    destruct (readLoadCancelled cancelAt s) as [cancelled s1].
    destruct cancelled; [done|].
    rewrite (IH _ _ _ _ Hrun id). rewrite positionsOfTrack_cons.
    destruct (decide (trackId = id)) as [->|Hne].
    + rewrite lookup_insert_eq. simpl.
      destruct (positionsOfTrack _ rest id); [done|].
      by rewrite <- app_assoc.
    + by rewrite lookup_insert_ne.
Qed.

End Classification.

(** X6. When the classification loop runs to its end from an empty map, a
    track has an entry exactly when it has a sample, and its entry lists the
    nearest-neuron positions of its samples in the order of the samples, a
    position being repeated when two samples of the track share it. *)
Theorem classifyTracks_result
    (cancelAt : option nat)
    (getClosestRefVectorPosition : Network.t -> list double -> Z * Z)
    (network : Network.t) (samples : list (Z * list double)) (s : Sys)
    (trackPositions : gmap Z (list (Z * Z))) (s' : Sys) :
  classifyTracks cancelAt getClosestRefVectorPosition network samples ∅ s
    = (Some trackPositions, s') ->
  (forall trackId,
     trackPositions !! trackId
     = match positionsOfTrack (getClosestRefVectorPosition network) samples trackId with
       | [] => None
       | positions => Some positions
       end)
  /\ (forall trackId, is_Some (trackPositions !! trackId) <-> trackId ∈ samples.*1)
  /\ (NoDup samples.*1 ->
      forall trackId sample, (trackId, sample) ∈ samples ->
      trackPositions !! trackId = Some [getClosestRefVectorPosition network sample]).
Proof.
  intros Hrun.
  assert (Hlookup : forall trackId,
     trackPositions !! trackId
     = match positionsOfTrack (getClosestRefVectorPosition network) samples trackId with
       | [] => None
       | positions => Some positions
       end).
  { intros trackId. rewrite (classifyTracks_lookup _ _ _ _ _ _ _ _ Hrun trackId).
    rewrite lookup_empty. done. }
  split; [done|]. split.
  - intros trackId. rewrite Hlookup. unfold positionsOfTrack.
    rewrite list_elem_of_fmap. split.
    + intros [ps Hps].
      destruct (filter (fun sample => sample.1 = trackId) samples) as [|x l] eqn:Hf;
        [done|].
      assert (Hx : x ∈ filter (fun sample => sample.1 = trackId) samples)
        by (rewrite Hf; by left).
      apply list_elem_of_filter in Hx as [Hid Hx]. by exists x.
    + intros [x [-> Hx]].
      assert (Hin : x ∈ filter (fun sample => sample.1 = x.1) samples)
        by (by apply list_elem_of_filter).
      destruct (filter (fun sample => sample.1 = x.1) samples) as [|y l]; [|by eexists].
      by apply elem_of_nil in Hin.
  - intros Hnd trackId sample Hin. rewrite Hlookup. clear Hlookup Hrun.
    induction samples as [|[t v] rest IH]; [by apply elem_of_nil in Hin|].
    rewrite positionsOfTrack_cons. simpl in Hnd. apply NoDup_cons in Hnd as [Hfresh Hnd].
    assert (Hnone : forall id, id ∉ rest.*1 ->
              positionsOfTrack (getClosestRefVectorPosition network) rest id = []).
    { intros id Hid. unfold positionsOfTrack.
      destruct (filter (fun sample => sample.1 = id) rest) as [|y l] eqn:Hf; [done|].
      assert (Hy : y ∈ filter (fun sample => sample.1 = id) rest)
        by (rewrite Hf; by left).
      apply list_elem_of_filter in Hy as [<- Hy]. exfalso. apply Hid.
      apply list_elem_of_fmap. by exists y. }
    apply elem_of_cons in Hin as [[= -> ->]|Hin].
    + rewrite decide_True by done. by rewrite Hnone.
    + destruct (decide (t = trackId)) as [->|Hne]; [|by apply IH].
      exfalso. apply Hfresh. apply list_elem_of_fmap. by exists (trackId, sample).
Qed.
Lemma classifyTracks_result_witness :
  exists s',
    classifyTracks None Scenario.closestIsCorner Scenario.network Cases.samples ∅
      Scenario.fresh
    = (Some {[ 1%Z := [(1%Z, 1%Z)] ]}, s')
    /\ (forall trackId,
          is_Some (({[ 1%Z := [(1%Z, 1%Z)] ]} : gmap Z (list (Z * Z))) !! trackId)
          <-> trackId ∈ Cases.samples.*1).
Proof.
  eexists. split; [vm_compute; reflexivity|].
  destruct (classifyTracks_result None Scenario.closestIsCorner Scenario.network
              Cases.samples Scenario.fresh {[ 1%Z := [(1%Z, 1%Z)] ]}
              {| engine := newEngine; cacheFile := None; cacheWrites := []; clock := 1 |})
    as (_ & Hdom & _).
  - vm_compute. reflexivity.
  - exact Hdom.
Defined.

Section TrainedModel.

Variable getFeatureDef : string -> FeatureDef.
Variable db : Db.
Variable cancelAt : option nat.
Variable fetch : option (Z -> gset string -> option (gmap string (list double))).
Variable initialRefVectors : Z -> Z -> nat -> gmap (Z * Z) (list double).
Variable trainIteration :
  nat -> Network.t -> list (list double) -> gmap (Z * Z) (list double).
Variable getClosestRefVectorPosition : Network.t -> list double -> Z * Z.
Variable normalizeData : list (list double) -> list double -> list double.

Lemma train_shape remaining : forall k samples network s,
  let trained := (train cancelAt trainIteration remaining k samples network s).1 in
  Network.dimensions trained = Network.dimensions network
  /\ Network.dataWeights trained = Network.dataWeights network.
Proof.
  induction remaining as [|remaining IH]; intros k samples network s; [done|].
  cbn [train]. destruct (readLoadCancelled cancelAt s) as [cancelled s1].
  destruct cancelled; [done|].
  destruct (IH (S k) samples
              (Network.setRefVectors (trainIteration k network samples) network) s1)
    as [Hd Hw].
  cbv zeta. by rewrite Hd, Hw.
Qed.

Lemma buildNetwork_shape trainSettings nbDims sampleCount network :
  buildNetwork getFeatureDef initialRefVectors trainSettings nbDims sampleCount
    = Done network ->
  gridSize sampleCount (sampleCountPerNeuron trainSettings)
    = Done (Network.width network)
  /\ Network.height network = Network.width network
  /\ Network.dimensions network = nbDims
  /\ getInputVectorWeights getFeatureDef (featureSettingsMap trainSettings) nbDims
     = Done (Network.dataWeights network).
Proof.
  unfold buildNetwork. intros Hrun.
  apply bind_done in Hrun as (size & Hsize & Hrun).
  destruct (getInputVectorWeights _ _ _) as [weights|f]; simpl in Hrun; [|done].
  by injection Hrun as <-.
Qed.

Lemma fst_zip_same_length {A B} (l : list A) (k : list B) :
  length l = length k -> (zip l k).*1 = l.
Proof. intros Hlen. apply fst_zip. lia. Qed.

End TrainedModel.

(** X7. When loadFromTraining reaches its call of load(network,
    trackPositions), the network it hands over is square, its side is the
    size that the single-precision computation of line 200 returns for the
    number of tracks that gave a sample, and is at least 2, its
    dimension count and the length of its data weights are the sum of the
    features' dimensions, and the track positions hold exactly the tracks of
    Track::getAllIdsWithFeatures that gave a sample, each with a non-empty
    list (of one position when the ids are distinct). No read of the flag
    saw a cancellation, and nothing was written to the cache. *)
Theorem prepareModel_result
    (getFeatureDef : string -> FeatureDef) (db : Db) (cancelAt : option nat)
    (fetch : option (Z -> gset string -> option (gmap string (list double))))
    (initialRefVectors : Z -> Z -> nat -> gmap (Z * Z) (list double))
    (trainIteration : nat -> Network.t -> list (list double) -> gmap (Z * Z) (list double))
    (getClosestRefVectorPosition : Network.t -> list double -> Z * Z)
    (normalizeData : list (list double) -> list double -> list double)
    (trainSettings : TrainSettings) (s : Sys)
    (network : Network.t) (trackPositions : gmap Z (list (Z * Z))) (s' : Sys) :
  let featureNames := featureNamesOf (featureSettingsMap trainSettings) in
  let nbDims := totalDimensions getFeatureDef featureNames in
  let hasSample := fun trackId =>
    is_Some (sampleOf getFeatureDef db fetch featureNames nbDims trackId) in
  prepareModel getFeatureDef db cancelAt fetch initialRefVectors trainIteration
    getClosestRefVectorPosition normalizeData trainSettings s
    = Done (Some (network, trackPositions), s') ->
  gridSize (length (filter hasSample (getAllIdsWithFeatures db)))
    (sampleCountPerNeuron trainSettings) = Done (Network.width network)
  /\ (2 <= Network.width network)%Z
  /\ Network.height network = Network.width network
  /\ Network.dimensions network = nbDims
  /\ length (Network.dataWeights network) = nbDims
  /\ (forall trackId,
        is_Some (trackPositions !! trackId)
        <-> trackId ∈ getAllIdsWithFeatures db /\ hasSample trackId)
  /\ (forall trackId positions,
        trackPositions !! trackId = Some positions ->
        positions <> []
        /\ (NoDup (getAllIdsWithFeatures db) -> length positions = 1))
  /\ _loadCancelled (engine s') = false
  /\ polledOnly s s'.
Proof.
  intros featureNames nbDims hasSample Hrun.
  pose proof (prepareModel_stops _ _ _ _ _ _ _ _ _ _ _ _ Hrun) as [Hpolled _].
  unfold prepareModel in Hrun. fold featureNames nbDims in Hrun.
  destruct (extractSamples _ _ _ _ _ _ _ _ _ s) as [[extracted s1]|f] eqn:Hextract;
    cbn [mbind Outcome_bind] in Hrun; [|done].
  destruct extracted as [[samples ids]|]; [|done].
  pose proof (extractSamples_lengths _ _ _ _ _ _ _ _ _ _ _ _ _ Hextract eq_refl) as Hlen.
  apply extractSamples_collects in Hextract as [Hsamples Hids]. simpl in Hsamples, Hids.
  fold hasSample in Hids.
  destruct samples as [|sample samples]; [done|].
  set (all := sample :: samples) in *.
  destruct (buildNetwork _ _ _ _ _) as [network0|f] eqn:Hbuild;
    cbn [mbind Outcome_bind] in Hrun; [|done].
  apply buildNetwork_shape in Hbuild as (Hw & Hh & Hd & Hweights).
  rewrite length_map in Hw.
  destruct (train _ _ _ _ _ network0 s1) as [trained s2] eqn:Htrain.
  pose proof (train_size cancelAt trainIteration (iterationCount trainSettings) 0
                (map (normalizeData all) all) network0 s1) as [Hw' Hh'].
  pose proof (train_shape cancelAt trainIteration (iterationCount trainSettings) 0
                (map (normalizeData all) all) network0 s1) as [Hd' Hdw'].
  rewrite Htrain in Hw', Hh', Hd', Hdw'. simpl in Hw', Hh', Hd', Hdw'.
  destruct (classifyTracks _ _ _ _ _ s2) as [classified s3] eqn:Hclassify.
  destruct classified as [tp|]; [|done].
  injection Hrun as <- <- <-.
  assert (Hkeys : (zip ids (map (normalizeData all) all)).*1 = ids).
  { apply fst_zip_same_length. rewrite length_map. lia. }
  assert (Hflag : _loadCancelled (engine s3) = false).
  { eapply classifyTracks_completed; [|exact Hclassify].
    subst all. destruct ids as [|id ids']; [done|]. done. }
  assert (Hdom : forall trackId, is_Some (tp !! trackId) <-> trackId ∈ ids).
  { intros trackId.
    rewrite (classifyTracks_lookup _ _ _ _ _ _ _ _ Hclassify trackId), lookup_empty.
    rewrite <- Hkeys at 2. unfold positionsOfTrack. rewrite list_elem_of_fmap.
    set (zs := zip ids (map (normalizeData all) all)).
    split.
    - intros Hsome.
      destruct (filter (fun sample => sample.1 = trackId) zs) as [|x l] eqn:Hf;
        [by destruct Hsome|].
      assert (Hx : x ∈ filter (fun sample => sample.1 = trackId) zs)
        by (rewrite Hf; by left).
      apply list_elem_of_filter in Hx as [Hid Hx]. by exists x.
    - intros [x [-> Hx]].
      assert (Hin : x ∈ filter (fun sample => sample.1 = x.1) zs)
        by (by apply list_elem_of_filter).
      destruct (filter (fun sample => sample.1 = x.1) zs) as [|y l]; [|by eexists].
      by apply elem_of_nil in Hin. }
  assert (Hsize : gridSize (length (filter hasSample (getAllIdsWithFeatures db)))
                    (sampleCountPerNeuron trainSettings) = Done (Network.width trained)).
  { rewrite Hw', <- Hw. f_equal. rewrite <- Hids. lia. }
  split; [exact Hsize|].
  split; [by eapply gridSize_at_least_two|].
  split; [by rewrite Hw', Hh'|].
  split; [by rewrite Hd'|].
  split.
  { rewrite Hdw'.
    unfold getInputVectorWeights in Hweights.
    destruct (weightsLoop _ _ _ _) as [[w i]|f] eqn:Hloop; simpl in Hweights; [|done].
    destruct (decide (i = nbDims)) as [->|]; [|done]. injection Hweights as <-.
    apply weightsLoop_done in Hloop as (_ & Hl & _).
    unfold SOM.newInputVector in Hl. by rewrite length_replicate in Hl. }
  split.
  { intros trackId. rewrite Hdom, Hids, list_elem_of_filter. tauto. }
  split; [|done].
  intros trackId positions Hlookup.
  rewrite (classifyTracks_lookup _ _ _ _ _ _ _ _ Hclassify trackId), lookup_empty
    in Hlookup.
  split.
  { intros ->. by destruct (positionsOfTrack _ _ trackId). }
  intros Hnd.
  assert (Hndids : NoDup ids).
  { rewrite Hids. by apply NoDup_filter. }
  unfold positionsOfTrack in Hlookup.
  set (zs := zip ids (map (normalizeData all) all)) in *.
  assert (Hone : forall (l : list (Z * list double)),
            NoDup l.*1 -> length (filter (fun sample => sample.1 = trackId) l) <= 1).
  { clear. induction l as [|[t v] l IH]; intros Hnd; simpl; [lia|].
    apply NoDup_cons in Hnd as [Hfresh Hnd]. rewrite filter_cons. simpl.
    destruct (decide (t = trackId)) as [->|]; [|by apply IH].
    simpl. destruct (filter (fun sample => sample.1 = trackId) l) as [|y k] eqn:Hf;
      [simpl; lia|].
    assert (Hy : y ∈ filter (fun sample => sample.1 = trackId) l)
      by (rewrite Hf; by left).
    apply list_elem_of_filter in Hy as [<- Hy]. exfalso. apply Hfresh.
    apply list_elem_of_fmap. by exists y. }
  specialize (Hone zs). rewrite Hkeys in Hone. specialize (Hone Hndids).
  destruct (filter (fun sample => sample.1 = trackId) zs) as [|x [|y l]];
    simpl in *; [done| |lia].
  by injection Hlookup as <-.
Qed.
Lemma prepareModel_result_witness :
  let hasSample := fun trackId =>
    is_Some (sampleOf Scenario.featureDef Scenario.analysedCatalog None
               Cases.defaultNames
               (totalDimensions Scenario.featureDef Cases.defaultNames) trackId) in
  exists network trackPositions s',
    Scenario.prepareAnalysed None Scenario.fresh
    = Done (Some (network, trackPositions), s')
    /\ gridSize (length (filter hasSample
                             (getAllIdsWithFeatures Scenario.analysedCatalog)))
         (Float.ofZ 4) = Done (Network.width network)
    /\ (2 <= Network.width network)%Z
    /\ Network.height network = Network.width network
    /\ Network.dimensions network
       = totalDimensions Scenario.featureDef Cases.defaultNames
    /\ length (Network.dataWeights network)
       = totalDimensions Scenario.featureDef Cases.defaultNames
    /\ (forall trackId,
          is_Some (trackPositions !! trackId)
          <-> trackId ∈ getAllIdsWithFeatures Scenario.analysedCatalog
              /\ hasSample trackId)
    /\ (forall trackId positions,
          trackPositions !! trackId = Some positions ->
          positions <> []
          /\ (NoDup (getAllIdsWithFeatures Scenario.analysedCatalog) ->
              length positions = 1))
    /\ _loadCancelled (engine s') = false
    /\ polledOnly Scenario.fresh s'.
Proof.
  intros hasSample.
  let run := eval vm_compute in (Scenario.prepareAnalysed None Scenario.fresh) in
  match run with
  | Done (Some (?network, ?trackPositions), ?s') => exists network, trackPositions, s'
  end.
  split; [vm_compute; reflexivity|].
  apply (prepareModel_result Scenario.featureDef Scenario.analysedCatalog None None
           Scenario.initialRefVectors Scenario.trainIteration Scenario.closestIsCorner
           Scenario.normalize (defaultTrainSettings 10 (Float.ofZ 4)) Scenario.fresh).
  vm_compute. reflexivity.
Defined.

(** ** Invariants of the index *)

Lemma indexedBy_consistent (F : Z -> Track -> Z * Z -> Prop) e e' :
  indexedBy F e e' -> consistentIndex e -> consistentIndex e'.
Proof.
  intros (H1 & H2 & H3 & H4 & H5 & H6) (C1 & C2 & C3).
  unfold consistentIndex. repeat apply conj.
  - intros id p Hin. apply H1. apply H2 in Hin as [Hin|Hin]; [left; by apply C1|by right].
  - intros r p Hin. apply H3. apply H4 in Hin as [Hin|Hin]; [left; by apply C2|by right].
  - intros t a p Hin. apply H5. apply H6 in Hin as [Hin|Hin].
    + left. by eapply C3.
    + right. destruct Hin as (id & track & link & ? & ? & ? & ?).
      by exists id, track, link.
Qed.

Lemma loadModel_consistent db cancelAt median network trackPositions s s' :
  loadModel db cancelAt median network trackPositions s = Done s' ->
  consistentIndex (engine s) -> consistentIndex (engine s').
Proof.
  intros Hrun (C1 & C2 & C3).
  apply loadModel_loop in Hrun as (completed & s1 & Hrun & ->).
  apply indexTracks_indexedBy in Hrun as (n & _ & _ & Hindexed).
  apply indexedBy_consistent in Hindexed.
  - by destruct completed.
  - unfold consistentIndex. simpl. repeat apply conj; [| |done].
    + intros id p Hin. by apply inCell_new in Hin.
    + intros r p Hin. by apply inCell_new in Hin.
Qed.

(** X10. In every engine that the member functions produce from a freshly
    constructed one, an id listed in a cell of a matrix has that position
    in the positions map of its kind: for the track matrix, the release
    matrix and every artist matrix. *)
Theorem reachable_consistentIndex (e : FeaturesEngine) :
  reachable e -> consistentIndex e.
Proof.
  induction 1 as [|v e _ IH|db cancelAt median network trackPositions s s' _ IH Hrun].
  - unfold consistentIndex. repeat apply conj.
    + intros id p Hin. by apply inCell_new in Hin.
    + intros r p Hin. by apply inCell_new in Hin.
    + intros t a p (matrix & Hlookup & _).
      change (_artistMatrix newEngine) with (∅ : gmap nat Matrix.t) in Hlookup.
      by rewrite lookup_empty in Hlookup.
  - done.
  - by eapply loadModel_consistent.
Qed.

(** X11. In every engine that the member functions produce from a freshly
    constructed one, no position list and no matrix cell holds an element
    twice, and every entry of a positions map is non-empty. *)
Theorem reachable_distinctIndex (e : FeaturesEngine) :
  reachable e -> distinctIndex e.
Proof.
  induction 1 as [|v e _ IH|db cancelAt median network trackPositions s s' _ IH Hrun].
  - apply newEngine_distinctIndex.
  - done.
  - by eapply loadModel_distinctIndex.
Qed.

Lemma loadModel_sizesKept db cancelAt median network trackPositions s s' :
  loadModel db cancelAt median network trackPositions s = Done s' ->
  sizesKept (Network.width network) (Network.height network)
    (resetForLoad (median network) (Network.width network) (Network.height network)
       (engine s))
    (engine s').
Proof.
  intros Hrun.
  refine (loadModel_steps (sizesKept (Network.width network) (Network.height network))
            _ _ _ _ _ _ _
            (sizesKept_refl _ _) (sizesKept_trans _ _)
            (fun v e => sizesKept_refl _ _ e) (fun v e => sizesKept_refl _ _ e)
            _ Hrun).
  intros trackId track e position e'. apply indexPosition_sizes.
Qed.

(** X12. When load(network, trackPositions) returns, cancelled or not, the
    track and the release matrix have the width and the height of the
    network. An artist matrix that the engine already had keeps the size
    it was created with; one created by this load has the size of the
    network; no artist matrix is removed. The load returns when nobody
    cancels it, every position of the model lies in the grid of the network
    and every artist matrix that the engine already has holds that grid. *)
Theorem loadModel_sizes
    (db : Db) (cancelAt : option nat)
    (computeRefVectorsDistanceMedian : Network.t -> double)
    (network : Network.t) (trackPositions : gmap Z (list (Z * Z))) (s : Sys) :
  let w := Network.width network in
  let h := Network.height network in
  (forall s',
     loadModel db cancelAt computeRefVectorsDistanceMedian network trackPositions s
       = Done s' ->
     hasSize w h (_trackMatrix (engine s'))
     /\ hasSize w h (_releaseMatrix (engine s'))
     /\ (forall t matrix',
           _artistMatrix (engine s') !! t = Some matrix' ->
           match _artistMatrix (engine s) !! t with
           | Some matrix => sameSize matrix matrix'
           | None => hasSize w h matrix'
           end)
     /\ (forall t, is_Some (_artistMatrix (engine s) !! t) ->
                   is_Some (_artistMatrix (engine s') !! t)))
  /\ (_loadCancelled (engine s) = false ->
      positionsInGrid w h trackPositions ->
      (forall t matrix,
         _artistMatrix (engine s) !! t = Some matrix -> covers w h matrix) ->
      exists s',
        loadModel db None computeRefVectorsDistanceMedian network trackPositions s
          = Done s').
Proof.
  intros w h. split.
  - intros s' Hrun.
    destruct (loadModel_sizesKept _ _ _ _ _ _ _ Hrun)
      as ([Tw Th] & [Rw Rh] & A & S).
    done.
  - intros Hflag Hgrid Hcovers.
    destruct (loadModel_quiet db computeRefVectorsDistanceMedian network
                trackPositions s Hflag Hgrid Hcovers) as (s' & Hrun & _).
    by exists s'.
Qed.

Lemma reachable_consistentIndex_witness :
  reachable (engine Scenario.loadedA) /\ consistentIndex (engine Scenario.loadedA).
Proof.
  split; [exact loadedA_reachable|].
  exact (reachable_consistentIndex (engine Scenario.loadedA) loadedA_reachable).
Defined.

Lemma reachable_distinctIndex_witness :
  reachable (engine Cases.cancelled) /\ distinctIndex (engine Cases.cancelled).
Proof.
  assert (Hreachable : reachable (engine Cases.cancelled)).
  { apply (reachable_flag true (engine Scenario.loadedA)), loadedA_reachable. }
  split; [exact Hreachable|].
  exact (reachable_distinctIndex (engine Cases.cancelled) Hreachable).
Defined.

(** ** What load(network, trackPositions) builds *)

Lemma placedByEntries_model db (trackPositions : gmap Z (list (Z * Z))) id track p :
  placedByEntries db (map_to_list trackPositions) id track p
  <-> placedByModel db trackPositions id track p.
Proof.
  unfold placedByEntries, placedByModel.
  by setoid_rewrite elem_of_map_to_list.
Qed.

Lemma loadModel_quiet_indexedBy db median network trackPositions s s' :
  _loadCancelled (engine s) = false ->
  loadModel db None median network trackPositions s = Done s' ->
  _loadCancelled (engine s') = false
  /\ _network (engine s') = Some network
  /\ indexedBy (placedByModel db trackPositions)
       (resetForLoad (median network) (Network.width network) (Network.height network)
          (engine s)) (engine s').
Proof.
  intros Hclear Hrun.
  apply loadModel_loop in Hrun as (completed & s1 & Hrun & ->).
  assert (Hdone : completed = true /\ _loadCancelled (engine s1) = false)
    by (eapply indexTracks_quiet_done; [|exact Hrun]; done).
  destruct Hdone as [-> Hflag].
  destruct (indexTracks_indexedBy _ _ _ _ _ _ _ _ Hrun)
    as (n & Hn & Hcompleted & Hindexed).
  assert (Hall : n = length (map_to_list trackPositions)) by (by apply Hcompleted).
  rewrite Hall, firstn_all in Hindexed.
  apply (indexedBy_ext _ (placedByModel db trackPositions)) in Hindexed;
    [|intros; apply placedByEntries_model].
  split; [done|]. split; [done|]. exact Hindexed.
Qed.

(** X8. When load(network, trackPositions) returns, cancelled or not, it
    has indexed a prefix of the entries of the model, in the iteration
    order of the map, on top of the engine with the median overwritten and
    the track and release matrices re-created: what the position maps and
    the artist matrices listed before stays listed. The network is taken
    over exactly when every entry was indexed; otherwise the engine keeps
    the network it had and the flag is set. Nothing is written to the
    cache. *)
Theorem loadModel_indexes_prefix
    (db : Db) (cancelAt : option nat)
    (computeRefVectorsDistanceMedian : Network.t -> double)
    (network : Network.t) (trackPositions : gmap Z (list (Z * Z))) (s s' : Sys) :
  let entries := map_to_list trackPositions in
  loadModel db cancelAt computeRefVectorsDistanceMedian network trackPositions s
    = Done s' ->
  exists n,
    n <= length entries
    /\ indexedBy (placedByEntries db (take n entries))
         (resetForLoad (computeRefVectorsDistanceMedian network)
            (Network.width network) (Network.height network) (engine s))
         (engine s')
    /\ _networkRefVectorsDistanceMedian (engine s')
       = computeRefVectorsDistanceMedian network
    /\ (n = length entries -> _network (engine s') = Some network)
    /\ (n < length entries ->
        _network (engine s') = _network (engine s)
        /\ _loadCancelled (engine s') = true)
    /\ cacheWrites s' = cacheWrites s /\ cacheFile s' = cacheFile s.
Proof.
  intros entries Hrun.
  apply loadModel_loop in Hrun as (completed & s1 & Hrun & ->).
  fold entries in Hrun.
  destruct (indexTracks_indexedBy _ _ _ _ _ _ _ _ Hrun) as (n & Hn & Hcompleted & Hindexed).
  destruct (indexTracks_control _ _ _ _ _ _ _ _ Hrun) as (Hnetwork & Hmedian & _ & Hflag).
  destruct (indexTracks_cacheWrites _ _ _ _ _ _ _ _ Hrun) as [Hwrites Hfile].
  simpl in Hnetwork, Hmedian, Hwrites, Hfile.
  exists n. split; [done|].
  destruct completed.
  - split; [done|]. split; [done|]. split; [done|]. split; [|done].
    intros Hlt. assert (n = length entries) by (by apply Hcompleted). lia.
  - split; [done|]. split; [done|]. split.
    + intros Hall. apply Hcompleted in Hall. done.
    + split; [|done]. intros _. split; [done|]. by apply Hflag.
Qed.

(** X9. A load(network, trackPositions) that nobody cancels, of a model
    whose positions lie in the grid of the network, into an engine whose
    artist matrices hold that grid, returns; it takes the network over and
    rebuilds the track and the release matrix from the model alone: a cell
    lists exactly the tracks of the model that Track::getById finds and
    that the model places there, and the releases of such tracks. The
    position maps and the artist matrices list what they listed before and
    what the model brings. *)
Theorem loadModel_completed
    (db : Db) (computeRefVectorsDistanceMedian : Network.t -> double)
    (network : Network.t) (trackPositions : gmap Z (list (Z * Z))) (s : Sys) :
  _loadCancelled (engine s) = false ->
  positionsInGrid (Network.width network) (Network.height network) trackPositions ->
  (forall t matrix,
     _artistMatrix (engine s) !! t = Some matrix ->
     covers (Network.width network) (Network.height network) matrix) ->
  exists s',
    loadModel db None computeRefVectorsDistanceMedian network trackPositions s
      = Done s'
    /\ _network (engine s') = Some network
    /\ _loadCancelled (engine s') = false
    /\ indexedBy (placedByModel db trackPositions)
         (resetForLoad (computeRefVectorsDistanceMedian network)
            (Network.width network) (Network.height network) (engine s)) (engine s')
    /\ (forall id p,
          inCell (_trackMatrix (engine s')) p id
          <-> exists track, placedByModel db trackPositions id track p)
    /\ (forall r p,
          inCell (_releaseMatrix (engine s')) p r
          <-> exists id track,
                placedByModel db trackPositions id track p
                /\ getRelease track = Some r).
Proof.
  intros Hclear Hgrid Hcovers.
  destruct (loadModel_quiet db computeRefVectorsDistanceMedian network trackPositions
              s Hclear Hgrid Hcovers) as (s' & Hrun & _).
  destruct (loadModel_quiet_indexedBy db computeRefVectorsDistanceMedian network
              trackPositions s s' Hclear Hrun) as (Hflag & Hnetwork & Hindexed).
  exists s'. split; [done|]. split; [done|]. split; [done|]. split; [done|].
  destruct Hindexed as (_ & Htracks & _ & Hreleases & _).
  simpl in Htracks, Hreleases.
  split.
  - intros id p. rewrite Htracks. split; [|by right].
    intros [Hin|?]; [|done]. by apply inCell_new in Hin.
  - intros r p. rewrite Hreleases. split; [|by right].
    intros [Hin|?]; [|done]. by apply inCell_new in Hin.
Qed.

Lemma modelA_in_grid :
  positionsInGrid 2 2 (_cacheTrackPositions Scenario.modelA).
Proof.
  intros trackId positions position Hlookup Hin.
  change (_cacheTrackPositions Scenario.modelA)
    with ({[ 1%Z := [(0%Z, 0%Z)] ]} : gmap Z (list (Z * Z))) in Hlookup.
  apply lookup_singleton_Some in Hlookup as [_ <-].
  apply list_elem_of_singleton in Hin as ->. unfold Matrix.inGrid. simpl. lia.
Qed.

Lemma fresh_covers w h t matrix :
  _artistMatrix (engine Scenario.fresh) !! t = Some matrix -> covers w h matrix.
Proof.
  change (_artistMatrix (engine Scenario.fresh)) with (∅ : gmap nat Matrix.t).
  by rewrite lookup_empty.
Qed.

Lemma loadModel_indexes_prefix_witness :
  loadModel Scenario.catalog None Scenario.median Scenario.network
    (_cacheTrackPositions Scenario.modelA) Scenario.fresh = Done Scenario.loadedA
  /\ exists n,
       n <= 1
       /\ (n = 1 -> _network (engine Scenario.loadedA) = Some Scenario.network)
       /\ cacheWrites Scenario.loadedA = cacheWrites Scenario.fresh.
Proof.
  assert (Hrun : loadModel Scenario.catalog None Scenario.median Scenario.network
                   (_cacheTrackPositions Scenario.modelA) Scenario.fresh
                 = Done Scenario.loadedA) by (vm_compute; reflexivity).
  split; [exact Hrun|].
  destruct (loadModel_indexes_prefix Scenario.catalog None Scenario.median
              Scenario.network (_cacheTrackPositions Scenario.modelA) Scenario.fresh
              Scenario.loadedA Hrun) as (n & Hn & _ & _ & Hall & _ & Hwrites & _).
  exists n. split; [exact Hn|]. split; [exact Hall|exact Hwrites].
Defined.

Lemma loadModel_completed_witness :
  _loadCancelled (engine Scenario.fresh) = false
  /\ positionsInGrid 2 2 (_cacheTrackPositions Scenario.modelA)
  /\ exists s',
       loadModel Scenario.catalog None Scenario.median Scenario.network
         (_cacheTrackPositions Scenario.modelA) Scenario.fresh = Done s'
       /\ _network (engine s') = Some Scenario.network
       /\ (forall id p,
             inCell (_trackMatrix (engine s')) p id
             <-> exists track,
                   placedByModel Scenario.catalog
                     (_cacheTrackPositions Scenario.modelA) id track p).
Proof.
  split; [reflexivity|]. split; [exact modelA_in_grid|].
  destruct (loadModel_completed Scenario.catalog Scenario.median Scenario.network
              (_cacheTrackPositions Scenario.modelA) Scenario.fresh eq_refl
              modelA_in_grid (fresh_covers 2 2))
    as (s' & Hrun & Hnetwork & _ & _ & Htracks & _).
  exists s'. split; [exact Hrun|]. split; [exact Hnetwork|exact Htracks].
Defined.

(** ** The cache file and the cancellation flag across load() *)

Section CacheProtocol.

Variable getFeatureDef : string -> FeatureDef.
Variable db : Db.
Variable cancelAt : option nat.
Variable fetch : option (Z -> gset string -> option (gmap string (list double))).
Variable initialRefVectors : Z -> Z -> nat -> gmap (Z * Z) (list double).
Variable trainIteration :
  nat -> Network.t -> list (list double) -> gmap (Z * Z) (list double).
Variable getClosestRefVectorPosition : Network.t -> list double -> Z * Z.
Variable computeRefVectorsDistanceMedian : Network.t -> double.
Variable normalizeData : list (list double) -> list double -> list double.
Variable defaultIterationCount : nat.
Variable defaultSampleCountPerNeuron : float.

Lemma loadModel_cacheFile network trackPositions s s' :
  loadModel db cancelAt computeRefVectorsDistanceMedian network trackPositions s
    = Done s' ->
  cacheFile s' = cacheFile s.
Proof.
  intros Hrun. apply loadModel_loop in Hrun as (completed & s1 & Hrun & ->).
  apply indexTracks_cacheWrites in Hrun as [_ Hfile].
  by destruct completed.
Qed.

Lemma trainAndCache_protocol s s' :
  trainAndCache getFeatureDef db cancelAt fetch initialRefVectors trainIteration
    getClosestRefVectorPosition computeRefVectorsDistanceMedian normalizeData
    defaultIterationCount defaultSampleCountPerNeuron s = Done s' ->
  (cacheWrites s' = cacheWrites s /\ cacheFile s' = cacheFile s
   /\ _loadCancelled (engine s') = true)
  \/ (exists cache,
        cacheWrites s' = cacheWrites s ++ [cache]
        /\ cacheFile s' = Some cache
        /\ toCache (engine s') = Done cache
        /\ _loadCancelled (engine s') = false).
Proof.
  unfold trainAndCache, loadFromTraining. intros Hrun.
  destruct (prepareModel _ _ _ _ _ _ _ _ _ s) as [[model s1]|f] eqn:Hprep;
    simpl in Hrun; [|done].
  apply prepareModel_stops in Hprep as [(Hf & Hw & _) _].
  assert (exists s2, cacheWrites s2 = cacheWrites s /\ cacheFile s2 = cacheFile s /\
            (let '(cancelled, s3) := readLoadCancelled cancelAt s2 in
             if cancelled then Done s3
             else cache ← toCache (engine s3); Done (write cache s3)) = Done s')
    as (s2 & Hw2 & Hf2 & Hrun2).
  { destruct model as [[network trackPositions]|]; simpl in Hrun.
    - apply bind_done in Hrun as (s2 & Hload & Hrun).
      exists s2. split; [|split; [|exact Hrun]].
      + apply loadModel_cacheWrites in Hload. congruence.
      + apply loadModel_cacheFile in Hload. congruence.
    - eexists. split; [|split; [|exact Hrun]]; done. }
  clear Hrun.
  destruct (readLoadCancelled cancelAt s2) as [cancelled s3] eqn:Hread.
  apply readLoadCancelled_polled in Hread as [(Hf3 & Hw3 & _) Hc].
  destruct cancelled.
  - injection Hrun2 as <-. left. repeat split; congruence.
  - destruct (toCache (engine s3)) as [cache|f] eqn:Hcache; simpl in Hrun2; [|done].
    injection Hrun2 as <-. right. exists cache. simpl.
    repeat split; try done. congruence.
Qed.

End CacheProtocol.

(** X13. Whenever load(forceReload) returns, either it wrote nothing to
    the cache, the flag being set or a cache having been adopted, and the
    cache file is as it was, or absent after a forced reload; or
    it wrote once, what it wrote is the model of the engine as load()
    leaves it, the cache file holds it, the flag is clear, and the load was
    a forced reload or found no cache. *)
Theorem load_cache_protocol
    (getFeatureDef : string -> FeatureDef) (db : Db) (cancelAt : option nat)
    (fetch : option (Z -> gset string -> option (gmap string (list double))))
    (initialRefVectors : Z -> Z -> nat -> gmap (Z * Z) (list double))
    (trainIteration : nat -> Network.t -> list (list double) -> gmap (Z * Z) (list double))
    (getClosestRefVectorPosition : Network.t -> list double -> Z * Z)
    (computeRefVectorsDistanceMedian : Network.t -> double)
    (normalizeData : list (list double) -> list double -> list double)
    (defaultIterationCount : nat) (defaultSampleCountPerNeuron : float)
    (forceReload : bool) (s s' : Sys) :
  load getFeatureDef db cancelAt fetch initialRefVectors trainIteration
    getClosestRefVectorPosition computeRefVectorsDistanceMedian normalizeData
    defaultIterationCount defaultSampleCountPerNeuron forceReload s = Done s' ->
  (cacheWrites s' = cacheWrites s
   /\ cacheFile s' = (if forceReload then None else cacheFile s)
   /\ (_loadCancelled (engine s') = true
       \/ (forceReload = false /\ is_Some (cacheFile s))))
  \/ (exists cache,
        cacheWrites s' = cacheWrites s ++ [cache]
        /\ cacheFile s' = Some cache
        /\ toCache (engine s') = Done cache
        /\ _loadCancelled (engine s') = false
        /\ (forceReload = true \/ cacheFile s = None)).
Proof.
  unfold load. intros Hrun. destruct forceReload.
  - apply trainAndCache_protocol in Hrun as [(Hw & Hf & Hc)|(cache & Hw & Hf & Ht & Hc)].
    + left. split; [done|]. split; [done|]. by left.
    + right. exists cache. repeat split; try done. by left.
  - destruct (cacheFile s) as [cache|] eqn:Hfile.
    + left. unfold loadFromCache in Hrun.
      pose proof (loadModel_cacheWrites _ _ _ _ _ _ _ Hrun) as Hwrites.
      pose proof (loadModel_cacheFile _ _ _ _ _ _ _ Hrun) as Hkept.
      split; [done|]. split; [congruence|]. right. split; [done|]. by eexists.
    + apply trainAndCache_protocol in Hrun as [(Hw & Hf & Hc)|(cache & Hw & Hf & Ht & Hc)].
      * left. split; [done|]. split; [congruence|]. by left.
      * right. exists cache. repeat split; try done. by right.
Qed.

(** X14. Nothing in load() clears the cancellation flag. Called with the
    flag set, load(forceReload) returns without writing and with the flag
    still set. A load that trains leaves the engine as it is. A load that
    adopts a cache overwrites the median and re-creates the track and the
    release matrix, empty, and then stops at the first entry of the model,
    keeping the network it had; it takes the network over only when the
    cached model places no track. *)
Theorem load_after_cancellation
    (getFeatureDef : string -> FeatureDef) (db : Db) (cancelAt : option nat)
    (fetch : option (Z -> gset string -> option (gmap string (list double))))
    (initialRefVectors : Z -> Z -> nat -> gmap (Z * Z) (list double))
    (trainIteration : nat -> Network.t -> list (list double) -> gmap (Z * Z) (list double))
    (getClosestRefVectorPosition : Network.t -> list double -> Z * Z)
    (computeRefVectorsDistanceMedian : Network.t -> double)
    (normalizeData : list (list double) -> list double -> list double)
    (defaultIterationCount : nat) (defaultSampleCountPerNeuron : float)
    (forceReload : bool) (s : Sys) :
  _loadCancelled (engine s) = true ->
  exists s',
    load getFeatureDef db cancelAt fetch initialRefVectors trainIteration
      getClosestRefVectorPosition computeRefVectorsDistanceMedian normalizeData
      defaultIterationCount defaultSampleCountPerNeuron forceReload s = Done s'
    /\ _loadCancelled (engine s') = true
    /\ cacheWrites s' = cacheWrites s
    /\ match (if forceReload then None else cacheFile s) with
       | None => engine s' = engine s
       | Some cache =>
           let network := _cacheNetwork cache in
           let reset :=
             resetForLoad (computeRefVectorsDistanceMedian network)
               (Network.width network) (Network.height network) (engine s) in
           engine s' = if decide (_cacheTrackPositions cache = ∅)
                       then set_network (Some network) reset
                       else reset
       end.
Proof.
  intros Hflag.
  assert (Htrain : forall s0,
    engine s0 = engine s -> cacheWrites s0 = cacheWrites s ->
    exists s',
      trainAndCache getFeatureDef db cancelAt fetch initialRefVectors trainIteration
        getClosestRefVectorPosition computeRefVectorsDistanceMedian normalizeData
        defaultIterationCount defaultSampleCountPerNeuron s0 = Done s'
      /\ _loadCancelled (engine s') = true
      /\ cacheWrites s' = cacheWrites s
      /\ engine s' = engine s).
  { intros s0 He Hw.
    destruct (prepareModel_cancelled_at_entry getFeatureDef db cancelAt fetch
                initialRefVectors trainIteration getClosestRefVectorPosition
                normalizeData
                (defaultTrainSettings defaultIterationCount defaultSampleCountPerNeuron)
                s0) as (s1 & Hprep & Hflag1); [by rewrite He|].
    destruct (trainAndCache_stopped _ _ _ _ _ _ _ computeRefVectorsDistanceMedian
                _ _ _ _ _ Hprep Hflag1) as (s' & Hdone & He' & Hw' & _).
    exists s'. split; [done|].
    assert (Hsame : engine s' = engine s).
    { rewrite He', He, <- Hflag. apply set_loadCancelled_same. }
    rewrite Hsame. split; [done|]. split; [congruence|done]. }
  unfold load. destruct forceReload; [by apply Htrain|].
  destruct (cacheFile s) as [cache|] eqn:Hfile; [|by apply Htrain].
  unfold loadFromCache.
  destruct (decide (_cacheTrackPositions cache = ∅)) as [Hempty|Hnonempty].
  - eexists. split.
    + apply loadModel_loop. eexists true, _. split; [|done].
      by rewrite Hempty, map_to_list_empty.
    + done.
  - eexists. split.
    + apply loadModel_loop. eexists false, _. split; [|done].
      destruct (map_to_list (_cacheTrackPositions cache))
        as [|[trackId positions] rest] eqn:Hentries;
        [by apply map_to_list_empty_iff in Hentries|].
      cbn [indexTracks]. by rewrite readLoadCancelled_sticky.
    + done.
Qed.
Lemma load_cache_protocol_witness :
  exists s' cache,
    Scenario.runAnalysed None true Scenario.freshWithCacheA = Done s'
    /\ cacheWrites s' = cacheWrites Scenario.freshWithCacheA ++ [cache]
    /\ cacheFile s' = Some cache
    /\ toCache (engine s') = Done cache
    /\ _loadCancelled (engine s') = false.
Proof.
  destruct (Scenario.runAnalysed None true Scenario.freshWithCacheA) as [s'|f] eqn:Hrun;
    [|vm_compute in Hrun; discriminate Hrun].
  exists s'.
  destruct (load_cache_protocol Scenario.featureDef Scenario.analysedCatalog None None
              Scenario.initialRefVectors Scenario.trainIteration
              Scenario.closestIsCorner Scenario.median Scenario.normalize
              10 (Float.ofZ 4) true Scenario.freshWithCacheA s' Hrun)
    as [(Hwrites & _)|(cache & Hwrites & Hfile & Hcache & Hflag & _)].
  - exfalso. revert Hwrites.
    unfold Scenario.runAnalysed in Hrun. vm_compute in Hrun.
    injection Hrun as <-. vm_compute. discriminate.
  - exists cache. repeat split; assumption.
Defined.

Lemma load_after_cancellation_witness :
  _loadCancelled (engine Scenario.cancelledWithCacheB) = true
  /\ exists s',
       Scenario.run None false Scenario.cancelledWithCacheB = Done s'
       /\ _loadCancelled (engine s') = true
       /\ cacheWrites s' = cacheWrites Scenario.cancelledWithCacheB
       /\ engine s'
          = resetForLoad (Scenario.median Scenario.network) 2 2
              (engine Scenario.cancelledWithCacheB).
Proof.
  split; [reflexivity|].
  destruct (load_after_cancellation Scenario.featureDef Scenario.catalog None None
              Scenario.initialRefVectors Scenario.trainIteration Scenario.closest
              Scenario.median Scenario.normalize 10 (Float.ofZ 4) false
              Scenario.cancelledWithCacheB eq_refl)
    as (s' & Hrun & Hflag & Hwrites & Hengine).
  exists s'. split; [exact Hrun|]. split; [exact Hflag|]. split; [exact Hwrites|].
  exact Hengine.
Defined.

(** ** A training that nobody cancels *)

Section QuietTraining.

Variable getFeatureDef : string -> FeatureDef.
Variable db : Db.
Variable fetch : option (Z -> gset string -> option (gmap string (list double))).
Variable initialRefVectors : Z -> Z -> nat -> gmap (Z * Z) (list double).
Variable trainIteration :
  nat -> Network.t -> list (list double) -> gmap (Z * Z) (list double).
Variable getClosestRefVectorPosition : Network.t -> list double -> Z * Z.
Variable featureNames : gset string.

Lemma extractSamples_total trackIds : forall samples ids s,
  (forall trackId m,
     fetchFeatureValues db fetch trackId featureNames = Some m -> dom m ⊆ featureNames) ->
  _loadCancelled (engine s) = false ->
  exists samples' ids' s',
    extractSamples getFeatureDef db None fetch featureNames
      (totalDimensions getFeatureDef featureNames) trackIds samples ids s
    = Done (Some (samples', ids'), s')
    /\ _loadCancelled (engine s') = false.
Proof.
  induction trackIds as [|trackId rest IH]; intros samples ids s Hcontract Hflag.
  - by exists samples, ids, s.
  - cbn [extractSamples]. rewrite readLoadCancelled_quiet by done.
    destruct (fetchFeatureValues db fetch trackId featureNames) as [m|] eqn:Hfetch.
    + destruct (convert_requested_returns getFeatureDef m featureNames
                  (Hcontract _ _ Hfetch)) as [r ->].
      cbn [mbind Outcome_bind]. destruct r; by apply IH.
    + by apply IH.
Qed.

Lemma train_quiet remaining : forall k samples network s,
  _loadCancelled (engine s) = false ->
  _loadCancelled (engine (train None trainIteration remaining k samples network s).2)
  = false.
Proof.
  induction remaining as [|remaining IH]; intros k samples network s Hflag; [done|].
  cbn [train]. rewrite readLoadCancelled_quiet by done. by apply IH.
Qed.

Lemma classifyTracks_quiet network samples : forall trackPositions s,
  _loadCancelled (engine s) = false ->
  exists trackPositions' s',
    classifyTracks None getClosestRefVectorPosition network samples trackPositions s
    = (Some trackPositions', s')
    /\ _loadCancelled (engine s') = false.
Proof.
  induction samples as [|[trackId sample] rest IH]; intros trackPositions s Hflag.
  - by exists trackPositions, s.
  - cbn [classifyTracks]. rewrite readLoadCancelled_quiet by done. by apply IH.
Qed.

(* The positions that the classification lists are nearest-neuron
   positions *)
Lemma classifyTracks_positions cancelAt network samples s trackPositions s' :
  classifyTracks cancelAt getClosestRefVectorPosition network samples ∅ s
    = (Some trackPositions, s') ->
  forall trackId positions position,
    trackPositions !! trackId = Some positions -> position ∈ positions ->
    exists sample, position = getClosestRefVectorPosition network sample.
Proof.
  intros Hrun trackId positions position Hlookup Hin.
  rewrite (classifyTracks_lookup _ _ _ _ _ _ _ _ Hrun trackId), lookup_empty in Hlookup.
  assert (Hps : positions
                = positionsOfTrack (getClosestRefVectorPosition network) samples trackId).
  { destruct (positionsOfTrack _ samples trackId); [done|]. by injection Hlookup as <-. }
  rewrite Hps in Hin. unfold positionsOfTrack in Hin.
  apply list_elem_of_fmap in Hin as (sample & -> & _). by eexists.
Qed.

End QuietTraining.

(** X15. A load that trains and that nobody cancels ends with a model
    loaded and written to the cache, provided the fetched value maps hold
    requested features only, at least one track gives a sample, the
    single-precision computation of line 200 returns a size for the number
    of tracks that gave a sample, the nearest neuron of a network of that
    size is a position of its grid, and the artist matrices that the engine
    already has hold that grid: load() returns, the engine has a network
    whose side is that size, the flag is clear, and the one cache write is
    the engine's network with the engine's track positions, which the cache
    file then holds. *)
Theorem load_trains_and_caches
    (getFeatureDef : string -> FeatureDef) (db : Db)
    (fetch : option (Z -> gset string -> option (gmap string (list double))))
    (initialRefVectors : Z -> Z -> nat -> gmap (Z * Z) (list double))
    (trainIteration :
       nat -> Network.t -> list (list double) -> gmap (Z * Z) (list double))
    (getClosestRefVectorPosition : Network.t -> list double -> Z * Z)
    (computeRefVectorsDistanceMedian : Network.t -> double)
    (normalizeData : list (list double) -> list double -> list double)
    (defaultIterationCount : nat) (defaultSampleCountPerNeuron : float)
    (forceReload : bool) (s : Sys) (size : Z) :
  let featureNames := featureNamesOf getDefaultTrainFeatureSettings in
  let nbDims := totalDimensions getFeatureDef featureNames in
  let hasSample := fun trackId =>
    is_Some (sampleOf getFeatureDef db fetch featureNames nbDims trackId) in
  _loadCancelled (engine s) = false ->
  forceReload = true \/ cacheFile s = None ->
  (forall trackId m,
     fetchFeatureValues db fetch trackId featureNames = Some m -> dom m ⊆ featureNames) ->
  (exists trackId, trackId ∈ getAllIdsWithFeatures db /\ hasSample trackId) ->
  gridSize (length (filter hasSample (getAllIdsWithFeatures db)))
    defaultSampleCountPerNeuron = Done size ->
  (forall network sample,
     Network.width network = size -> Network.height network = size ->
     Matrix.inGrid size size (getClosestRefVectorPosition network sample)) ->
  (forall t matrix,
     _artistMatrix (engine s) !! t = Some matrix -> covers size size matrix) ->
  exists s' network,
    load getFeatureDef db None fetch initialRefVectors trainIteration
      getClosestRefVectorPosition computeRefVectorsDistanceMedian normalizeData
      defaultIterationCount defaultSampleCountPerNeuron forceReload s = Done s'
    /\ _network (engine s') = Some network
    /\ Network.width network = size
    /\ Network.height network = size
    /\ _loadCancelled (engine s') = false
    /\ let cache := {| _cacheNetwork := network;
                       _cacheTrackPositions := _trackPositions (engine s') |} in
       cacheWrites s' = cacheWrites s ++ [cache] /\ cacheFile s' = Some cache.
Proof.
  intros featureNames nbDims hasSample Hflag Hpath Hcontract (witness & Hin & Hhas)
    Hsize Hclosest Hcovers.
  set (start := if forceReload then invalidate s else s).
  assert (Hstart : engine start = engine s /\ cacheWrites start = cacheWrites s)
    by (unfold start; by destruct forceReload).
  destruct Hstart as [Hengine Hwrites].
  assert (Hrun : load getFeatureDef db None fetch initialRefVectors trainIteration
                   getClosestRefVectorPosition computeRefVectorsDistanceMedian
                   normalizeData defaultIterationCount defaultSampleCountPerNeuron
                   forceReload s
                 = trainAndCache getFeatureDef db None fetch initialRefVectors
                     trainIteration getClosestRefVectorPosition
                     computeRefVectorsDistanceMedian normalizeData
                     defaultIterationCount defaultSampleCountPerNeuron start).
  { unfold load, start. destruct forceReload; [done|].
    destruct Hpath as [?| ->]; done. }
  rewrite Hrun. clear Hrun.
  unfold trainAndCache, loadFromTraining, prepareModel.
  change (featureSettingsMap
            (defaultTrainSettings defaultIterationCount defaultSampleCountPerNeuron))
    with getDefaultTrainFeatureSettings.
  fold featureNames. fold nbDims.
  destruct (extractSamples_total getFeatureDef db fetch featureNames
              (getAllIdsWithFeatures db) [] [] start Hcontract)
    as (samples & ids & s1 & Hextract & Hflag1); [by rewrite Hengine|].
  fold nbDims in Hextract. rewrite Hextract. cbn [mbind Outcome_bind].
  pose proof (extractSamples_polled _ _ _ _ _ _ _ _ _ _ _ _ Hextract)
    as (Hf1 & Hw1 & He1).
  pose proof (extractSamples_lengths _ _ _ _ _ _ _ _ _ _ _ _ _ Hextract eq_refl) as Hlen.
  apply extractSamples_collects in Hextract as [Hsamples Hids].
  simpl in Hsamples, Hids. fold hasSample in Hids.
  assert (Hcount : length samples = length (filter hasSample (getAllIdsWithFeatures db)))
    by (rewrite <- Hids; done).
  destruct samples as [|sample samples].
  { exfalso. assert (Hw : witness ∈ ids) by (rewrite Hids; by apply list_elem_of_filter).
    destruct ids; [by apply elem_of_nil in Hw|done]. }
  set (all := sample :: samples) in *.
  unfold buildNetwork.
  change (featureSettingsMap
            (defaultTrainSettings defaultIterationCount defaultSampleCountPerNeuron))
    with getDefaultTrainFeatureSettings.
  change (sampleCountPerNeuron
            (defaultTrainSettings defaultIterationCount defaultSampleCountPerNeuron))
    with defaultSampleCountPerNeuron.
  rewrite length_map, Hcount, Hsize. cbn [mbind Outcome_bind].
  pose proof (getInputVectorWeights_blocks getFeatureDef getDefaultTrainFeatureSettings)
    as Hweights.
  fold featureNames in Hweights. fold nbDims in Hweights. rewrite Hweights. cbn [mbind Outcome_bind].
  match goal with |- context [train None trainIteration ?it ?k ?ss ?n0 s1] =>
    pose proof (train_quiet trainIteration it k ss n0 s1 Hflag1) as Hflag2;
    pose proof (train_size None trainIteration it k ss n0 s1) as [Hw' Hh'];
    destruct (train None trainIteration it k ss n0 s1) as [trained s2] eqn:Htrain
  end.
  apply train_polled in Htrain as (Hf2 & Hw2 & He2).
  simpl in Hflag2, Hw', Hh'.
  match goal with |- context [classifyTracks None _ trained ?zs ∅ s2] =>
    destruct (classifyTracks_quiet getClosestRefVectorPosition trained zs ∅ s2 Hflag2)
      as (trackPositions & s3 & Hclassify & Hflag3)
  end.
  rewrite Hclassify. cbn [mbind Outcome_bind].
  pose proof (classifyTracks_positions _ _ _ _ _ _ _ Hclassify) as Hpositions.
  apply classifyTracks_polled in Hclassify as (Hf3 & Hw3 & He3).
  destruct (loadModel_quiet db computeRefVectorsDistanceMedian trained trackPositions
              s3 Hflag3) as (s4 & Hload & Hnetwork & Hflag4 & _).
  { intros trackId positions position Hlookup Hposition.
    destruct (Hpositions trackId positions position Hlookup Hposition) as [v ->].
    rewrite Hw', Hh'. by apply Hclosest. }
  { intros t matrix Hlookup. rewrite Hw', Hh'. apply (Hcovers t).
    rewrite <- Hlookup, <- Hengine, He3, He2, He1. done. }
  rewrite Hload. cbn [mbind Outcome_bind].
  pose proof (loadModel_cacheWrites _ _ _ _ _ _ _ Hload) as Hw4.
  rewrite readLoadCancelled_quiet by done.
  unfold toCache. cbn [engine]. rewrite Hnetwork. cbn [mbind Outcome_bind].
  eexists _, trained. split; [done|]. simpl.
  split; [done|]. split; [done|]. split; [done|]. split; [done|].
  split; [|done]. f_equal. congruence.
Qed.

(* The database as the feature source of the analysed catalog hands out
   requested features only *)
Lemma analysedCatalog_requested trackId (featureNames : gset string) m :
  fetchFeatureValues Scenario.analysedCatalog None trackId featureNames = Some m ->
  dom m ⊆ featureNames.
Proof.
  unfold fetchFeatureValues, getTrackFeatureValuesFromDb.
  destruct (tracks Scenario.analysedCatalog !! trackId) as [track|] eqn:Htrack; [|done].
  unfold Scenario.analysedCatalog in Htrack. simpl in Htrack.
  apply lookup_singleton_Some in Htrack as [_ <-]. simpl.
  destruct (decide (Scenario.oneValuePerFeature featureNames = ∅)); [done|].
  intros [= <-]. unfold Scenario.oneValuePerFeature. by rewrite dom_gset_to_gmap.
Qed.

Lemma load_trains_and_caches_witness :
  _loadCancelled (engine Scenario.fresh) = false
  /\ exists s' network,
       Scenario.runAnalysed None true Scenario.fresh = Done s'
       /\ _network (engine s') = Some network
       /\ Network.width network = 2%Z
       /\ Network.height network = 2%Z
       /\ _loadCancelled (engine s') = false
       /\ cacheFile s'
          = Some {| _cacheNetwork := network;
                    _cacheTrackPositions := _trackPositions (engine s') |}.
Proof.
  split; [reflexivity|].
  destruct (load_trains_and_caches Scenario.featureDef Scenario.analysedCatalog None
              Scenario.initialRefVectors Scenario.trainIteration
              Scenario.closestIsCorner Scenario.median Scenario.normalize
              10 (Float.ofZ 4) true Scenario.fresh 2)
    as (s' & network & Hrun & Hnetwork & Hwidth & Hheight & Hflag & _ & Hfile).
  - reflexivity.
  - left. reflexivity.
  - intros trackId m. apply analysedCatalog_requested.
  - exists 1%Z. split; [vm_compute; left|vm_compute; eexists; reflexivity].
  - vm_compute. reflexivity.
  - intros network sample _ _. unfold Matrix.inGrid. simpl. lia.
  - intros t matrix Hlookup.
    change (_artistMatrix (engine Scenario.fresh)) with (∅ : gmap nat Matrix.t) in Hlookup.
    by rewrite lookup_empty in Hlookup.
  - exists s', network. split; [exact Hrun|]. split; [exact Hnetwork|].
    split; [exact Hwidth|]. split; [exact Hheight|]. split; [exact Hflag|exact Hfile].
Defined.

(** X16. On a freshly constructed engine, a load(network, trackPositions)
    that nobody cancels, of a model whose positions lie in the grid of the
    network, returns and leaves matrices and position maps that list the
    same placements, those of the model: a track, a release or an artist is
    listed in a cell exactly when the position is listed for it. *)
Theorem first_load_consistent
    (db : Db) (computeRefVectorsDistanceMedian : Network.t -> double)
    (network : Network.t) (trackPositions : gmap Z (list (Z * Z)))
    (file : option FeaturesEngineCache) (writes : list FeaturesEngineCache)
    (reads : nat) :
  positionsInGrid (Network.width network) (Network.height network) trackPositions ->
  exists s',
    loadModel db None computeRefVectorsDistanceMedian network trackPositions
      {| engine := newEngine; cacheFile := file; cacheWrites := writes;
         clock := reads |} = Done s'
    /\ (forall id p,
          placedAt (_trackPositions (engine s')) id p
          <-> exists track, placedByModel db trackPositions id track p)
    /\ (forall id p,
          inCell (_trackMatrix (engine s')) p id
          <-> placedAt (_trackPositions (engine s')) id p)
    /\ (forall r p,
          inCell (_releaseMatrix (engine s')) p r
          <-> placedAt (_releasePositions (engine s')) r p)
    /\ (forall a p,
          (exists t, inArtistCell (_artistMatrix (engine s')) t p a)
          <-> placedAt (_artistPositions (engine s')) a p).
Proof.
  intros Hgrid.
  set (s := {| engine := newEngine; cacheFile := file; cacheWrites := writes;
               clock := reads |}).
  destruct (loadModel_quiet db computeRefVectorsDistanceMedian network trackPositions
              s eq_refl Hgrid) as (s' & Hrun & _).
  { intros t matrix Hlookup.
    change (_artistMatrix (engine s)) with (∅ : gmap nat Matrix.t) in Hlookup.
    by rewrite lookup_empty in Hlookup. }
  exists s'. split; [exact Hrun|].
  destruct (loadModel_quiet_indexedBy db computeRefVectorsDistanceMedian network
              trackPositions s s' eq_refl Hrun)
    as (_ & _ & H1 & H2 & H3 & H4 & H5 & H6).
  simpl in H1, H2, H3, H4, H5, H6.
  assert (Hnone : forall id p, ~ placedAt (∅ : gmap Z (list (Z * Z))) id p).
  { intros id p. unfold placedAt. rewrite lookup_empty. apply not_elem_of_nil. }
  assert (Hnocell : forall t p a, ~ inArtistCell (∅ : gmap nat Matrix.t) t p a).
  { intros t p a (matrix & Hlookup & _). by rewrite lookup_empty in Hlookup. }
  change (_trackPositions newEngine) with (∅ : gmap Z (list (Z * Z))) in H1.
  change (_releasePositions newEngine) with (∅ : gmap Z (list (Z * Z))) in H3.
  change (_artistPositions newEngine) with (∅ : gmap Z (list (Z * Z))) in H5.
  change (_artistMatrix newEngine) with (∅ : gmap nat Matrix.t) in H6.
  split; [|split; [|split]].
  - intros id p. rewrite H1. split; [|by right].
    intros [Hold|?]; [by apply Hnone in Hold|done].
  - intros id p. rewrite H1, H2. split.
    + intros [Hold|?]; [by apply inCell_new in Hold|by right].
    + intros [Hold|?]; [by apply Hnone in Hold|by right].
  - intros r p. rewrite H3, H4. split.
    + intros [Hold|?]; [by apply inCell_new in Hold|by right].
    + intros [Hold|?]; [by apply Hnone in Hold|by right].
  - intros a p. rewrite H5. setoid_rewrite H6. split.
    + intros [t [Hold|(id & track & link & ? & ? & ? & ?)]]; [by apply Hnocell in Hold|].
      right. by exists id, track, link.
    + intros [Hold|(id & track & link & ? & ? & ?)]; [by apply Hnone in Hold|].
      exists (getType link). right. by exists id, track, link.
Qed.

Lemma first_load_consistent_witness :
  positionsInGrid 2 2 (_cacheTrackPositions Scenario.modelA)
  /\ exists s',
       loadModel Scenario.catalog None Scenario.median Scenario.network
         (_cacheTrackPositions Scenario.modelA) Scenario.fresh = Done s'
       /\ (forall id p,
             inCell (_trackMatrix (engine s')) p id
             <-> placedAt (_trackPositions (engine s')) id p).
Proof.
  split; [exact modelA_in_grid|].
  destruct (first_load_consistent Scenario.catalog Scenario.median Scenario.network
              (_cacheTrackPositions Scenario.modelA) None [] 0 modelA_in_grid)
    as (s' & Hrun & _ & Htracks & _).
  exists s'. split; [exact Hrun|exact Htracks].
Defined.

(** ** The vector construction out of range *)

Section ConvertOverflow.

Variable getFeatureDef : string -> FeatureDef.

Lemma writeValues_overflow values : forall (res : list double) i,
  i <= length res -> length res < i + length values ->
  writeValues values res i = Failed OutOfRange.
Proof.
  induction values as [|val rest IH]; intros res i Hi Hlen; simpl in *; [lia|].
  unfold SOM.store. destruct (decide (i < length res)) as [Hlt|Hge]; [|done].
  simpl. apply IH; rewrite length_insert; lia.
Qed.

Lemma convertLoop_overflow entries : forall (res : list double) i,
  Forall (fun entry => length entry.2 = dimsOf getFeatureDef entry.1) entries ->
  i <= length res ->
  length res < i + sum_list_with (fun entry => dimsOf getFeatureDef entry.1) entries ->
  convertLoop getFeatureDef entries res i = Failed OutOfRange.
Proof.
  induction entries as [|[featureName values] rest IH]; intros res i Hall Hi Hlen.
  - simpl in Hlen. lia.
  - apply Forall_cons in Hall as [Hhead Hall]. unfold dimsOf in Hhead, Hlen.
    simpl in *. rewrite decide_False by (intros Hne; by apply Hne).
    destruct (decide (i + length values <= length res)) as [Hfits|Hover].
    + rewrite writeValues_ok by done. simpl.
      apply IH; [done| |]; rewrite splice_length by done; unfold dimsOf; lia.
    + rewrite writeValues_overflow by lia. done.
Qed.

End ConvertOverflow.

(** X17. convertFeatureValuesMapToInputVector checks each feature against
    its declared nbDimensions but never the vector size: when every feature
    of the value map has its declared number of values and these are more
    than nbDimensions in total, the function writes past the end of the
    vector. *)
Theorem convert_writes_out_of_range
    (getFeatureDef : string -> FeatureDef)
    (featureValuesMap : gmap string (list double)) (nbDims : nat) :
  (forall featureName values,
     featureValuesMap !! featureName = Some values ->
     length values = nbDimensions (getFeatureDef featureName)) ->
  nbDims < sum_list_with (fun entry => length entry.2) (map_to_list featureValuesMap) ->
  convertFeatureValuesMapToInputVector getFeatureDef featureValuesMap nbDims
  = Failed OutOfRange.
Proof.
  intros Hmatch Hover.
  assert (Hall : Forall (fun entry => length entry.2 = dimsOf getFeatureDef entry.1)
                   (map_to_list featureValuesMap)).
  { apply Forall_forall. intros [name vs] Hin.
    apply elem_of_map_to_list in Hin. by apply (Hmatch name vs). }
  unfold convertFeatureValuesMapToInputVector, SOM.newInputVector.
  apply convertLoop_overflow; [done|lia|]. rewrite length_replicate. simpl.
  eapply Nat.lt_le_trans; [exact Hover|]. clear -Hall.
  induction Hall as [|entry rest Hentry _ IH]; simpl; [done|]. lia.
Qed.

Lemma convert_writes_out_of_range_witness :
  0 < sum_list_with (fun entry : string * list double => length entry.2)
        (map_to_list Cases.oneValue)
  /\ convertFeatureValuesMapToInputVector Scenario.featureDef Cases.oneValue 0
     = Failed OutOfRange.
Proof.
  assert (Hover : 0 < sum_list_with (fun entry : string * list double => length entry.2)
                        (map_to_list Cases.oneValue))
    by (vm_compute; lia).
  split; [exact Hover|].
  apply (convert_writes_out_of_range Scenario.featureDef Cases.oneValue 0); [|exact Hover].
  intros featureName vs Hlookup. unfold Cases.oneValue in Hlookup.
  apply lookup_singleton_Some in Hlookup as [_ <-]. reflexivity.
Defined.
(** ** The queries *)

Lemma evictRandom_within pickRandom fuel : forall draw maxCount res,
  length res <= maxCount -> evictRandom pickRandom fuel draw maxCount res = res.
Proof.
  destruct fuel as [|fuel]; intros draw maxCount res Hlen; simpl; [done|].
  rewrite decide_False by lia. done.
Qed.

(** X19. getSimilarArtists returns no artist twice; each returned artist
    was returned by getSimilarObjects for a requested link type that has a
    matrix; the result is empty when no requested link type has a matrix or
    when maxCount is 0; and when the existing candidates are at most
    maxCount, all of them are returned, the random generator not being
    consulted. *)
Theorem getSimilarArtists_candidates
    (db : Db)
    (getSimilarObjects :
       FeaturesEngine -> list Z -> Matrix.t -> gmap Z (list (Z * Z)) -> nat -> list Z)
    (pickRandom : nat -> nat -> nat)
    (e : FeaturesEngine) (artistId : Z) (linkTypes : list nat) (maxCount draw : nat) :
  let res :=
    getSimilarArtists db getSimilarObjects pickRandom e artistId linkTypes maxCount draw in
  let existing :=
    filter (fun artistId => Artist_exists db artistId = true)
      (elements (similarArtistIdsUnion getSimilarObjects e artistId linkTypes maxCount)) in
  NoDup res
  /\ (forall similarId,
        similarId ∈ res ->
        exists linkType matrix,
          linkType ∈ linkTypes /\ _artistMatrix e !! linkType = Some matrix
          /\ similarId ∈ getSimilarObjects e [artistId] matrix (_artistPositions e) maxCount)
  /\ ((forall linkType, linkType ∈ linkTypes -> _artistMatrix e !! linkType = None) ->
      res = [])
  /\ (maxCount = 0 -> res = [])
  /\ (length existing <= maxCount -> res = existing).
Proof.
  intros res existing.
  assert (Hsub : res `sublist_of` existing) by apply evictRandom_sublist.
  assert (Hnd : NoDup existing) by (apply NoDup_filter, NoDup_elements).
  assert (Hfrom : forall similarId,
            similarId ∈ existing ->
            exists linkType matrix,
              linkType ∈ linkTypes /\ _artistMatrix e !! linkType = Some matrix
              /\ similarId ∈ getSimilarObjects e [artistId] matrix
                               (_artistPositions e) maxCount).
  { intros similarId Hin. apply list_elem_of_filter in Hin as [_ Hin].
    apply elem_of_elements, elem_of_similarArtistIdsUnion in Hin
      as (linkType & Hlt & Hin).
    unfold getSimilarArtistIdsForLinkType in Hin.
    destruct (_artistMatrix e !! linkType) as [matrix|] eqn:Hm;
      [|by apply elem_of_nil in Hin].
    by exists linkType, matrix. }
  assert (Hlen : length res = length existing `min` maxCount).
  { unfold res, getSimilarArtists. fold existing. apply evictRandom_length. lia. }
  split; [by eapply sublist_NoDup|]. split; [|split; [|split]].
  - intros similarId Hin. apply Hfrom. by eapply elem_of_sublist.
  - intros Hnone. destruct res as [|x l] eqn:Hres; [done|].
    destruct (Hfrom x) as (linkType & matrix & Hlt & Hm & _).
    { eapply elem_of_sublist; [|exact Hsub]. by left. }
    rewrite (Hnone linkType Hlt) in Hm. done.
  - intros ->. destruct res; [done|]. simpl in Hlen. lia.
  - intros Hfits. unfold res, getSimilarArtists. fold existing.
    by apply evictRandom_within.
Qed.

(** X20. getSimilarTracks and getSimilarReleases return the ids that
    getSimilarObjects returned, in the same order, without those that no
    longer exist, and all of them when all exist; for a track list that
    the catalog does not know, getSimilarTracksFromTrackList is the query
    for the empty list of tracks. *)
Theorem similar_tracks_and_releases_filtered
    (db : Db)
    (getSimilarObjects :
       FeaturesEngine -> list Z -> Matrix.t -> gmap Z (list (Z * Z)) -> nat -> list Z)
    (e : FeaturesEngine) (maxCount : nat) :
  (forall trackIds,
     let similar :=
       getSimilarObjects e trackIds (_trackMatrix e) (_trackPositions e) maxCount in
     getSimilarTracks db getSimilarObjects e trackIds maxCount `sublist_of` similar
     /\ (forall trackId,
           trackId ∈ getSimilarTracks db getSimilarObjects e trackIds maxCount
           <-> trackId ∈ similar /\ is_Some (tracks db !! trackId))
     /\ (Forall (fun trackId => is_Some (tracks db !! trackId)) similar ->
         getSimilarTracks db getSimilarObjects e trackIds maxCount = similar))
  /\ (forall releaseId,
        let similar :=
          getSimilarObjects e [releaseId] (_releaseMatrix e) (_releasePositions e)
            maxCount in
        getSimilarReleases db getSimilarObjects e releaseId maxCount `sublist_of` similar
        /\ (forall similarId,
              similarId ∈ getSimilarReleases db getSimilarObjects e releaseId maxCount
              <-> similarId ∈ similar /\ similarId ∈ releases db))
  /\ (forall trackListId,
        trackLists db !! trackListId = None ->
        getSimilarTracksFromTrackList db getSimilarObjects e trackListId maxCount
        = getSimilarTracks db getSimilarObjects e [] maxCount).
Proof.
  split; [|split].
  - intros trackIds similar. unfold getSimilarTracks. fold similar.
    split; [apply sublist_filter|]. split.
    + intros trackId. rewrite list_elem_of_filter. unfold Track_exists.
      rewrite bool_decide_eq_true. tauto.
    + intros Hall. induction Hall as [|x l Hx _ IH]; [done|].
      rewrite filter_cons. unfold Track_exists at 1.
      rewrite decide_True by (by apply bool_decide_eq_true). by rewrite IH.
  - intros releaseId similar. unfold getSimilarReleases. fold similar.
    destruct similar as [|x l] eqn:Hsimilar.
    + split; [done|]. intros similarId. split; [by intros ?%elem_of_nil|].
      by intros [?%elem_of_nil _].
    + split; [apply sublist_filter|]. intros similarId.
      rewrite list_elem_of_filter. unfold Release_exists.
      rewrite bool_decide_eq_true. tauto.
  - intros trackListId Hnone. unfold getSimilarTracksFromTrackList. by rewrite Hnone.
Qed.

(** ** Adopting the same model again *)

(** X21. Adopting the same model a second time, nobody cancelling, the
    catalog being the same, the positions of the model lying in the grid of
    the network and the artist matrices of the engine holding that grid:
    both loads return, and the second changes nothing in what the index
    lists: every position map and every matrix lists after the second
    load(network, trackPositions) what it listed after the first. *)
Theorem reload_same_model
    (db : Db) (computeRefVectorsDistanceMedian : Network.t -> double)
    (network : Network.t) (trackPositions : gmap Z (list (Z * Z))) (s : Sys) :
  _loadCancelled (engine s) = false ->
  positionsInGrid (Network.width network) (Network.height network) trackPositions ->
  (forall t matrix,
     _artistMatrix (engine s) !! t = Some matrix ->
     covers (Network.width network) (Network.height network) matrix) ->
  exists s1 s2,
    loadModel db None computeRefVectorsDistanceMedian network trackPositions s
      = Done s1
    /\ loadModel db None computeRefVectorsDistanceMedian network trackPositions s1
       = Done s2
    /\ (forall id p,
          placedAt (_trackPositions (engine s2)) id p
          <-> placedAt (_trackPositions (engine s1)) id p)
    /\ (forall id p,
          inCell (_trackMatrix (engine s2)) p id
          <-> inCell (_trackMatrix (engine s1)) p id)
    /\ (forall r p,
          placedAt (_releasePositions (engine s2)) r p
          <-> placedAt (_releasePositions (engine s1)) r p)
    /\ (forall r p,
          inCell (_releaseMatrix (engine s2)) p r
          <-> inCell (_releaseMatrix (engine s1)) p r)
    /\ (forall a p,
          placedAt (_artistPositions (engine s2)) a p
          <-> placedAt (_artistPositions (engine s1)) a p)
    /\ (forall t a p,
          inArtistCell (_artistMatrix (engine s2)) t p a
          <-> inArtistCell (_artistMatrix (engine s1)) t p a).
Proof.
  intros Hclear Hgrid Hcovers.
  destruct (loadModel_quiet db computeRefVectorsDistanceMedian network trackPositions
              s Hclear Hgrid Hcovers) as (s1 & Hrun1 & _).
  destruct (loadModel_quiet_indexedBy db computeRefVectorsDistanceMedian network
              trackPositions s s1 Hclear Hrun1)
    as (Hclear1 & _ & F1 & F2 & F3 & F4 & F5 & F6).
  destruct (loadModel_sizesKept _ _ _ _ _ _ _ Hrun1) as (_ & _ & Hartists & _).
  simpl in Hartists.
  destruct (loadModel_quiet db computeRefVectorsDistanceMedian network trackPositions
              s1 Hclear1 Hgrid) as (s2 & Hrun2 & _).
  { intros t matrix' Hlookup. specialize (Hartists t matrix' Hlookup).
    destruct (_artistMatrix (engine s) !! t) as [matrix|] eqn:Hold.
    - eapply covers_sameSize; [exact Hartists|]. by eapply Hcovers.
    - destruct Hartists as [Hw Hh]. unfold covers. rewrite Hw, Hh. lia. }
  destruct (loadModel_quiet_indexedBy db computeRefVectorsDistanceMedian network
              trackPositions s1 s2 Hclear1 Hrun2)
    as (_ & _ & G1 & G2 & G3 & G4 & G5 & G6).
  simpl in F1, F2, F3, F4, F5, F6, G1, G2, G3, G4, G5, G6.
  exists s1, s2. split; [done|]. split; [done|].
  split; [|split; [|split; [|split; [|split]]]].
  - intros id p. rewrite G1, F1. tauto.
  - intros id p. rewrite G2, F2. split.
    + intros [Hold|?]; [by apply inCell_new in Hold|by right].
    + intros [Hold|?]; [by apply inCell_new in Hold|by right].
  - intros r p. rewrite G3, F3. tauto.
  - intros r p. rewrite G4, F4. split.
    + intros [Hold|?]; [by apply inCell_new in Hold|by right].
    + intros [Hold|?]; [by apply inCell_new in Hold|by right].
  - intros a p. rewrite G5, F5. tauto.
  - intros t a p. rewrite G6, F6. tauto.
Qed.

Lemma reload_same_model_witness :
  _loadCancelled (engine Scenario.fresh) = false
  /\ positionsInGrid 2 2 (_cacheTrackPositions Scenario.modelA)
  /\ exists s1 s2,
       loadModel Scenario.catalog None Scenario.median Scenario.network
         (_cacheTrackPositions Scenario.modelA) Scenario.fresh = Done s1
       /\ loadModel Scenario.catalog None Scenario.median Scenario.network
            (_cacheTrackPositions Scenario.modelA) s1 = Done s2
       /\ (forall id p,
             placedAt (_trackPositions (engine s2)) id p
             <-> placedAt (_trackPositions (engine s1)) id p)
       /\ (forall t a p,
             inArtistCell (_artistMatrix (engine s2)) t p a
             <-> inArtistCell (_artistMatrix (engine s1)) t p a).
Proof.
  split; [reflexivity|]. split; [exact modelA_in_grid|].
  destruct (reload_same_model Scenario.catalog Scenario.median Scenario.network
              (_cacheTrackPositions Scenario.modelA) Scenario.fresh eq_refl
              modelA_in_grid (fresh_covers 2 2))
    as (s1 & s2 & Hrun1 & Hrun2 & Htracks & _ & _ & _ & _ & Hartists).
  exists s1, s2. split; [exact Hrun1|]. split; [exact Hrun2|].
  split; [exact Htracks|exact Hartists].
Defined.
